(** * RBQL (rainbow_csv): a shallow embedding of [python/rbql.py]

    The query compiler (comment stripping, lexer, clause splitter, column
    rewriter, join-expression parser) and the generated executor (record
    iterator, [rbql_list], [Flike], joiners, writers, [rb_transform]) are
    transcribed function by function; the properties follow the definitions.

    Python [str] values are lists of 8-bit characters ([list ascii]);
    [dict] is stdpp's [gmap], [set] is [gset]; exceptions are explicit
    results. *)

From Stdlib Require Import Ascii String ZArith List Lia Bool.
From Stdlib Require Import Sorting.Permutation Sorting.Sorted.
From stdpp Require Import gmap strings list pretty sorting.

Set Warnings "-clear-no-such-hyp".

Local Open Scope char_scope.
Local Open Scope list_scope.

(* ================================================================== *)
(** * Part I. Definitions *)
(* ================================================================== *)

(** ** Python strings *)

Abbreviation pystr := (list ascii).

(** A string literal of the source, as a list of characters. *)
Definition py (s : string) : pystr := list_ascii_of_string s.

Definition ch_dquote : ascii := "034".
Definition ch_squote : ascii := "'".
Definition ch_backslash : ascii := "\".
Definition ch_tab : ascii := "009".
Definition ch_lf : ascii := "010".
Definition ch_cr : ascii := "013".
Definition ch_space : ascii := " ".
Definition ch_hash : ascii := "#".

(** [s[i]] for an index the caller keeps in range. *)
Definition getc (s : pystr) (i : nat) : ascii := nth i s "000".

(** [s[k:i]] for [0 <= k]; Python clamps both ends to the string. *)
Definition slice {A : Type} (s : list A) (k i : nat) : list A := take (i - k) (drop k s).

Definition str_eqb (a b : pystr) : bool := bool_decide (a = b).

(** [str.isspace] on the code points below 256. *)
Definition py_isspace (c : ascii) : bool :=
  existsb (Nat.eqb (nat_of_ascii c)) [9; 10; 11; 12; 13; 28; 29; 30; 31; 32; 133; 160]%nat.

Definition in_chars (chars : pystr) (c : ascii) : bool :=
  existsb (Ascii.eqb c) chars.

(** [s.rstrip()] / [s.rstrip(chars)]: drop the longest suffix of characters
    satisfying [p]. *)
Fixpoint rstrip_by (p : ascii -> bool) (s : pystr) : pystr :=
  match s with
  | [] => []
  | c :: s' =>
      match rstrip_by p s' with
      | [] => if p c then [] else [c]
      | r => c :: r
      end
  end.

Fixpoint lstrip_by (p : ascii -> bool) (s : pystr) : pystr :=
  match s with
  | [] => []
  | c :: s' => if p c then lstrip_by p s' else s
  end.

Definition rstrip (s : pystr) : pystr := rstrip_by py_isspace s.
Definition strip (s : pystr) : pystr := rstrip (lstrip_by py_isspace s).

(** [s.replace(a, b)] for single characters. *)
Definition replace_char (a b : ascii) (s : pystr) : pystr :=
  map (fun c => if Ascii.eqb c a then b else c) s.

(** [c.upper()] on ASCII letters; the keywords compared against are ASCII,
    and no other code point below 256 has an ASCII upper case that occurs in
    one of them. *)
Definition upper_char (c : ascii) : ascii :=
  let n := nat_of_ascii c in
  if (97 <=? n)%nat && (n <=? 122)%nat then ascii_of_nat (n - 32) else c.

Definition upper (s : pystr) : pystr := map upper_char s.

(** [s.split(sep)] for a one-character separator: always at least one piece. *)
Fixpoint split_char (sep : ascii) (s : pystr) : list pystr :=
  match s with
  | [] => [[]]
  | c :: s' =>
      if Ascii.eqb c sep then [] :: split_char sep s'
      else match split_char sep s' with
           | [] => [[c]]
           | w :: ws => (c :: w) :: ws
           end
  end.

(** [sep.join(parts)]. *)
Fixpoint join_str (sep : pystr) (parts : list pystr) : pystr :=
  match parts with
  | [] => []
  | [p] => p
  | p :: ps => p ++ sep ++ join_str sep ps
  end.

Fixpoint is_prefix (p s : pystr) : bool :=
  match p, s with
  | [], _ => true
  | _ :: _, [] => false
  | a :: p', b :: s' => Ascii.eqb a b && is_prefix p' s'
  end.

Definition startswith (s p : pystr) : bool := is_prefix p s.
Definition endswith (s p : pystr) : bool := is_prefix (rev p) (rev s).

(** [s.find(sub)]: the least index at which [sub] occurs, [None] for -1. *)
Fixpoint str_find (sub s : pystr) : option nat :=
  if is_prefix sub s then Some 0%nat
  else match s with
       | [] => None
       | _ :: s' => option_map S (str_find sub s')
       end.

(** [str(n)] for a whole number. *)
Definition str_of_Z (z : Z) : pystr := py (pretty z).
Definition str_of_nat (n : nat) : pystr := py (pretty n).

(** ** Comment stripping *)

Definition is_escaped_quote (cline : pystr) (i : nat) : bool :=
  if (i =? 0)%nat then false
  else if (i =? 1)%nat && Ascii.eqb (getc cline (i - 1)) ch_backslash then true
  else if Ascii.eqb (getc cline (i - 1)) ch_backslash
          && negb (Ascii.eqb (getc cline (i - 2)) ch_backslash) then true
  else false.

Definition is_quote_char (c : ascii) : bool :=
  Ascii.eqb c ch_squote || Ascii.eqb c ch_dquote.

(** The [for i in range(len(cline))] loop of [strip_comments]; [idxs] is the
    remaining part of the range. *)
Fixpoint strip_comments_loop (cline : pystr) (idxs : list nat)
    (cur_quote_mark : option ascii) : pystr :=
  match idxs with
  | [] => cline
  | i :: rest =>
      let c := getc cline i in
      match cur_quote_mark with
      | None =>
          if Ascii.eqb c ch_hash then rstrip (slice cline 0 i)
          else if is_quote_char c then strip_comments_loop cline rest (Some c)
          else strip_comments_loop cline rest None
      | Some q =>
          if Ascii.eqb c q && negb (is_escaped_quote cline i)
          then strip_comments_loop cline rest None
          else strip_comments_loop cline rest (Some q)
      end
  end.

Definition strip_comments (cline : pystr) : pystr :=
  let cline := rstrip cline in
  let cline := replace_char ch_tab ch_space cline in
  strip_comments_loop cline (seq 0 (length cline)) None.

(** *** Reference reading of the scan, for comparison with the loop *)

(** A position is escaped when the character before it is a backslash and the
    one before that, if any, is not. *)
Definition escaped_at (cline : pystr) (i : nat) : bool :=
  (1 <=? i)%nat && Ascii.eqb (getc cline (i - 1)) ch_backslash
  && negb ((2 <=? i)%nat && Ascii.eqb (getc cline (i - 2)) ch_backslash).

(** The open quote, if any, just before position [i]. *)
Fixpoint quote_before (cline : pystr) (i : nat) : option ascii :=
  match i with
  | O => None
  | S j =>
      let c := getc cline j in
      match quote_before cline j with
      | None => if is_quote_char c then Some c else None
      | Some q => if Ascii.eqb c q && negb (escaped_at cline j) then None else Some q
      end
  end.

Definition comment_start (cline : pystr) (i : nat) : bool :=
  match quote_before cline i with
  | None => Ascii.eqb (getc cline i) ch_hash
  | Some _ => false
  end.

Definition first_comment_start (cline : pystr) : option nat :=
  List.find (comment_start cline) (seq 0 (length cline)).

(** ** Exceptions *)

Inductive exn :=
| RBParsingError (msg : pystr)
| AssertionError
| BadFieldError (bad_idx : Z)
| RbqlRuntimeError (msg : pystr)
| PyException (msg : pystr).

Inductive res (A : Type) :=
| Ok (a : A)
| Raise (e : exn).
Arguments Ok {A} a.
Arguments Raise {A} e.

Definition bind {A B : Type} (m : res A) (f : A -> res B) : res B :=
  match m with
  | Ok a => f a
  | Raise e => Raise e
  end.

Notation "'let*' x ':=' m 'in' k" := (bind m (fun x => k))
  (at level 10, x name, m at level 100, k at level 200).

(** [str(e)]. *)
Definition str_of_exn (e : exn) : pystr :=
  match e with
  | RBParsingError msg => msg
  | AssertionError => []
  | BadFieldError bad_idx => str_of_Z bad_idx
  | RbqlRuntimeError msg => msg
  | PyException msg => msg
  end.

(** ** Python's [sorted]

    [sorted] is a stable sort that only asks [<] of the elements; with
    [reverse=True] the list is reversed, sorted and reversed again, so that
    equal elements keep their order. *)

Fixpoint insert_sorted {A : Type} (lt : A -> A -> bool) (x : A) (l : list A) : list A :=
  match l with
  | [] => [x]
  | y :: l' => if lt y x then y :: insert_sorted lt x l' else x :: y :: l'
  end.

Definition stable_sort {A : Type} (lt : A -> A -> bool) (l : list A) : list A :=
  foldr (insert_sorted lt) [] l.

Definition py_sorted {A : Type} (lt : A -> A -> bool) (reverse : bool) (l : list A) : list A :=
  if reverse then rev (stable_sort lt (rev l)) else stable_sort lt l.

(** ** Tokens *)

Inductive TokenType := RAW | STRING_LITERAL | WHITESPACE | ALPHANUM_RAW | SYMBOL_RAW.

Global Instance TokenType_eq_dec : EqDecision TokenType.
Proof. solve_decision. Defined.

Record Token := mkToken { ttype : TokenType; content : pystr }.

Global Instance Token_eq_dec : EqDecision Token.
Proof. solve_decision. Defined.

Definition is_string_literal (t : Token) : bool := bool_decide (ttype t = STRING_LITERAL).

(** ** Lexer *)

Definition is_digit (c : ascii) : bool :=
  let v := nat_of_ascii c in (48 <=? v)%nat && (v <=? 57)%nat.

Definition is_boundary (c : ascii) : bool :=
  if Ascii.eqb c "_" then false
  else
    let v := nat_of_ascii c in
    if (97 <=? v)%nat && (v <=? 122)%nat then false
    else if (65 <=? v)%nat && (v <=? 90)%nat then false
    else if (48 <=? v)%nat && (v <=? 57)%nat then false
    else true.

(** One line of [tokenize_string_literals]: the [while i < len(cline)] loop
    advances [i] by one each turn, so it is a walk over the range. *)
Fixpoint tokenize_line_loop (cline : pystr) (idxs : list nat)
    (cur_quote_mark : option ascii) (k : nat) (result : list Token) : nat * list Token :=
  match idxs with
  | [] => (k, result)
  | i :: rest =>
      let c := getc cline i in
      match cur_quote_mark with
      | None =>
          if is_quote_char c
          then tokenize_line_loop cline rest (Some c) i (result ++ [mkToken RAW (slice cline k i)])
          else tokenize_line_loop cline rest None k result
      | Some q =>
          if Ascii.eqb c q && negb (is_escaped_quote cline i)
          then tokenize_line_loop cline rest None (i + 1)
                 (result ++ [mkToken STRING_LITERAL (slice cline k (i + 1))])
          else tokenize_line_loop cline rest (Some q) k result
      end
  end.

Definition tokenize_string_literals (lines : list pystr) : list Token :=
  fold_left
    (fun result cline =>
       let '(k, result) := tokenize_line_loop cline (seq 0 (length cline)) None 0 result in
       let i := length cline in
       let result := if (k <? i)%nat then result ++ [mkToken RAW (slice cline k i)] else result in
       result ++ [mkToken WHITESPACE [ch_space]])
    lines [].

(** The scan of one [RAW] token in [tokenize_terms]; the two [assert]s of the
    source hold on every path ([k < i] only after [in_alphanumeric] was set)
    and are not modelled. *)
Fixpoint tokenize_terms_loop (content : pystr) (idxs : list nat)
    (k : nat) (in_alphanumeric : bool) (result : list Token) : nat * list Token :=
  match idxs with
  | [] => (k, result)
  | i :: rest =>
      let c := getc content i in
      if Ascii.eqb c ch_space || is_boundary c then
        let result :=
          if (k <? i)%nat then result ++ [mkToken ALPHANUM_RAW (slice content k i)] else result in
        let result :=
          if Ascii.eqb c ch_space then result ++ [mkToken WHITESPACE [ch_space]]
          else result ++ [mkToken SYMBOL_RAW [c]] in
        tokenize_terms_loop content rest (i + 1) false result
      else if negb in_alphanumeric then tokenize_terms_loop content rest i true result
      else tokenize_terms_loop content rest k in_alphanumeric result
  end.

Definition tokenize_terms (tokens : list Token) : list Token :=
  fold_left
    (fun result token =>
       if negb (bool_decide (ttype token = RAW)) then result ++ [token]
       else
         let content := content token in
         let '(k, result) :=
           tokenize_terms_loop content (seq 0 (length content)) 0 false result in
         if (k <? length content)%nat
         then result ++ [mkToken ALPHANUM_RAW (slice content k (length content))]
         else result)
    tokens [].

Definition is_whitespace (t : Token) : bool := bool_decide (ttype t = WHITESPACE).

Definition remove_consecutive_whitespaces (tokens : list Token) : list Token :=
  let result :=
    fold_left
      (fun result i =>
         match tokens !! i with
         | None => result
         | Some t =>
             if negb (is_whitespace t) || (i =? 0)%nat
                || negb (match tokens !! (i - 1)%nat with
                         | Some p => is_whitespace p
                         | None => false
                         end)
             then result ++ [t] else result
         end)
      (seq 0 (length tokens)) [] in
  let result :=
    match result with
    | t :: rest => if is_whitespace t then rest else result
    | [] => result
    end in
  match last result with
  | Some t => if is_whitespace t then removelast result else result
  | None => result
  end.

(** The lexer pipeline of [parse_to_py], from the query lines to the tokens
    handed to [separate_actions].  The check that rejects a line holding a
    triple quote, which comes before it, is left out. *)
Definition lex_query (rbql_lines : list pystr) : list Token :=
  let rbql_lines := map strip_comments rbql_lines in
  let rbql_lines := filter (fun l => l <> []) rbql_lines in
  remove_consecutive_whitespaces (tokenize_terms (tokenize_string_literals rbql_lines)).

(** ** Column rewriter *)

Definition is_nonzero_digit (c : ascii) : bool :=
  let v := nat_of_ascii c in (49 <=? v)%nat && (v <=? 57)%nat.

Fixpoint take_digits (s : pystr) : pystr :=
  match s with
  | c :: s' => if is_digit c then c :: take_digits s' else []
  | [] => []
  end.

Fixpoint drop_digits (s : pystr) : pystr :=
  match s with
  | c :: s' => if is_digit c then drop_digits s' else s
  | [] => []
  end.

(** [column_var_regex.match(text)] and [bcolumn_var_regex.match(text)]: the
    letter, one digit from 1 to 9, then any run of digits, anchored at both
    ends; the result is group 1.  As in Python, the end anchor also matches
    just before a final newline. *)
Definition match_var (letter : ascii) (text : pystr) : option pystr :=
  match text with
  | c :: d :: rest =>
      if Ascii.eqb c letter && is_nonzero_digit d then
        let tail := drop_digits rest in
        if bool_decide (tail = []) || bool_decide (tail = [ch_lf])
        then Some (d :: take_digits rest) else None
      else None
  | _ => None
  end.

Definition column_var_regex : pystr -> option pystr := match_var "a".
Definition bcolumn_var_regex : pystr -> option pystr := match_var "b".

(** [int(digits)] for a run of decimal digits. *)
Definition int_of_digits (digits : pystr) : nat :=
  fold_left (fun acc c => (10 * acc + (nat_of_ascii c - 48))%nat) digits 0%nat.

Definition replace_rbql_var (text : pystr) : option pystr :=
  match column_var_regex text with
  | Some g =>
      let column_number := int_of_digits g in
      Some (py "fields[" ++ str_of_nat (column_number - 1) ++ py "]")
  | None =>
      match bcolumn_var_regex text with
      | Some g =>
          let column_number := int_of_digits g in
          Some (py "bfields[" ++ str_of_nat (column_number - 1) ++ py "]")
      | None => None
      end
  end.

(** [tokens[i].content = c]: the list is updated in place. *)
Definition set_content (tokens : list Token) (i : nat) (c : pystr) : list Token :=
  match tokens !! i with
  | Some t => <[i := mkToken (ttype t) c]> tokens
  | None => tokens
  end.

Definition replace_column_vars_step (tokens : list Token) (i : nat) : list Token :=
  match tokens !! i with
  | None => tokens
  | Some t =>
      if is_string_literal t then tokens
      else match replace_rbql_var (content t) with
           | Some replaced_py_var => set_content tokens i replaced_py_var
           | None => tokens
           end
  end.

Definition replace_column_vars (tokens : list Token) : list Token :=
  fold_left replace_column_vars_step (seq 0 (length tokens)) tokens.

(** What the column rewriter does to one token. *)
Definition rewrite_column_token (t : Token) : Token :=
  if is_string_literal t then t
  else match replace_rbql_var (content t) with
       | Some replaced_py_var => mkToken (ttype t) replaced_py_var
       | None => t
       end.

(** [tokens[j].content] for a Python index [j] the caller has checked. *)
Definition content_at (tokens : list Token) (j : Z) : pystr :=
  match tokens !! Z.to_nat j with
  | Some t => content t
  | None => []
  end.

(** The tests one turn of the loop of [replace_star_vars] makes on
    [tokens[i]] and its neighbours: [Ok false] for [continue], [Ok true] when
    control reaches the assignment.  [j] is a Python integer and goes to -1 at
    the left end; the two [assert]s raise [AssertionError]. *)
Definition star_test (tokens : list Token) (i : nat) : res bool :=
  match tokens !! i with
  | None => Ok false
  | Some t =>
      if is_string_literal t then Ok false
      else if negb (str_eqb (content t) (py "*")) then Ok false
      else
        let len := Z.of_nat (length tokens) in
        let j := (Z.of_nat i - 1)%Z in
        let j := if (0 <=? j)%Z && str_eqb (content_at tokens j) (py " ") then (j - 1)%Z else j in
        if (0 <=? j)%Z && str_eqb (content_at tokens j) (py " ") then Raise AssertionError
        else if (0 <=? j)%Z && negb (endswith (content_at tokens j) (py ",")) then Ok false
        else
          let j := (Z.of_nat i + 1)%Z in
          let j := if (j <? len)%Z && str_eqb (content_at tokens j) (py " ") then (j + 1)%Z else j in
          if (j <? len)%Z && str_eqb (content_at tokens j) (py " ") then Raise AssertionError
          else if (j <? len)%Z && negb (startswith (content_at tokens j) (py ",")) then Ok false
          else Ok true
  end.

Definition replace_star_vars_step (tokens : list Token) (i : nat) : res (list Token) :=
  let* rewrite_it := star_test tokens i in
  if rewrite_it then Ok (set_content tokens i (py "star_line")) else Ok tokens.

(** A token [t] and what the star rewriter may leave in its place. *)
Definition star_related (t t' : Token) : Prop :=
  t' = t
  \/ (ttype t <> STRING_LITERAL /\ content t = py "*"
      /\ t' = mkToken (ttype t) (py "star_line")).

Fixpoint replace_star_vars_loop (idxs : list nat) (tokens : list Token) : res (list Token) :=
  match idxs with
  | [] => Ok tokens
  | i :: rest =>
      let* tokens := replace_star_vars_step tokens i in
      replace_star_vars_loop rest tokens
  end.

Definition replace_star_vars (tokens : list Token) : res (list Token) :=
  replace_star_vars_loop (seq 0 (length tokens)) tokens.

Definition join_tokens (tokens : list Token) : pystr :=
  strip (concat (map content tokens)).

(** ** Clause splitter *)

(** [Pattern]: [text], [tokens] and [size] (here [ptokens] and [psize]). *)
Record Pattern := mkPattern { text : pystr; ptokens : list Token; psize : nat }.

Fixpoint pattern_tokens (fields : list pystr) : list Token :=
  match fields with
  | [] => []
  | [f] => [mkToken ALPHANUM_RAW f]
  | f :: rest => mkToken ALPHANUM_RAW f :: mkToken WHITESPACE [ch_space] :: pattern_tokens rest
  end.

Definition new_Pattern (text : pystr) : Pattern :=
  let tokens := pattern_tokens (split_char ch_space text) in
  mkPattern text tokens (length tokens).

Fixpoint consume_patterns (patterns : list Pattern) (tokens : list Token) (idx : nat)
    : option pystr * nat :=
  match patterns with
  | [] => (None, idx + 1)%nat
  | pattern :: rest =>
      if (length tokens <=? idx + psize pattern)%nat then consume_patterns rest tokens idx
      else
        let input_slice := slice tokens idx (idx + psize pattern) in
        if negb (bool_decide (map (fun t => upper (content t)) input_slice
                              = map content (ptokens pattern)))
        then consume_patterns rest tokens idx
        else if negb (bool_decide (map ttype input_slice = map ttype (ptokens pattern)))
        then consume_patterns rest tokens idx
        else (Some (text pattern), idx + psize pattern)%nat
  end.

(** [tokens[idx]] is in range at every call ([idx < len(tokens)]). *)
Definition consume_action (patterns : list Pattern) (tokens : list Token) (idx : nat)
    : option pystr * nat :=
  match tokens !! idx with
  | Some t =>
      if is_string_literal t then (None, idx + 1)%nat
      else consume_patterns patterns tokens idx
  | None => (None, idx + 1)%nat
  end.

Definition is_space_token (t : Token) : bool := str_eqb (content t) (py " ").

Fixpoint lstrip_tokens (tokens : list Token) : list Token :=
  match tokens with
  | t :: rest => if is_space_token t then lstrip_tokens rest else tokens
  | [] => []
  end.

Definition strip_tokens (tokens : list Token) : list Token :=
  rev (lstrip_tokens (rev (lstrip_tokens tokens))).

Definition clause_keywords : list pystr :=
  [py "STRICT LEFT JOIN"; py "LEFT JOIN"; py "INNER JOIN"; py "SELECT DISTINCT";
   py "SELECT"; py "ORDER BY"; py "WHERE"].

(** [sorted(patterns, key=len, reverse=True)], then [Pattern(p)] for each. *)
Definition clause_patterns : list Pattern :=
  map new_Pattern
    (py_sorted (fun a b : pystr => (length a <? length b)%nat) true clause_keywords).

Definition duplicate_msg (action : pystr) : pystr :=
  py "More than one " ++ [ch_dquote] ++ action ++ [ch_dquote] ++ py " statements found".

Definition store_prev (tokens : list Token) (prev_action : option pystr) (k i : nat)
    (result : gmap pystr (list Token)) : gmap pystr (list Token) :=
  match prev_action with
  | Some p => <[p := strip_tokens (slice tokens k i)]> result
  | None => result
  end.

(** The [while i < len(tokens)] loop of [separate_actions].  [fuel] bounds the
    number of turns; [None] stands for a loop that has not finished within
    it. *)
Fixpoint separate_actions_loop (fuel : nat) (patterns : list Pattern) (tokens : list Token)
    (result : gmap pystr (list Token)) (prev_action : option pystr) (k i : nat)
    : option (res (gmap pystr (list Token))) :=
  if (length tokens <=? i)%nat then Some (Ok (store_prev tokens prev_action k i result))
  else
    match fuel with
    | O => None
    | S fuel =>
        match consume_action patterns tokens i with
        | (None, i_next) => separate_actions_loop fuel patterns tokens result prev_action k i_next
        | (Some action, i_next) =>
            let result := store_prev tokens prev_action k i result in
            if bool_decide (is_Some (result !! action))
            then Some (Raise (RBParsingError (duplicate_msg action)))
            else separate_actions_loop fuel patterns tokens result (Some action) i_next i_next
        end
    end.

Definition separate_actions (tokens : list Token) : option (res (gmap pystr (list Token))) :=
  separate_actions_loop (length tokens) clause_patterns tokens ∅ None 0 0.

(** *** The clause keywords the scan recognizes *)

(** The keyword phrases the loop of [separate_actions] recognizes from
    position [i] on, each with the position it is recognized at, when the
    duplicate check is left out. *)
Fixpoint scan_actions (fuel : nat) (patterns : list Pattern) (tokens : list Token) (i : nat)
    : list (pystr * nat) :=
  if (length tokens <=? i)%nat then []
  else
    match fuel with
    | O => []
    | S fuel =>
        match consume_action patterns tokens i with
        | (None, i_next) => scan_actions fuel patterns tokens i_next
        | (Some action, i_next) => (action, i) :: scan_actions fuel patterns tokens i_next
        end
    end.

Definition recognized_actions (tokens : list Token) : list (pystr * nat) :=
  scan_actions (length tokens) clause_patterns tokens 0.

(** The first element of [l] that is in [seen] or occurs earlier in [l]. *)
Fixpoint first_dup (seen : gset pystr) (l : list pystr) : option pystr :=
  match l with
  | [] => None
  | a :: l' => if bool_decide (a ∈ seen) then Some a else first_dup ({[a]} ∪ seen) l'
  end.

(** The keywords already met by the loop: the keys of [result] and
    [prev_action]. *)
Definition seen_actions (result : gmap pystr (list Token)) (prev_action : option pystr)
    : gset pystr :=
  match prev_action with
  | Some p => {[p]} ∪ dom result
  | None => dom result
  end.

(** ** Join expression parser *)

Definition syntax_err_msg : pystr :=
  py "Incorrect join syntax. Must be: " ++ [ch_dquote]
  ++ py "<JOIN> /path/to/B/table on a<i> == b<j>" ++ [ch_dquote].

Definition parse_join_expression (tokens : list Token)
    : res (pystr * option pystr * option pystr) :=
  match split_char ch_space (join_tokens tokens) with
  | [t0; t1; t2; t3; t4] =>
      if negb (str_eqb (upper t1) (py "ON")) || negb (str_eqb t3 (py "=="))
      then Raise (RBParsingError syntax_err_msg)
      else
        let '(t2, t4) :=
          match column_var_regex t4 with
          | Some _ => (t4, t2)
          | None => (t2, t4)
          end in
        match column_var_regex t2, bcolumn_var_regex t4 with
        | Some _, Some _ => Ok (t0, replace_rbql_var t2, replace_rbql_var t4)
        | _, _ => Raise (RBParsingError syntax_err_msg)
        end
  | _ => Raise (RBParsingError syntax_err_msg)
  end.

(** The shape [parse_join_expression] accepts, and what it returns for it. *)
Definition join_shape (words : list pystr) (path : pystr) (a b : option pystr) : Prop :=
  exists on lhs eqeq rhs i j,
    words = [path; on; lhs; eqeq; rhs]
    /\ upper on = py "ON"
    /\ eqeq = py "=="
    /\ ((column_var_regex lhs = Some i /\ bcolumn_var_regex rhs = Some j)
        \/ (bcolumn_var_regex lhs = Some j /\ column_var_regex rhs = Some i))
    /\ a = Some (py "fields[" ++ str_of_nat (int_of_digits i - 1) ++ py "]")
    /\ b = Some (py "bfields[" ++ str_of_nat (int_of_digits j - 1) ++ py "]").

(** [parse_to_py], the ORDER BY part: the text of the key expression and
    [reverse_flag]. *)
Definition drop_suffix (s : pystr) (n : nat) : pystr := take (length s - n) s.

Definition parse_order_by (tokens : list Token) : bool * pystr :=
  let order_expression := join_tokens (replace_column_vars tokens) in
  let direction_marker := py " DESC" in
  let '(reverse_flag, order_expression) :=
    if endswith (upper order_expression) direction_marker
    then (true, rstrip (drop_suffix order_expression (length direction_marker)))
    else (false, order_expression) in
  let direction_marker := py " ASC" in
  let order_expression :=
    if endswith (upper order_expression) direction_marker
    then rstrip (drop_suffix order_expression (length direction_marker))
    else order_expression in
  (reverse_flag, order_expression).

(** [parse_to_py], the SELECT part: both rewriters, then the emptiness check. *)
Definition parse_select (tokens : list Token) : res pystr :=
  let select_tokens := replace_column_vars tokens in
  let* select_tokens := replace_star_vars select_tokens in
  if bool_decide (select_tokens = [])
  then Raise (RBParsingError ([ch_dquote] ++ py "SELECT" ++ [ch_dquote] ++ py " expression is empty"))
  else Ok (join_tokens select_tokens).

(** * The generated executor *)

(** ** Record iterator *)

(** The inner [while True] of [rows] over one chunk: the records yielded, and
    [incomplete_row] and [chunk] when [find] returns -1.  [None] stands for a
    loop that has not finished within [fuel] turns. *)
Fixpoint rows_chunk (fuel : nat) (sep chunk : pystr) (incomplete_row : option pystr)
    : option (list pystr * option pystr * pystr) :=
  match str_find sep chunk with
  | None => Some ([], incomplete_row, chunk)
  | Some i =>
      match fuel with
      | O => None
      | S fuel =>
          let yielded :=
            match incomplete_row with
            | Some r => r ++ slice chunk 0 i
            | None => slice chunk 0 i
            end in
          match rows_chunk fuel sep (drop (i + 1) chunk) None with
          | Some (ys, incomplete_row, chunk) => Some (yielded :: ys, incomplete_row, chunk)
          | None => None
          end
      end
  end.

(** The outer [while True]: [f] is what is left of the stream and
    [f.read(chunksize)] takes its first [chunksize] characters. *)
Fixpoint rows_loop (fuel : nat) (f : pystr) (chunksize : nat) (sep : pystr)
    (incomplete_row : option pystr) : option (list pystr) :=
  match fuel with
  | O => None
  | S fuel =>
      let chunk := take chunksize f in
      let f := drop chunksize f in
      match chunk with
      | [] =>
          match incomplete_row with
          | Some (c :: r) => Some [c :: r]
          | _ => Some []
          end
      | _ :: _ =>
          match rows_chunk (S (length chunk)) sep chunk incomplete_row with
          | None => None
          | Some (ys, incomplete_row, chunk) =>
              let incomplete_row :=
                match incomplete_row with
                | Some r => Some (r ++ chunk)
                | None => Some chunk
                end in
              match rows_loop fuel f chunksize sep incomplete_row with
              | Some zs => Some (ys ++ zs)
              | None => None
              end
          end
      end
  end.

(** All the records [rows(f, chunksize, sep)] yields, in order. *)
Definition rows (f : pystr) (chunksize : nat) (sep : pystr) : option (list pystr) :=
  rows_loop (S (length f)) f chunksize sep None.

(** *** The records of a stream, read off its content *)

(** What [incomplete_row] carries over: [None] and the empty string carry
    nothing. *)
Definition carry (incomplete_row : option pystr) : pystr := default [] incomplete_row.

(** The pieces between separators; the piece after the last separator counts
    only when it is not empty. *)
Definition records_of (sep : ascii) (content : pystr) : list pystr :=
  let pieces := split_char sep content in
  match last pieces with
  | Some [] => removelast pieces
  | _ => pieces
  end.

(** ** Values, [rbql_list] and the row context *)

Inductive pyval :=
| PNone
| PStr (s : pystr)
| PInt (z : Z)
| PBool (b : bool).

Definition str6 (obj : pyval) : pystr :=
  match obj with
  | PStr s => s
  | PNone => py "None"
  | PInt z => str_of_Z z
  | PBool true => py "True"
  | PBool false => py "False"
  end.

Definition truthy (v : pyval) : bool :=
  match v with
  | PNone => false
  | PStr s => negb (bool_decide (s = []))
  | PInt z => negb (z =? 0)%Z
  | PBool b => b
  end.

(** [list.__getitem__(idx)] for an integer: negative indices count from the
    end; [None] stands for [IndexError]. *)
Definition list_getitem {A : Type} (l : list A) (idx : Z) : option A :=
  let len := Z.of_nat (length l) in
  if (0 <=? idx)%Z then l !! Z.to_nat idx
  else if (- len <=? idx)%Z then l !! Z.to_nat (len + idx)
  else None.

(** [rbql_list.__getitem__]. *)
Definition rbql_getitem {A : Type} (l : list A) (idx : Z) : res A :=
  match list_getitem l idx with
  | Some v => Ok v
  | None => Raise (BadFieldError idx)
  end.

(** A list object of the executor: an [rbql_list] or a built-in [list]. *)
Inductive pylist :=
| rbql_list (items : list pyval)
| plain_list (items : list pyval).

Definition items (l : pylist) : list pyval :=
  match l with
  | rbql_list items => items
  | plain_list items => items
  end.

Definition index_error_msg : pystr := py "list index out of range".

(** [l[idx]]. *)
Definition getitem (l : pylist) (idx : Z) : res pyval :=
  match l with
  | rbql_list items => rbql_getitem items idx
  | plain_list items =>
      match list_getitem items idx with
      | Some v => Ok v
      | None => Raise (PyException index_error_msg)
      end
  end.

Record RowContext := mkRowContext {
  NR : nat;
  NF : nat;
  fields : pylist;
  bfields : option pylist;
  star_line : pystr;
  line : pystr
}.

(** [fields[idx]] and [bfields[idx]] as an expression of the query reads
    them; [bfields] is [None] when no join is configured. *)
Definition get_field (ctx : RowContext) (idx : Z) : res pyval := getitem (fields ctx) idx.

Definition get_bfield (ctx : RowContext) (idx : Z) : res pyval :=
  match bfields ctx with
  | Some l => getitem l idx
  | None => Raise (PyException (py "'NoneType' object is not subscriptable"))
  end.

(** ** [Flike] *)

Section Flike.

(** [re.escape] and [re.compile(rgx).match(text) is not None], from the
    host's [re] module. *)
Variable re_escape : pystr -> pystr.
Variable re_match : pystr -> pystr -> bool.

Definition is_like_wildcard (c : ascii) : bool := Ascii.eqb c "_" || Ascii.eqb c "%".

Fixpoint like_to_regex_loop (pattern : pystr) (idxs : list nat) (p : nat) (converted : pystr)
    : nat * pystr :=
  match idxs with
  | [] => (p, converted)
  | i :: rest =>
      if is_like_wildcard (getc pattern i) then
        let converted := converted ++ re_escape (slice pattern p i) in
        let converted :=
          if Ascii.eqb (getc pattern i) "_" then converted ++ py "." else converted ++ py ".*" in
        like_to_regex_loop pattern rest (i + 1) converted
      else like_to_regex_loop pattern rest p converted
  end.

Definition _like_to_regex (pattern : pystr) : pystr :=
  let '(p, converted) := like_to_regex_loop pattern (seq 0 (length pattern)) 0 [] in
  let converted := converted ++ re_escape (slice pattern p (length pattern)) in
  py "^" ++ converted ++ py "$".

(** [Flike.__call__]: [_cache] maps a pattern to its compiled regex, kept here
    as the regex source. *)
Definition Flike_call (_cache : gmap pystr pystr) (text pattern : pystr)
    : bool * gmap pystr pystr :=
  let _cache :=
    match _cache !! pattern with
    | Some _ => _cache
    | None => <[pattern := _like_to_regex pattern]> _cache
    end in
  match _cache !! pattern with
  | Some rgx => (re_match rgx text, _cache)
  | None => (false, _cache)
  end.

(** The cache of the module-level [flike] after a sequence of calls. *)
Definition flike_cache_after (calls : list (pystr * pystr)) : gmap pystr pystr :=
  fold_left (fun c '(text, pattern) => snd (Flike_call c text pattern)) calls ∅.

(** [flike(text, pattern)] after the calls [calls]. *)
Definition flike (calls : list (pystr * pystr)) (text pattern : pystr) : bool :=
  fst (Flike_call (flike_cache_after calls) text pattern).

(** *** The regex of a LIKE pattern, read off the pattern *)

Inductive like_item :=
| Segment (s : pystr)
| AnyOne
| AnyRun.

(** The pattern cut at every [_] and [%]: segments alternate with wildcards,
    starting and ending with a (possibly empty) segment. *)
Fixpoint like_items (pattern : pystr) : list like_item :=
  match pattern with
  | [] => [Segment []]
  | c :: rest =>
      if Ascii.eqb c "_" then Segment [] :: AnyOne :: like_items rest
      else if Ascii.eqb c "%" then Segment [] :: AnyRun :: like_items rest
      else match like_items rest with
           | Segment s :: more => Segment (c :: s) :: more
           | more => Segment [c] :: more
           end
  end.

Definition regex_of_item (it : like_item) : pystr :=
  match it with
  | Segment s => re_escape s
  | AnyOne => py "."
  | AnyRun => py ".*"
  end.

Definition like_regex (pattern : pystr) : pystr :=
  py "^" ++ concat (map regex_of_item (like_items pattern)) ++ py "$".

End Flike.

(** ** Writers *)

Inductive writer_type := SimpleWriter | UniqWriter.

(** [dst] is the text written so far. *)
Record writer := mkWriter { wtype : writer_type; dst : pystr; seen : gset pystr }.

Definition new_writer (wt : writer_type) (dst : pystr) : writer := mkWriter wt dst ∅.

Definition writer_write (w : writer) (record : pystr) : writer :=
  match wtype w with
  | SimpleWriter => mkWriter SimpleWriter (dst w ++ record ++ [ch_lf]) (seen w)
  | UniqWriter =>
      if bool_decide (record ∈ seen w) then w
      else mkWriter UniqWriter (dst w ++ record ++ [ch_lf]) ({[record]} ∪ seen w)
  end.

(** ** Join loader and joiners *)

Definition strip_eol (line : pystr) : pystr := rstrip_by (in_chars [ch_cr; ch_lf]) line.

Definition bad_b_column_msg (bad_idx : Z) (il : nat) : pystr :=
  py "No " ++ [ch_dquote] ++ py "b" ++ str_of_Z (bad_idx + 1) ++ [ch_dquote]
  ++ py " column at line: " ++ str_of_nat il ++ py " in " ++ [ch_dquote] ++ py "B"
  ++ [ch_dquote] ++ py " table".

Definition join_unique_msg : pystr :=
  py "Join column must be unique in right-hand-side " ++ [ch_dquote] ++ py "B"
  ++ [ch_dquote] ++ py " table".

(** The [for] loop of [read_join_table] over the records of the B file;
    [rhs_join_var] is the index [j] of the key expression [bfields[j]]. *)
Fixpoint read_join_table_loop (DLM : ascii) (rhs_join_var : Z) (lines : list pystr) (il : nat)
    (result : gmap pystr (list pystr)) (fields_max_len : nat)
    : res (gmap pystr (list pystr) * nat) :=
  match lines with
  | [] => Ok (result, fields_max_len)
  | line :: rest =>
      let line := strip_eol line in
      let bfields := split_char DLM line in
      let fields_max_len := Nat.max fields_max_len (length bfields) in
      match rbql_getitem bfields rhs_join_var with
      | Raise (BadFieldError bad_idx) => Raise (RbqlRuntimeError (bad_b_column_msg bad_idx il))
      | Raise e => Raise e
      | Ok key =>
          if bool_decide (is_Some (result !! key))
          then Raise (RbqlRuntimeError join_unique_msg)
          else read_join_table_loop DLM rhs_join_var rest (S il)
                 (<[key := bfields]> result) fields_max_len
      end
  end.

(** [fs path] is the content of the file at [path], if it is a file. *)
Definition read_join_table (fs : pystr -> option pystr) (DLM : ascii) (rhs_join_var : Z)
    (join_table_path : pystr) : option (res (gmap pystr (list pystr) * nat)) :=
  match fs join_table_path with
  | None =>
      Some (Raise (RbqlRuntimeError
                     (py "Table B: " ++ join_table_path ++ py " is not accessible")))
  | Some src_text =>
      match rows src_text 1024 [ch_lf] with
      | Some lines => Some (read_join_table_loop DLM rhs_join_var lines 1 ∅ 0)
      | None => None
      end
  end.

Inductive joiner_type := none_joiner | InnerJoiner | LeftJoiner | StrictLeftJoiner.

Record joiner := mkJoiner {
  jtype : joiner_type;
  join_data : gmap pystr (list pystr);
  fields_max_len : nat
}.

(** [joiner = joiner_type(rhs_table_path)]; [none_joiner] returns [None]. *)
Definition new_joiner (fs : pystr -> option pystr) (DLM : ascii) (rhs_join_var : Z)
    (jt : joiner_type) (join_table_path : pystr) : option (res (option joiner)) :=
  match jt with
  | none_joiner => Some (Ok None)
  | _ =>
      match read_join_table fs DLM rhs_join_var join_table_path with
      | Some (Ok (join_data, fields_max_len)) => Some (Ok (Some (mkJoiner jt join_data fields_max_len)))
      | Some (Raise e) => Some (Raise e)
      | None => None
      end
  end.

Definition strict_left_msg (lhs_key : pystr) : pystr :=
  py "In " ++ [ch_dquote] ++ py "STRICT LEFT JOIN" ++ [ch_dquote]
  ++ py " mode all A table keys must be present in table B. Key " ++ [ch_dquote]
  ++ lhs_key ++ [ch_dquote] ++ py " was not found".

(** The rows stored in [join_data] are [rbql_list]s of strings. *)
Definition stored_row (bfields : list pystr) : pylist := rbql_list (map PStr bfields).

(** [joiner.get(lhs_key)]; the inner [option] is Python's [None]. *)
Definition joiner_get (j : joiner) (lhs_key : pystr) : res (option pylist) :=
  match jtype j with
  | none_joiner => Ok None
  | InnerJoiner => Ok (stored_row <$> join_data j !! lhs_key)
  | LeftJoiner =>
      Ok (Some (match join_data j !! lhs_key with
                | Some bfields => stored_row bfields
                | None => plain_list (replicate (fields_max_len j) PNone)
                end))
  | StrictLeftJoiner =>
      match join_data j !! lhs_key with
      | Some bfields => Ok (Some (stored_row bfields))
      | None => Raise (RbqlRuntimeError (strict_left_msg lhs_key))
      end
  end.

(** ** Executor *)

(** The ordering the host gives to sort-key values: [==] and [<]. *)
Class PyOrd (K : Type) := { py_eq : K -> K -> bool; py_lt : K -> K -> bool }.

Fixpoint str_ltb (a b : pystr) : bool :=
  match a, b with
  | _, [] => false
  | [], _ :: _ => true
  | x :: a', y :: b' =>
      if (nat_of_ascii x <? nat_of_ascii y)%nat then true
      else if Ascii.eqb x y then str_ltb a' b'
      else false
  end.

Global Instance PyOrd_Z : PyOrd Z := {| py_eq := Z.eqb; py_lt := Z.ltb |}.
Global Instance PyOrd_str : PyOrd pystr := {| py_eq := str_eqb; py_lt := str_ltb |}.

(** [<] on the tuples [(sort_key_value, record)]: the first components that
    differ decide. *)
Definition entry_lt {K : Type} `{PyOrd K} (a b : K * pystr) : bool :=
  if py_eq (fst a) (fst b) then str_ltb (snd a) (snd b) else py_lt (fst a) (fst b).

(** The parameters [py_script_body] is formatted with; the expressions are
    given as the host evaluates them on a row context, the two join variables
    as the index [i] of [fields[i]] and [j] of [bfields[j]]. *)
Record py_meta_params (K : Type) := mkParams {
  dlm : ascii;
  writer_name : writer_type;
  joiner_name : joiner_type;
  rhs_table_path : pystr;
  lhs_join_var : Z;
  rhs_join_var : Z;
  where_expression : RowContext -> res pyval;
  select_expression : RowContext -> res (list pyval);
  sort_flag : bool;
  reverse_flag : bool;
  sort_key_expression : RowContext -> res K
}.
Arguments mkParams {K}.
Arguments dlm {K}.
Arguments writer_name {K}.
Arguments joiner_name {K}.
Arguments rhs_table_path {K}.
Arguments lhs_join_var {K}.
Arguments rhs_join_var {K}.
Arguments where_expression {K}.
Arguments select_expression {K}.
Arguments sort_flag {K}.
Arguments reverse_flag {K}.
Arguments sort_key_expression {K}.

Definition bad_a_column_msg (bad_idx : Z) (NR : nat) : pystr :=
  py "No " ++ [ch_dquote] ++ py "a" ++ str_of_Z (bad_idx + 1) ++ [ch_dquote]
  ++ py " column at line: " ++ str_of_nat NR.

Definition error_at_line_msg (NR : nat) (e : exn) : pystr :=
  py "Error at line: " ++ str_of_nat NR ++ py ", Details: " ++ str_of_exn e.

(** The two [except] clauses of [rb_transform]. *)
Definition handle_record_error (NR : nat) (e : exn) : exn :=
  match e with
  | BadFieldError bad_idx => RbqlRuntimeError (bad_a_column_msg bad_idx NR)
  | _ => RbqlRuntimeError (error_at_line_msg NR e)
  end.

(** How the [try] block of one record ends when nothing is raised. *)
Inductive record_action (K : Type) :=
| ContinueJoin
| ContinueWhere
| AppendEntry (sort_key_value : K) (record : pystr)
| WriteRecord (record : pystr).
Arguments ContinueJoin {K}.
Arguments ContinueWhere {K}.
Arguments AppendEntry {K}.
Arguments WriteRecord {K}.

(** The join step: [None] when [bfields is None] ([continue]), else
    [bfields] and [star_line]. *)
Definition join_step {K : Type} (P : py_meta_params K) (joiner : option joiner)
    (line : pystr) (fields : list pystr) : res (option (option pylist * pystr)) :=
  match joiner with
  | Some j =>
      let* lhs_key := rbql_getitem fields (lhs_join_var P) in
      let* bfields := joiner_get j lhs_key in
      match bfields with
      | None => Ok None
      | Some b => Ok (Some (Some b, join_str [dlm P] (line :: map str6 (items b))))
      end
  | None => Ok (Some (None, line))
  end.

(** From the WHERE test to the end of the [try] block. *)
Definition where_select_step {K : Type} (P : py_meta_params K) (ctx : RowContext)
    : res (record_action K) :=
  let* w := where_expression P ctx in
  if negb (truthy w) then Ok ContinueWhere
  else
    let* out_fields := select_expression P ctx in
    let record := join_str [dlm P] (map str6 out_fields) in
    if sort_flag P then
      let* sort_key_value := sort_key_expression P ctx in
      Ok (AppendEntry sort_key_value record)
    else Ok (WriteRecord record).

(** The [try] block for the record [line] numbered [NR]; the boolean tells
    whether control reached the WHERE test. *)
Definition try_record {K : Type} (P : py_meta_params K) (joiner : option joiner)
    (NR : nat) (line : pystr) : bool * res (record_action K) :=
  let line := strip_eol line in
  let fields := split_char (dlm P) line in
  let NF := length fields in
  match join_step P joiner line fields with
  | Raise e => (false, Raise e)
  | Ok None => (false, Ok ContinueJoin)
  | Ok (Some (bfields, star_line)) =>
      (true, where_select_step P
               (mkRowContext NR NF (rbql_list (map PStr fields)) bfields star_line line))
  end.

(** The state of a run; [where_count] counts the records whose WHERE test was
    evaluated. *)
Record exec_state (K : Type) := mkState {
  unsorted_entries : list (K * pystr);
  out : writer;
  where_count : nat
}.
Arguments mkState {K}.
Arguments unsorted_entries {K}.
Arguments out {K}.
Arguments where_count {K}.

Definition process_record {K : Type} (P : py_meta_params K) (joiner : option joiner)
    (st : exec_state K) (NR : nat) (line : pystr) : exec_state K * res unit :=
  let '(reached, r) := try_record P joiner NR line in
  let st := mkState (unsorted_entries st) (out st)
              (if reached then S (where_count st) else where_count st) in
  match r with
  | Raise e => (st, Raise (handle_record_error NR e))
  | Ok ContinueJoin => (st, Ok tt)
  | Ok ContinueWhere => (st, Ok tt)
  | Ok (AppendEntry k record) =>
      (mkState (unsorted_entries st ++ [(k, record)]) (out st) (where_count st), Ok tt)
  | Ok (WriteRecord record) =>
      (mkState (unsorted_entries st) (writer_write (out st) record) (where_count st), Ok tt)
  end.

(** The [for NR, line in enumerate(rows(source), 1)] loop. *)
Fixpoint rb_transform_loop {K : Type} (P : py_meta_params K) (joiner : option joiner)
    (records : list pystr) (NR : nat) (st : exec_state K) : exec_state K * res unit :=
  match records with
  | [] => (st, Ok tt)
  | line :: rest =>
      match process_record P joiner st NR line with
      | (st, Ok _) => rb_transform_loop P joiner rest (S NR) st
      | (st, Raise e) => (st, Raise e)
      end
  end.

(** The records written after the loop, in the order they are written. *)
Definition sorted_records {K : Type} `{PyOrd K} (reverse : bool)
    (entries : list (K * pystr)) : list pystr :=
  map snd (py_sorted entry_lt reverse entries).

Definition write_sorted {K : Type} `{PyOrd K} (P : py_meta_params K) (st : exec_state K)
    : exec_state K :=
  match unsorted_entries st with
  | [] => st
  | _ :: _ =>
      mkState (unsorted_entries st)
        (fold_left writer_write (sorted_records (reverse_flag P) (unsorted_entries st)) (out st))
        (where_count st)
  end.

(** [rb_transform] once the records of [source] are known. *)
Definition rb_transform_records {K : Type} `{PyOrd K} (P : py_meta_params K)
    (joiner : option joiner) (records : list pystr) (destination : pystr)
    : exec_state K * res unit :=
  match rb_transform_loop P joiner records 1 (mkState [] (new_writer (writer_name P) destination) 0) with
  | (st, Ok _) => (write_sorted P st, Ok tt)
  | (st, Raise e) => (st, Raise e)
  end.

(** [rb_transform(source, destination)]: the final state and the exception
    raised, if any; [None] when a loop of [rows] does not finish. *)
Definition rb_transform {K : Type} `{PyOrd K} (P : py_meta_params K)
    (fs : pystr -> option pystr) (source destination : pystr)
    : option (exec_state K * res unit) :=
  match new_joiner fs (dlm P) (rhs_join_var P) (joiner_name P) (rhs_table_path P) with
  | None => None
  | Some (Raise e) => Some (mkState [] (new_writer (writer_name P) destination) 0, Raise e)
  | Some (Ok joiner) =>
      match rows source 1024 [ch_lf] with
      | None => None
      | Some records => Some (rb_transform_records P joiner records destination)
      end
  end.

(** The laws of a host ordering that is a strict total order whose [==] is
    equality, as it is on integers, on strings and on tuples of those. *)
Class PyOrdLaws (K : Type) `{PyOrd K} : Prop := {
  py_eq_spec : forall a b : K, py_eq a b = true <-> a = b;
  py_lt_irrefl : forall a : K, py_lt a a = false;
  py_lt_trans : forall a b c : K, py_lt a b = true -> py_lt b c = true -> py_lt a c = true;
  py_lt_total : forall a b : K, a <> b -> py_lt a b = true \/ py_lt b a = true
}.

(** [a] does not come after [b]. *)
Definition not_after {A : Type} (lt : A -> A -> bool) (a b : A) : Prop := lt b a = false.

(** The LEFT JOIN joiner loaded from [fs_table_B] (see the example queries). *)
Definition joiner_table_B : joiner :=
  mkJoiner LeftJoiner (<[py "x" := [py "x"; py "y"]]> ∅) 2.

(** ** Notions the properties are stated with *)

(** The tokens from [idx] on spell the phrase of [pattern]: the contents,
    upper-cased, and the types of the next [psize pattern] tokens are those of
    the pattern's tokens. *)
Definition phrase_at (pattern : Pattern) (tokens : list Token) (idx : nat) : bool :=
  let input_slice := slice tokens idx (idx + psize pattern) in
  bool_decide (map (fun t => upper (content t)) input_slice = map content (ptokens pattern))
  && bool_decide (map ttype input_slice = map ttype (ptokens pattern)).

(** The test [consume_action] makes for one pattern. *)
Definition pattern_matches (tokens : list Token) (idx : nat) (pattern : Pattern) : bool :=
  negb (length tokens <=? idx + psize pattern)%nat && phrase_at pattern tokens idx.

(** No two neighbouring tokens are both a single space, as in every token
    list that went through [remove_consecutive_whitespaces]. *)
Definition no_adjacent_spaces (tokens : list Token) : Prop :=
  forall j t1 t2,
    tokens !! j = Some t1 -> tokens !! S j = Some t2 ->
    ~ (content t1 = py " " /\ content t2 = py " ").

(** The largest number of fields of a B record. *)
Definition max_field_count (DLM : ascii) (lines : list pystr) : nat :=
  foldr Nat.max 0%nat (map (fun l => length (split_char DLM (strip_eol l))) lines).

(** The buffered records in the order a stable sort by the sort key alone
    would give: equal keys in insertion order, the whole reversed for DESC. *)
Definition stable_by_key_records {K : Type} `{PyOrd K} (reverse : bool)
    (entries : list (K * pystr)) : list pystr :=
  let sorted := stable_sort (fun a b => py_lt (fst a) (fst b)) entries in
  map snd (if reverse then rev sorted else sorted).

(** ** Example queries *)

(** [select a1 order by 1]: every record has the sort key 1. *)
Definition plan_order_by_constant : py_meta_params Z :=
  mkParams ch_tab SimpleWriter none_joiner [] 0 0
    (fun _ => Ok (PBool true))
    (fun ctx => let* v := get_field ctx 0 in Ok [v])
    true false
    (fun _ => Ok 1%Z).

(** [select b3 left join B on a1 == b1]. *)
Definition plan_left_join_b3 : py_meta_params Z :=
  mkParams ch_tab SimpleWriter LeftJoiner (py "B") 0 0
    (fun _ => Ok (PBool true))
    (fun ctx => let* v := get_bfield ctx 2 in Ok [v])
    false false
    (fun _ => Ok 0%Z).

(** A file system with the one file [B], holding the record [x<TAB>y]. *)
Definition fs_table_B (path : pystr) : option pystr :=
  if str_eqb path (py "B") then Some (py "x" ++ [ch_tab] ++ py "y" ++ [ch_lf]) else None.

(** * Further code of the module *)

(** ** Test helpers *)

(** [table_to_string(array2d, delim)]. *)
Definition table_to_string (array2d : list (list pystr)) (delim : pystr) : pystr :=
  let result := join_str [ch_lf] (map (join_str delim) array2d) in
  match array2d with
  | [] => result
  | _ :: _ => result ++ [ch_lf]
  end.

(** ** Notions for the further properties *)

(** The text a writer appends for a sequence of records. *)
Definition lines_text (records : list pystr) : pystr :=
  concat (map (fun r => r ++ [ch_lf]) records).

(** The records of [l] that are not in [seen] and did not occur earlier in
    [l], in the order of [l]. *)
Fixpoint first_occurrences (seen : gset pystr) (l : list pystr) : list pystr :=
  match l with
  | [] => []
  | r :: l' =>
      if bool_decide (r ∈ seen) then first_occurrences seen l'
      else r :: first_occurrences ({[r]} ∪ seen) l'
  end.

(** What the string-literal pass makes: [RAW] text, string literals that
    begin and end with the same quote character, and single spaces. *)
Definition literal_pass_token (t : Token) : Prop :=
  match ttype t with
  | RAW => True
  | STRING_LITERAL =>
      exists q body, is_quote_char q = true /\ content t = q :: body ++ [q]
  | WHITESPACE => content t = [ch_space]
  | _ => False
  end.

(** What is left after the term pass: words without boundary characters,
    single boundary characters other than the space, and the string literals
    and spaces of the first pass. *)
Definition term_token (t : Token) : Prop :=
  match ttype t with
  | RAW => False
  | ALPHANUM_RAW => content t <> [] /\ Forall (fun c => is_boundary c = false) (content t)
  | SYMBOL_RAW => exists c, content t = [c] /\ is_boundary c = true /\ c <> ch_space
  | _ => literal_pass_token t
  end.

(** The body of the loop of [tokenize_string_literals] over the lines. *)
Definition tokenize_line (result : list Token) (cline : pystr) : list Token :=
  let '(k, result) := tokenize_line_loop cline (seq 0 (length cline)) None 0 result in
  let i := length cline in
  let result := if (k <? i)%nat then result ++ [mkToken RAW (slice cline k i)] else result in
  result ++ [mkToken WHITESPACE [ch_space]].

(** The body of the loop of [tokenize_terms] over the tokens. *)
Definition tokenize_term (result : list Token) (token : Token) : list Token :=
  if negb (bool_decide (ttype token = RAW)) then result ++ [token]
  else
    let content := content token in
    let '(k, result) :=
      tokenize_terms_loop content (seq 0 (length content)) 0 false result in
    if (k <? length content)%nat
    then result ++ [mkToken ALPHANUM_RAW (slice content k (length content))]
    else result.

(** The body of the loop of [remove_consecutive_whitespaces]. *)
Definition keep_unrepeated (tokens result : list Token) (i : nat) : list Token :=
  match tokens !! i with
  | None => result
  | Some t =>
      if negb (is_whitespace t) || (i =? 0)%nat
         || negb (match tokens !! (i - 1)%nat with
                  | Some p => is_whitespace p
                  | None => false
                  end)
      then result ++ [t] else result
  end.

(** Whether the last token of [pre] is a whitespace token. *)
Definition prev_ws_of (pre : list Token) : bool :=
  match last pre with
  | Some p => is_whitespace p
  | None => false
  end.

(** The tokens left when every whitespace token that follows a whitespace
    token is dropped; [prev_ws] tells whether the token before is one. *)
Fixpoint collapse_ws (prev_ws : bool) (tokens : list Token) : list Token :=
  match tokens with
  | [] => []
  | t :: rest =>
      if is_whitespace t && prev_ws then collapse_ws true rest
      else t :: collapse_ws (is_whitespace t) rest
  end.

(** No two neighbours are both whitespace tokens. *)
Definition ws_separated (l : list Token) : Prop :=
  forall j t1 t2,
    l !! j = Some t1 -> l !! S j = Some t2 ->
    ~ (is_whitespace t1 = true /\ is_whitespace t2 = true).

(** The fields of a B record and its join key, as [read_join_table] computes
    them; [rhs_join_var] is the index [j] of [bfields[j]]. *)
Definition b_fields (DLM : ascii) (ln : pystr) : list pystr :=
  split_char DLM (strip_eol ln).

Definition b_key (DLM : ascii) (rhs_join_var : Z) (ln : pystr) : res pystr :=
  rbql_getitem (b_fields DLM ln) rhs_join_var.

(** The fields of an A record and its join key, as [rb_transform] computes
    them. *)
Definition a_fields {K : Type} (P : py_meta_params K) (ln : pystr) : list pystr :=
  split_char (dlm P) (strip_eol ln).

Definition a_key {K : Type} (P : py_meta_params K) (ln : pystr) : res pystr :=
  rbql_getitem (a_fields P ln) (lhs_join_var P).

(** The A record has a join key and the B index holds it. *)
Definition a_matched {K : Type} (P : py_meta_params K) (join_data : gmap pystr (list pystr))
    (ln : pystr) : bool :=
  match a_key P ln with
  | Ok key => bool_decide (is_Some (join_data !! key))
  | Raise _ => false
  end.

(** ** What one record contributes to a run *)

(** The record the [try] block of [rb_transform] writes for the A record
    [line] numbered [NR], the entry it appends to [unsorted_entries], and the
    exception it raises. *)
Definition record_written {K : Type} (P : py_meta_params K) (joiner : option joiner)
    (NR : nat) (line : pystr) : option pystr :=
  match snd (try_record P joiner NR line) with
  | Ok (WriteRecord record) => Some record
  | _ => None
  end.

Definition record_entry {K : Type} (P : py_meta_params K) (joiner : option joiner)
    (NR : nat) (line : pystr) : option (K * pystr) :=
  match snd (try_record P joiner NR line) with
  | Ok (AppendEntry sort_key_value record) => Some (sort_key_value, record)
  | _ => None
  end.

Definition record_fails {K : Type} (P : py_meta_params K) (joiner : option joiner)
    (NR : nat) (line : pystr) : option exn :=
  match snd (try_record P joiner NR line) with
  | Raise e => Some e
  | Ok _ => None
  end.

(** The same for the records [records], numbered from [NR] on. *)
Fixpoint written_from {K : Type} (P : py_meta_params K) (joiner : option joiner)
    (NR : nat) (records : list pystr) : list pystr :=
  match records with
  | [] => []
  | line :: rest =>
      option_list (record_written P joiner NR line) ++ written_from P joiner (S NR) rest
  end.

Fixpoint entries_from {K : Type} (P : py_meta_params K) (joiner : option joiner)
    (NR : nat) (records : list pystr) : list (K * pystr) :=
  match records with
  | [] => []
  | line :: rest =>
      option_list (record_entry P joiner NR line) ++ entries_from P joiner (S NR) rest
  end.

(** None of the records [records], numbered from [NR] on, raises. *)
Definition none_fails {K : Type} (P : py_meta_params K) (joiner : option joiner)
    (NR : nat) (records : list pystr) : Prop :=
  forall i line, records !! i = Some line -> record_fails P joiner (NR + i) line = None.

(** What a fresh writer of type [wt] appends for the records [records]. *)
Definition written_text (wt : writer_type) (records : list pystr) : pystr :=
  lines_text (match wt with
              | SimpleWriter => records
              | UniqWriter => first_occurrences ∅ records
              end).

(** [select a1, b2 <join> B on a1 == b1], for the join keyword of [jt]. *)
Definition plan_join_a1_b2 (jt : joiner_type) : py_meta_params Z :=
  mkParams ch_tab SimpleWriter jt (py "B") 0 0
    (fun _ => Ok (PBool true))
    (fun ctx => let* v := get_field ctx 0 in let* w := get_bfield ctx 1 in Ok [v; w])
    false false
    (fun _ => Ok 0%Z).

(** [select a2]. *)
Definition plan_select_a2 : py_meta_params Z :=
  mkParams ch_tab SimpleWriter none_joiner [] 0 0
    (fun _ => Ok (PBool true))
    (fun ctx => let* v := get_field ctx 1 in Ok [v])
    false false
    (fun _ => Ok 0%Z).

(** ** Where a clause body ends *)

(** The position of the [n]-th recognized keyword of [acts], or the end of
    the tokens when there is none: the body of the keyword before it ends
    there. *)
Definition body_end (tokens : list Token) (acts : list (pystr * nat)) (n : nat) : nat :=
  match acts !! n with
  | Some (_, pos) => pos
  | None => length tokens
  end.

(** [select *], and [select distinct *] with a [UniqWriter]: the WHERE
    expression is [True] and the only output field is [star_line]. *)
Definition plan_select_star (wt : writer_type) (DLM : ascii) : py_meta_params Z :=
  mkParams DLM wt none_joiner [] 0 0
    (fun _ => Ok (PBool true))
    (fun ctx => Ok [PStr (star_line ctx)])
    false false
    (fun _ => Ok 0%Z).

(** [select a2 order by a1 desc]: the sort key is the first field, a
    string. *)
Definition plan_order_by_a1_desc : py_meta_params pystr :=
  mkParams ch_tab SimpleWriter none_joiner [] 0 0
    (fun _ => Ok (PBool true))
    (fun ctx => let* v := get_field ctx 1 in Ok [v])
    true true
    (fun ctx => let* v := get_field ctx 0 in Ok (str6 v)).

(* ================================================================== *)
(** * Part II. Properties *)
(* ================================================================== *)

(** ** Comment stripping *)

(** The four [TestStringMethods] cases of the source. *)
Example test_strip :
  strip_comments (py "v = " ++ [ch_dquote] ++ py "hello" ++ [ch_dquote] ++ py " #world  ")
  = py "v = " ++ [ch_dquote] ++ py "hello" ++ [ch_dquote].
Proof. vm_compute. reflexivity. Qed.

Example test_strip2 :
  strip_comments (py "v = " ++ [ch_dquote] ++ py "hel\" ++ [ch_dquote] ++ py "lo"
                  ++ [ch_dquote] ++ py " #w'or" ++ [ch_dquote] ++ py "ld  ")
  = py "v = " ++ [ch_dquote] ++ py "hel\" ++ [ch_dquote] ++ py "lo" ++ [ch_dquote].
Proof. vm_compute. reflexivity. Qed.

Example test_strip3 :
  strip_comments (py "v = " ++ [ch_dquote] ++ py "hello\\" ++ [ch_dquote]
                  ++ py " #w'or" ++ [ch_dquote] ++ py "ld  ")
  = py "v = " ++ [ch_dquote] ++ py "hello\\" ++ [ch_dquote].
Proof. vm_compute. reflexivity. Qed.

Example test_strip4 : strip_comments (py " # a comment") = [].
Proof. vm_compute. reflexivity. Qed.

Lemma is_escaped_quote_escaped_at (cline : pystr) (i : nat) :
  is_escaped_quote cline i = escaped_at cline i.
Proof.
  unfold is_escaped_quote, escaped_at.
  destruct i as [|[|i]]; simpl; try reflexivity.
  - destruct (Ascii.eqb (getc cline 0) ch_backslash); reflexivity.
  - destruct (Ascii.eqb (getc cline (S i)) ch_backslash); simpl; [|reflexivity].
    destruct (Ascii.eqb (getc cline (i - 0)) ch_backslash); reflexivity.
Qed.

Lemma strip_comments_loop_spec (cline : pystr) (n i : nat) :
  strip_comments_loop cline (seq i n) (quote_before cline i)
  = match List.find (comment_start cline) (seq i n) with
    | Some k => rstrip (take k cline)
    | None => cline
    end.
Proof.
  revert i. induction n as [|n IH]; intros i; [reflexivity|].
  cbn [seq strip_comments_loop List.find].
  unfold comment_start at 1.
  specialize (IH (S i)). cbn [quote_before] in IH.
  destruct (quote_before cline i) as [q|] eqn:Hq.
  - rewrite is_escaped_quote_escaped_at.
    destruct (Ascii.eqb (getc cline i) q && negb (escaped_at cline i)); exact IH.
  - destruct (Ascii.eqb (getc cline i) ch_hash) eqn:Hh.
    + unfold slice. rewrite Nat.sub_0_r. reflexivity.
    + destruct (is_quote_char (getc cline i)); exact IH.
Qed.

(** C6. [strip_comments] first right-strips the line and turns tabs into
    spaces; it then cuts the line at the first [#] that is outside a string
    literal (right-stripping what is kept) and returns the prepared line as it
    is when there is no such [#].  Inside a literal a quote closes it unless
    it is escaped, and the escape test of the code is exactly: preceded by a
    backslash that is not itself preceded by a backslash. *)
Theorem strip_comments_first_unquoted_hash (line : pystr) :
  let cline := replace_char ch_tab ch_space (rstrip line) in
  (forall i, is_escaped_quote cline i = escaped_at cline i) /\
  strip_comments line
  = match first_comment_start cline with
    | Some k => rstrip (take k cline)
    | None => cline
    end.
Proof.
  intros cline. split.
  - intros i. apply is_escaped_quote_escaped_at.
  - unfold strip_comments, first_comment_start. fold cline.
    apply (strip_comments_loop_spec cline (length cline) 0).
Qed.

(** ** Record iterator *)

Section Rows.

Variable c : ascii.

Lemma split_char_nonempty (s : pystr) : split_char c s <> [].
Proof.
  destruct s as [|x s]; simpl; [discriminate|].
  destruct (Ascii.eqb x c); [discriminate|].
  destruct (split_char c s); discriminate.
Qed.

Lemma split_char_cons_sep (s : pystr) : split_char c (c :: s) = [] :: split_char c s.
Proof. simpl. rewrite Ascii.eqb_refl. reflexivity. Qed.

Lemma split_char_app_sep (pre post : pystr) :
  c ∉ pre -> split_char c (pre ++ c :: post) = pre :: split_char c post.
Proof.
  induction pre as [|x pre IH]; intros Hpre.
  - apply split_char_cons_sep.
  - apply not_elem_of_cons in Hpre as [Hx Hpre].
    cbn [app split_char].
    destruct (Ascii.eqb x c) eqn:E.
    + apply Ascii.eqb_eq in E. congruence.
    + rewrite (IH Hpre). reflexivity.
Qed.

Lemma split_char_no_sep (s : pystr) : c ∉ s -> split_char c s = [s].
Proof.
  induction s as [|x s IH]; intros Hs; [reflexivity|].
  apply not_elem_of_cons in Hs as [Hx Hs].
  cbn [split_char].
  destruct (Ascii.eqb x c) eqn:E.
  - apply Ascii.eqb_eq in E. congruence.
  - rewrite (IH Hs). reflexivity.
Qed.

Lemma split_char_pieces (s : pystr) : Forall (fun p => c ∉ p) (split_char c s).
Proof.
  induction s as [|x s IH]; simpl.
  - repeat constructor. apply not_elem_of_nil.
  - destruct (Ascii.eqb x c) eqn:E.
    + constructor; [apply not_elem_of_nil | exact IH].
    + destruct (split_char c s) as [|w ws]; [repeat constructor|].
      * apply not_elem_of_cons. split; [|apply not_elem_of_nil].
        intros ->. rewrite Ascii.eqb_refl in E. discriminate.
      * inversion IH; subst. constructor; [|assumption].
        apply not_elem_of_cons. split; [|assumption].
        intros ->. rewrite Ascii.eqb_refl in E. discriminate.
Qed.

Lemma join_split_char (s : pystr) : join_str [c] (split_char c s) = s.
Proof.
  induction s as [|x s IH]; [reflexivity|].
  cbn [split_char].
  pose proof (split_char_nonempty s) as Hne.
  destruct (Ascii.eqb x c) eqn:E.
  - apply Ascii.eqb_eq in E. subst x.
    destruct (split_char c s) as [|w ws] eqn:Hs; [congruence|].
    change (join_str [c] ([] :: w :: ws)) with ([] ++ [c] ++ join_str [c] (w :: ws)).
    rewrite IH. reflexivity.
  - destruct (split_char c s) as [|w ws] eqn:Hs; [congruence|].
    destruct ws as [|w' ws].
    + simpl in IH. subst w. reflexivity.
    + change (join_str [c] (w :: w' :: ws)) with (w ++ [c] ++ join_str [c] (w' :: ws)) in IH.
      change (join_str [c] ((x :: w) :: w' :: ws))
        with ((x :: w) ++ [c] ++ join_str [c] (w' :: ws)).
      rewrite <- IH. reflexivity.
Qed.

Lemma records_of_app_sep (pre post : pystr) :
  c ∉ pre -> records_of c (pre ++ c :: post) = pre :: records_of c post.
Proof.
  intros Hpre. unfold records_of. rewrite (split_char_app_sep _ _ Hpre).
  pose proof (split_char_nonempty post) as Hne.
  destruct (split_char c post) as [|w ws] eqn:Hs; [congruence|].
  change (last (pre :: w :: ws)) with (last (w :: ws)).
  destruct (last (w :: ws)) as [[|y l]|]; reflexivity.
Qed.

Lemma records_of_no_sep (s : pystr) :
  c ∉ s -> records_of c s = match s with [] => [] | _ :: _ => [s] end.
Proof.
  intros Hs. unfold records_of. rewrite (split_char_no_sep _ Hs).
  destruct s; reflexivity.
Qed.

Lemma is_prefix_single (s : pystr) :
  is_prefix [c] s = match s with x :: _ => Ascii.eqb c x | [] => false end.
Proof. destruct s as [|x s]; simpl; [reflexivity|]. apply andb_true_r. Qed.

Lemma str_find_single_None (s : pystr) : str_find [c] s = None -> c ∉ s.
Proof.
  induction s as [|x s IH]; intros H.
  - apply not_elem_of_nil.
  - cbn [str_find] in H. rewrite is_prefix_single in H.
    destruct (Ascii.eqb c x) eqn:E; [discriminate|].
    destruct (str_find [c] s); [discriminate|].
    apply not_elem_of_cons. split; [|auto].
    intros ->. rewrite Ascii.eqb_refl in E. discriminate.
Qed.

Lemma str_find_single_Some (s : pystr) (i : nat) :
  str_find [c] s = Some i ->
  exists pre post, s = pre ++ c :: post /\ length pre = i /\ c ∉ pre.
Proof.
  revert i. induction s as [|x s IH]; intros i H.
  - discriminate.
  - cbn [str_find] in H. rewrite is_prefix_single in H.
    destruct (Ascii.eqb c x) eqn:E.
    + apply Ascii.eqb_eq in E. subst x. injection H as <-.
      exists [], s. repeat split. apply not_elem_of_nil.
    + destruct (str_find [c] s) as [j|] eqn:Hj; [|discriminate].
      injection H as <-.
      destruct (IH j eq_refl) as (pre & post & -> & Hlen & Hpre).
      exists (x :: pre), post. repeat split.
      * simpl. congruence.
      * apply not_elem_of_cons. split; [|assumption].
        intros ->. rewrite Ascii.eqb_refl in E. discriminate.
Qed.

Lemma rows_chunk_spec (fuel : nat) :
  forall (chunk : pystr) (inc : option pystr),
    length chunk < fuel ->
    c ∉ carry inc ->
    exists ys inc' rest,
      rows_chunk fuel [c] chunk inc = Some (ys, inc', rest)
      /\ (c ∉ (carry inc' ++ rest))
      /\ forall tail,
           ys ++ records_of c ((carry inc' ++ rest) ++ tail)
           = records_of c ((carry inc ++ chunk) ++ tail).
Proof.
  induction fuel as [|fuel IH]; intros chunk inc Hlen Hinc; [lia|].
  cbn [rows_chunk].
  destruct (str_find [c] chunk) as [i|] eqn:Hfind.
  - destruct (str_find_single_Some _ _ Hfind) as (pre & post & -> & Hi & Hpre).
    assert (Hdrop : drop (i + 1) (pre ++ c :: post) = post).
    { replace (pre ++ c :: post) with ((pre ++ [c]) ++ post) by (rewrite <- app_assoc; reflexivity).
      replace (i + 1) with (length (pre ++ [c])) by (rewrite length_app; simpl; lia).
      apply drop_app_length. }
    assert (Hslice : slice (pre ++ c :: post) 0 i = pre).
    { unfold slice. rewrite Nat.sub_0_r, drop_0, <- Hi. apply take_app_length. }
    rewrite Hdrop, Hslice.
    destruct (IH post None) as (ys & inc' & rest & Hrun & Hrest & Hrec).
    { rewrite length_app in Hlen. simpl in Hlen. lia. }
    { apply not_elem_of_nil. }
    rewrite Hrun. eexists _, _, _. split; [reflexivity|]. split; [exact Hrest|].
    intros tail. cbn [app]. rewrite Hrec. cbn [carry default app].
    assert (Hyield : (match inc with Some r => r ++ pre | None => pre end) = carry inc ++ pre).
    { destruct inc; reflexivity. }
    rewrite Hyield.
    rewrite <- records_of_app_sep.
    + f_equal. rewrite <- !app_assoc. reflexivity.
    + rewrite elem_of_app. tauto.
  - exists [], inc, chunk. split; [reflexivity|]. split; [|reflexivity].
    apply str_find_single_None in Hfind. rewrite elem_of_app. tauto.
Qed.

Lemma rows_loop_spec (chunksize : nat) (Hpos : 0 < chunksize) (fuel : nat) :
  forall (f : pystr) (inc : option pystr),
    length f < fuel ->
    c ∉ carry inc ->
    rows_loop fuel f chunksize [c] inc = Some (records_of c (carry inc ++ f)).
Proof.
  induction fuel as [|fuel IH]; intros f inc Hlen Hinc; [lia|].
  cbn [rows_loop].
  destruct (take chunksize f) as [|x chunk] eqn:Htake.
  - assert (f = []) as ->.
    { destruct f; [reflexivity|]. destruct chunksize; [lia|discriminate]. }
    rewrite app_nil_r, (records_of_no_sep _ Hinc).
    destruct inc as [[|y r]|]; reflexivity.
  - destruct (rows_chunk_spec (S (length (x :: chunk))) (x :: chunk) inc)
      as (ys & inc' & rest & Hrun & Hrest & Hrec); [lia|assumption|].
    rewrite Hrun.
    assert (Hnew : (match inc' with Some r => Some (r ++ rest) | None => Some rest end)
                   = Some (carry inc' ++ rest)).
    { destruct inc'; reflexivity. }
    rewrite Hnew, IH.
    + cbn [carry default]. fold (carry inc'). rewrite Hrec.
      rewrite <- Htake, <- app_assoc, take_drop. reflexivity.
    + rewrite length_drop.
      assert (length (take chunksize f) = S (length chunk)) by (rewrite Htake; reflexivity).
      rewrite length_take in H. lia.
    + exact Hrest.
Qed.

Lemma rows_records_of (content : pystr) (chunksize : nat) :
  0 < chunksize -> rows content chunksize [c] = Some (records_of c content).
Proof.
  intros Hpos. unfold rows.
  rewrite (rows_loop_spec chunksize Hpos); [reflexivity|lia|apply not_elem_of_nil].
Qed.

Lemma join_str_snoc (sep : pystr) (init : list pystr) (p : pystr) :
  join_str sep (init ++ [p])
  = match init with [] => p | _ :: _ => join_str sep init ++ sep ++ p end.
Proof.
  induction init as [|a init IH]; [reflexivity|].
  cbn [app]. destruct init as [|b init].
  - reflexivity.
  - change (join_str sep (a :: (b :: init) ++ [p]))
      with (a ++ sep ++ join_str sep ((b :: init) ++ [p])).
    rewrite IH. cbn [join_str]. destruct init; rewrite <- ?app_assoc; reflexivity.
Qed.

Lemma endswith_snoc (s : pystr) (x : ascii) : endswith (s ++ [x]) [c] = Ascii.eqb c x.
Proof.
  unfold endswith. rewrite rev_unit. simpl. apply andb_true_r.
Qed.

Lemma records_join (content : pystr) :
  join_str [c] (records_of c content) ++ (if endswith content [c] then [c] else [])
  = content.
Proof.
  pose proof (join_split_char content) as Hjoin.
  pose proof (split_char_pieces content) as Hpieces.
  pose proof (split_char_nonempty content) as Hne.
  unfold records_of.
  destruct (exists_last Hne) as (init & p & Hsplit).
  rewrite Hsplit in *. rewrite last_snoc.
  rewrite join_str_snoc in Hjoin.
  destruct p as [|y p].
  - rewrite removelast_last.
    destruct init as [|a init].
    + subst content. reflexivity.
    + rewrite app_nil_r in Hjoin. rewrite <- Hjoin.
      rewrite endswith_snoc, Ascii.eqb_refl. reflexivity.
  - apply Forall_app in Hpieces as [_ Hp]. apply Forall_inv in Hp. rename Hp into Hlast.
    assert (Hends : endswith content [c] = false).
    { destruct (exists_last (l := y :: p)) as (q & z & Hq); [discriminate|].
      rewrite Hq in Hlast, Hjoin.
      assert (Hz : Ascii.eqb c z = false).
      { destruct (Ascii.eqb c z) eqn:E; [|reflexivity].
        apply Ascii.eqb_eq in E. subst z. exfalso. apply Hlast.
        rewrite elem_of_app, list_elem_of_singleton. tauto. }
      destruct init as [|a init]; rewrite <- Hjoin.
      - rewrite endswith_snoc. exact Hz.
      - rewrite !app_assoc, endswith_snoc. exact Hz. }
    rewrite Hends, app_nil_r, join_str_snoc. exact Hjoin.
Qed.

End Rows.

(** C8. For a stream content, a positive chunk size and a one-character
    separator, [rows] terminates and yields exactly the separator-delimited
    records of the content, in order: the pieces between separators (empty
    ones included), the piece after the last separator only when it is not
    empty.  No yielded record contains the separator, joining the records with
    the separator (and putting back a final separator when the content ends
    with one) gives the content back, and the sequence is the same for every
    chunk size. *)
Theorem rows_yields_records (content sep : pystr) (chunksize : nat)
    (Hsep : length sep = 1) (Hchunk : 0 < chunksize) :
  exists c, sep = [c]
    /\ rows content chunksize sep = Some (records_of c content)
    /\ Forall (fun r => c ∉ r) (records_of c content)
    /\ join_str sep (records_of c content) ++ (if endswith content sep then sep else [])
       = content
    /\ forall chunksize', 0 < chunksize' ->
         rows content chunksize' sep = rows content chunksize sep.
Proof.
  destruct sep as [|c [|? ?]]; try discriminate.
  exists c. split; [reflexivity|]. split; [apply rows_records_of; assumption|].
  split; [|split].
  - unfold records_of.
    pose proof (split_char_pieces c content) as Hp.
    destruct (exists_last (split_char_nonempty c content)) as (init & p & Heq).
    rewrite Heq in *. rewrite last_snoc.
    destruct p as [|? ?]; [|exact Hp].
    rewrite removelast_last. apply Forall_app in Hp. tauto.
  - apply records_join.
  - intros n Hn. rewrite !rows_records_of by assumption. reflexivity.
Qed.

Lemma rows_yields_records_witness :
  exists c, [ch_lf] = [c]
    /\ rows (py "a,b" ++ [ch_lf; ch_lf] ++ py "c") 2 [ch_lf]
       = Some (records_of c (py "a,b" ++ [ch_lf; ch_lf] ++ py "c"))
    /\ Forall (fun r => c ∉ r) (records_of c (py "a,b" ++ [ch_lf; ch_lf] ++ py "c"))
    /\ join_str [ch_lf] (records_of c (py "a,b" ++ [ch_lf; ch_lf] ++ py "c"))
       ++ (if endswith (py "a,b" ++ [ch_lf; ch_lf] ++ py "c") [ch_lf] then [ch_lf] else [])
       = py "a,b" ++ [ch_lf; ch_lf] ++ py "c"
    /\ forall chunksize', 0 < chunksize' ->
         rows (py "a,b" ++ [ch_lf; ch_lf] ++ py "c") chunksize' [ch_lf]
         = rows (py "a,b" ++ [ch_lf; ch_lf] ++ py "c") 2 [ch_lf].
Proof.
  apply (rows_yields_records (py "a,b" ++ [ch_lf; ch_lf] ++ py "c") [ch_lf] 2).
  - reflexivity.
  - lia.
Defined.

(** ** [flike] *)

Section FlikeFacts.

Variable re_escape : pystr -> pystr.
Variable re_match : pystr -> pystr -> bool.

Lemma like_items_head (pattern : pystr) :
  exists s more, like_items pattern = Segment s :: more.
Proof.
  induction pattern as [|x pattern (s & more & IH)]; simpl; [eauto|].
  destruct (Ascii.eqb x "_"); [eauto|].
  destruct (Ascii.eqb x "%"); [eauto|].
  rewrite IH. eauto.
Qed.

Lemma like_items_segment_prefix (seg suf : pystr) :
  Forall (fun x => is_like_wildcard x = false) seg ->
  like_items (seg ++ suf)
  = match like_items suf with
    | Segment s :: more => Segment (seg ++ s) :: more
    | more => Segment seg :: more
    end.
Proof.
  intros Hseg. induction Hseg as [|x seg Hx _ IH].
  - simpl. destruct (like_items_head suf) as (s & more & ->). reflexivity.
  - cbn [app like_items]. unfold is_like_wildcard in Hx.
    apply orb_false_elim in Hx as [-> ->].
    rewrite IH. destruct (like_items_head suf) as (s & more & ->). reflexivity.
Qed.

Lemma like_to_regex_loop_spec (pattern : pystr) (suf : pystr) :
  forall (seg0 seg converted : pystr),
    pattern = seg0 ++ seg ++ suf ->
    Forall (fun x => is_like_wildcard x = false) seg ->
    let '(p, converted') :=
      like_to_regex_loop re_escape pattern
        (seq (length (seg0 ++ seg)) (length suf)) (length seg0) converted in
    converted' ++ re_escape (slice pattern p (length pattern))
    = converted ++ concat (map (regex_of_item re_escape) (like_items (seg ++ suf))).
Proof.
  induction suf as [|x suf IH]; intros seg0 seg converted Hpat Hseg.
  - cbn [length seq like_to_regex_loop].
    rewrite like_items_segment_prefix by auto. cbn [like_items map concat].
    rewrite !app_nil_r. cbn [regex_of_item]. do 2 f_equal.
    subst pattern. unfold slice. rewrite app_nil_r, drop_app_length.
    apply take_ge. rewrite length_app. lia.
  - cbn [length seq like_to_regex_loop].
    assert (Hget : getc pattern (length (seg0 ++ seg)) = x).
    { subst pattern. rewrite app_assoc. apply nth_middle. }
    assert (Hslice : slice pattern (length seg0) (length (seg0 ++ seg)) = seg).
    { subst pattern. unfold slice. rewrite drop_app_length, length_app.
      replace (length seg0 + length seg - length seg0) with (length seg) by lia.
      apply take_app_length. }
    rewrite Hget.
    rewrite like_items_segment_prefix by auto.
    destruct (is_like_wildcard x) eqn:Hw.
    + rewrite Hslice.
      replace (S (length (seg0 ++ seg))) with (length ((seg0 ++ seg ++ [x]) ++ []))
        by (rewrite app_nil_r, !length_app; simpl; lia).
      replace (length (seg0 ++ seg) + 1) with (length (seg0 ++ seg ++ [x]))
        by (rewrite !length_app; simpl; lia).
      specialize (IH (seg0 ++ seg ++ [x]) []
                    (if Ascii.eqb x "_"
                     then (converted ++ re_escape seg) ++ py "."
                     else (converted ++ re_escape seg) ++ py ".*")).
      destruct (like_to_regex_loop re_escape pattern _ _ _) as [p converted'].
      rewrite IH; [|subst pattern; rewrite <- !app_assoc; reflexivity|constructor].
      cbn [app like_items]. unfold is_like_wildcard in Hw.
      destruct (Ascii.eqb x "_") eqn:E1.
      * cbn [map concat regex_of_item]. rewrite app_nil_r, <- !app_assoc. reflexivity.
      * simpl in Hw. rewrite Hw.
        cbn [map concat regex_of_item]. rewrite app_nil_r, <- !app_assoc. reflexivity.
    + replace (S (length (seg0 ++ seg))) with (length (seg0 ++ seg ++ [x]))
        by (rewrite !length_app; simpl; lia).
      specialize (IH seg0 (seg ++ [x]) converted).
      destruct (like_to_regex_loop re_escape pattern _ _ _) as [p converted'].
      rewrite IH.
      * rewrite like_items_segment_prefix.
        -- cbn [like_items]. unfold is_like_wildcard in Hw.
           apply orb_false_elim in Hw as [-> ->].
           destruct (like_items_head suf) as (s & more & ->).
           rewrite <- app_assoc. reflexivity.
        -- apply Forall_app. split; [assumption|]. repeat constructor. assumption.
      * subst pattern. rewrite <- !app_assoc. reflexivity.
      * apply Forall_app. split; [assumption|]. repeat constructor. assumption.
Qed.

Lemma like_to_regex_like_regex (pattern : pystr) :
  _like_to_regex re_escape pattern = like_regex re_escape pattern.
Proof.
  unfold _like_to_regex, like_regex.
  pose proof (like_to_regex_loop_spec pattern pattern [] [] [] eq_refl (List.Forall_nil _)) as H.
  cbn [app length] in H.
  destruct (like_to_regex_loop re_escape pattern _ _ _) as [p converted].
  rewrite H. reflexivity.
Qed.

(** Every entry of the cache is the regex of its pattern. *)
Lemma flike_cache_sound (calls : list (pystr * pystr)) (pattern rgx : pystr) :
  flike_cache_after re_escape re_match calls !! pattern = Some rgx ->
  rgx = _like_to_regex re_escape pattern.
Proof.
  unfold flike_cache_after.
  assert (Hgen : forall (cache : gmap pystr pystr),
             (forall p r, cache !! p = Some r -> r = _like_to_regex re_escape p) ->
             forall p r,
               fold_left (fun c '(text, pattern) =>
                            snd (Flike_call re_escape re_match c text pattern))
                 calls cache !! p = Some r ->
               r = _like_to_regex re_escape p).
  { induction calls as [|[text pat] calls IH]; intros cache Hc p r; [apply Hc|].
    cbn [fold_left]. apply IH. intros p' r'. unfold Flike_call.
    destruct (cache !! pat) as [r0|] eqn:Hpat.
    - rewrite Hpat. simpl. apply Hc.
    - rewrite lookup_insert_eq. simpl.
      rewrite lookup_insert. case_decide; [|apply Hc].
      subst p'. intros [= <-]. reflexivity. }
  intros H. eapply (Hgen ∅); [|exact H].
  intros p r. rewrite lookup_empty. discriminate.
Qed.

End FlikeFacts.

(** C3. [flike(s, p)] is true exactly when [s] matches the regex read off
    [p]: the segments of [p] between [_] and [%] regex-escaped, every [_]
    turned into [.], every [%] into [.*], the whole between [^] and [$].
    This holds whatever calls filled the cache before. *)
Theorem flike_matches_like_regex
    (re_escape : pystr -> pystr) (re_match : pystr -> pystr -> bool)
    (calls : list (pystr * pystr)) (s p : pystr) :
  _like_to_regex re_escape p = like_regex re_escape p
  /\ (flike re_escape re_match calls s p = true
      <-> re_match (like_regex re_escape p) s = true).
Proof.
  split; [apply like_to_regex_like_regex|].
  unfold flike, Flike_call.
  destruct (flike_cache_after re_escape re_match calls !! p) as [rgx|] eqn:Hc.
  - rewrite Hc. simpl.
    apply flike_cache_sound in Hc. rewrite Hc, like_to_regex_like_regex. reflexivity.
  - rewrite lookup_insert_eq. simpl. rewrite like_to_regex_like_regex. reflexivity.
Qed.

(** ** Column rewriter *)

Lemma replace_column_vars_step_middle (pre suf : list Token) (x : Token) :
  replace_column_vars_step (pre ++ x :: suf) (length pre)
  = pre ++ rewrite_column_token x :: suf.
Proof.
  unfold replace_column_vars_step, rewrite_column_token, set_content.
  rewrite list_lookup_middle by reflexivity.
  destruct (is_string_literal x); [reflexivity|].
  destruct (replace_rbql_var (content x)); [|reflexivity].
  rewrite insert_app_r_alt by lia. rewrite Nat.sub_diag. reflexivity.
Qed.

Lemma replace_column_vars_fold (suf : list Token) :
  forall pre,
    fold_left replace_column_vars_step (seq (length pre) (length suf)) (pre ++ suf)
    = pre ++ map rewrite_column_token suf.
Proof.
  induction suf as [|x suf IH]; intros pre; [reflexivity|].
  cbn [length seq fold_left map]. rewrite replace_column_vars_step_middle.
  specialize (IH (pre ++ [rewrite_column_token x])).
  rewrite length_app, Nat.add_1_r, <- !app_assoc in IH. exact IH.
Qed.

Lemma replace_column_vars_map (tokens : list Token) :
  replace_column_vars tokens = map rewrite_column_token tokens.
Proof. exact (replace_column_vars_fold tokens []). Qed.

Lemma replace_rbql_var_matches (text : pystr) :
  is_Some (replace_rbql_var text) ->
  is_Some (column_var_regex text) \/ is_Some (bcolumn_var_regex text).
Proof.
  unfold replace_rbql_var.
  destruct (column_var_regex text); [eauto|].
  destruct (bcolumn_var_regex text); [eauto|].
  intros [? ?]. discriminate.
Qed.

(** ** Star rewriter *)

Lemma star_related_refl (l : list Token) : Forall2 star_related l l.
Proof. induction l; constructor; [left; reflexivity|assumption]. Qed.

Lemma star_related_probe (l l' : list Token) (j : Z) :
  Forall2 star_related l l' ->
  str_eqb (content_at l' j) (py " ") = str_eqb (content_at l j) (py " ")
  /\ endswith (content_at l' j) (py ",") = endswith (content_at l j) (py ",")
  /\ startswith (content_at l' j) (py ",") = startswith (content_at l j) (py ",").
Proof.
  intros H. unfold content_at.
  destruct (l !! Z.to_nat j) as [t|] eqn:Ht.
  - destruct (Forall2_lookup_l _ _ _ _ _ H Ht) as (t' & -> & [->|(_ & Hc & ->)]).
    + auto.
    + simpl. rewrite Hc. vm_compute. auto.
  - apply lookup_ge_None in Ht. rewrite (Forall2_length _ _ _ H) in Ht.
    apply lookup_ge_None in Ht. rewrite Ht. auto.
Qed.

Lemma star_test_related (pre pre' suf : list Token) :
  Forall2 star_related pre pre' ->
  star_test (pre' ++ suf) (length pre) = star_test (pre ++ suf) (length pre).
Proof.
  intros H.
  assert (Hall : Forall2 star_related (pre ++ suf) (pre' ++ suf)).
  { apply Forall2_app; [assumption|apply star_related_refl]. }
  assert (H1 : forall j, str_eqb (content_at (pre' ++ suf) j) (py " ")
                         = str_eqb (content_at (pre ++ suf) j) (py " ")).
  { intros j. apply (star_related_probe _ _ j Hall). }
  assert (H2 : forall j, endswith (content_at (pre' ++ suf) j) (py ",")
                         = endswith (content_at (pre ++ suf) j) (py ",")).
  { intros j. apply (star_related_probe _ _ j Hall). }
  assert (H3 : forall j, startswith (content_at (pre' ++ suf) j) (py ",")
                         = startswith (content_at (pre ++ suf) j) (py ",")).
  { intros j. apply (star_related_probe _ _ j Hall). }
  unfold star_test.
  rewrite (Forall2_length _ _ _ Hall).
  rewrite (Forall2_length _ _ _ H) at 1.
  rewrite !lookup_app_r by lia. rewrite (Forall2_length _ _ _ H), !Nat.sub_diag.
  destruct (suf !! 0) as [t|]; [|reflexivity].
  cbv zeta. rewrite !H1, !H2, !H3. reflexivity.
Qed.

Lemma star_test_true (tokens : list Token) (i : nat) :
  star_test tokens i = Ok true ->
  exists t, tokens !! i = Some t /\ ttype t <> STRING_LITERAL /\ content t = py "*".
Proof.
  unfold star_test. destruct (tokens !! i) as [t|]; [|discriminate].
  unfold is_string_literal, str_eqb.
  destruct (bool_decide_reflect (ttype t = STRING_LITERAL)); [discriminate|].
  destruct (bool_decide_reflect (content t = py "*")); [|discriminate].
  eauto.
Qed.

Lemma star_test_error (tokens : list Token) (i : nat) (e : exn) :
  star_test tokens i = Raise e -> e = AssertionError.
Proof.
  unfold star_test. destruct (tokens !! i) as [t|]; [|discriminate].
  cbv zeta.
  repeat match goal with
         | |- context [if ?b then _ else _] => destruct b
         end; congruence.
Qed.

Lemma content_at_space (tokens : list Token) (j : Z) :
  str_eqb (content_at tokens j) (py " ") = true ->
  exists t, tokens !! Z.to_nat j = Some t /\ content t = py " ".
Proof.
  unfold str_eqb, content_at. intros H. apply bool_decide_eq_true in H.
  destruct (tokens !! Z.to_nat j) as [t|]; [eauto|discriminate].
Qed.

(** On such a list neither [assert] of the star rewriter fails. *)
Lemma star_test_no_assert (tokens : list Token) (i : nat) (e : exn) :
  no_adjacent_spaces tokens -> star_test tokens i <> Raise e.
Proof.
  intros Hno. unfold star_test.
  destruct (tokens !! i) as [t|]; [|discriminate].
  destruct (is_string_literal t); [discriminate|].
  destruct (negb (str_eqb (content t) (py "*"))); [discriminate|].
  cbv zeta.
  destruct ((0 <=? Z.of_nat i - 1)%Z
            && str_eqb (content_at tokens (Z.of_nat i - 1)) (py " ")) eqn:EL.
  - destruct ((0 <=? Z.of_nat i - 1 - 1)%Z
              && str_eqb (content_at tokens (Z.of_nat i - 1 - 1)) (py " ")) eqn:EL2.
    + exfalso.
      apply andb_true_iff in EL as [_ EL]. apply andb_true_iff in EL2 as [Hge EL2].
      apply Z.leb_le in Hge.
      apply content_at_space in EL as (t1 & Ht1 & Hc1).
      apply content_at_space in EL2 as (t2 & Ht2 & Hc2).
      apply (Hno (Z.to_nat (Z.of_nat i - 1 - 1)) t2 t1); [assumption| |auto].
      rewrite <- Ht1. f_equal. lia.
    + destruct ((0 <=? Z.of_nat i - 1 - 1)%Z
                && negb (endswith (content_at tokens (Z.of_nat i - 1 - 1)) (py ",")));
        [discriminate|].
      destruct ((Z.of_nat i + 1 <? Z.of_nat (length tokens))%Z
                && str_eqb (content_at tokens (Z.of_nat i + 1)) (py " ")) eqn:ER.
      * destruct ((Z.of_nat i + 1 + 1 <? Z.of_nat (length tokens))%Z
                  && str_eqb (content_at tokens (Z.of_nat i + 1 + 1)) (py " ")) eqn:ER2.
        -- exfalso.
           apply andb_true_iff in ER as [_ ER]. apply andb_true_iff in ER2 as [_ ER2].
           apply content_at_space in ER as (t1 & Ht1 & Hc1).
           apply content_at_space in ER2 as (t2 & Ht2 & Hc2).
           apply (Hno (Z.to_nat (Z.of_nat i + 1)) t1 t2); [assumption| |auto].
           rewrite <- Ht2. f_equal. lia.
        -- destruct (_ && negb _); discriminate.
      * rewrite ER. destruct (_ && negb _); discriminate.
  - rewrite EL.
    destruct ((0 <=? Z.of_nat i - 1)%Z
              && negb (endswith (content_at tokens (Z.of_nat i - 1)) (py ",")));
      [discriminate|].
    destruct ((Z.of_nat i + 1 <? Z.of_nat (length tokens))%Z
              && str_eqb (content_at tokens (Z.of_nat i + 1)) (py " ")) eqn:ER.
    + destruct ((Z.of_nat i + 1 + 1 <? Z.of_nat (length tokens))%Z
                && str_eqb (content_at tokens (Z.of_nat i + 1 + 1)) (py " ")) eqn:ER2.
      * exfalso.
        apply andb_true_iff in ER as [_ ER]. apply andb_true_iff in ER2 as [_ ER2].
        apply content_at_space in ER as (t1 & Ht1 & Hc1).
        apply content_at_space in ER2 as (t2 & Ht2 & Hc2).
        apply (Hno (Z.to_nat (Z.of_nat i + 1)) t1 t2); [assumption| |auto].
        rewrite <- Ht2. f_equal. lia.
      * destruct (_ && negb _); discriminate.
    + rewrite ER. destruct (_ && negb _); discriminate.
Qed.

Lemma replace_star_vars_loop_spec (suf : list Token) :
  forall pre pre',
    Forall2 star_related pre pre' ->
    match replace_star_vars_loop (seq (length pre) (length suf)) (pre' ++ suf) with
    | Ok tokens' =>
        exists suf',
          tokens' = pre' ++ suf'
          /\ Forall2 star_related suf suf'
          /\ forall k t t',
               suf !! k = Some t -> suf' !! k = Some t' -> content t' <> content t ->
               star_test (pre ++ suf) (length pre + k) = Ok true
    | Raise e =>
        e = AssertionError
        /\ exists k, star_test (pre ++ suf) (length pre + k) = Raise AssertionError
    end.
Proof.
  induction suf as [|x suf IH]; intros pre pre' Hpre.
  - simpl. exists []. repeat split; [constructor|].
    intros k t t' Hk. rewrite lookup_nil in Hk. discriminate.
  - cbn [length seq replace_star_vars_loop].
    unfold replace_star_vars_step.
    rewrite (star_test_related pre pre' (x :: suf) Hpre).
    destruct (star_test (pre ++ x :: suf) (length pre)) as [[|]|e] eqn:Htest;
      cbn [bind].
    + destruct (star_test_true _ _ Htest) as (t & Ht & Hlit & Hc).
      rewrite list_lookup_middle in Ht by reflexivity. injection Ht as <-.
      unfold set_content.
      rewrite list_lookup_middle by (apply (Forall2_length _ _ _ Hpre)).
      rewrite insert_app_r_alt by (rewrite (Forall2_length _ _ _ Hpre); lia).
      rewrite (Forall2_length _ _ _ Hpre), Nat.sub_diag. cbn [insert list_insert].
      set (x' := mkToken (ttype x) (py "star_line")).
      assert (Hx : star_related x x') by (right; auto).
      assert (Hpre2 : Forall2 star_related (pre ++ [x]) (pre' ++ [x'])).
      { apply Forall2_app; [assumption|]. constructor; [exact Hx|constructor]. }
      specialize (IH (pre ++ [x]) (pre' ++ [x']) Hpre2).
      rewrite length_app, Nat.add_1_r, <- !app_assoc in IH. cbn [app] in IH.
      rewrite <- (Forall2_length _ _ _ Hpre).
      destruct (replace_star_vars_loop _ _) as [tokens'|e].
      * destruct IH as (suf' & -> & Hsuf & Hchg).
        exists (x' :: suf'). split; [rewrite <- app_assoc; reflexivity|]. split.
        -- constructor; assumption.
        -- intros [|k] t t' Hk Hk' Hne.
           ++ rewrite Nat.add_0_r. exact Htest.
           ++ rewrite Nat.add_succ_r. apply (Hchg k t t'); assumption.
      * destruct IH as (-> & k & Hk). split; [reflexivity|].
        exists (S k). rewrite Nat.add_succ_r. exact Hk.
    + assert (Hx : star_related x x) by (left; reflexivity).
      assert (Hpre2 : Forall2 star_related (pre ++ [x]) (pre' ++ [x])).
      { apply Forall2_app; [assumption|]. constructor; [exact Hx|constructor]. }
      specialize (IH (pre ++ [x]) (pre' ++ [x]) Hpre2).
      rewrite length_app, Nat.add_1_r, <- !app_assoc in IH. cbn [app] in IH.
      destruct (replace_star_vars_loop _ _) as [tokens'|e].
      * destruct IH as (suf' & -> & Hsuf & Hchg).
        exists (x :: suf'). split; [rewrite <- app_assoc; reflexivity|]. split.
        -- constructor; assumption.
        -- intros [|k] t t' Hk Hk' Hne.
           ++ simpl in Hk, Hk'. congruence.
           ++ rewrite Nat.add_succ_r. apply (Hchg k t t'); assumption.
      * destruct IH as (-> & k & Hk). split; [reflexivity|].
        exists (S k). rewrite Nat.add_succ_r. exact Hk.
    + pose proof (star_test_error _ _ _ Htest) as ->. split; [reflexivity|].
      exists 0. rewrite Nat.add_0_r. exact Htest.
Qed.

(** C9. Both rewriters keep the number of tokens and every token's type, and
    leave every [STRING_LITERAL] token as it is.  The column rewriter changes
    the content of a token only when the token is not a string literal and
    its whole content matches one of the two column patterns; the star
    rewriter, which [parse_to_py] runs on the SELECT clause only, changes a
    content only from [*] to [star_line], on a token that is not a string
    literal and passes the isolation tests.  The star rewriter returns its
    tokens unless one of its two [assert]s fails, which does not happen on a
    list without two neighbouring space tokens. *)
Theorem rewriters_keep_string_literals (tokens : list Token) :
  (length (replace_column_vars tokens) = length tokens
   /\ forall i t, tokens !! i = Some t ->
        exists t', replace_column_vars tokens !! i = Some t'
          /\ ttype t' = ttype t
          /\ (ttype t = STRING_LITERAL -> t' = t)
          /\ (content t' <> content t ->
              ttype t <> STRING_LITERAL
              /\ (is_Some (column_var_regex (content t))
                  \/ is_Some (bcolumn_var_regex (content t)))
              /\ replace_rbql_var (content t) = Some (content t')))
  /\ match replace_star_vars tokens with
     | Ok tokens' =>
         length tokens' = length tokens
         /\ forall i t, tokens !! i = Some t ->
              exists t', tokens' !! i = Some t'
                /\ ttype t' = ttype t
                /\ (ttype t = STRING_LITERAL -> t' = t)
                /\ (content t' <> content t ->
                    ttype t <> STRING_LITERAL
                    /\ content t = py "*"
                    /\ content t' = py "star_line"
                    /\ star_test tokens i = Ok true)
     | Raise e => e = AssertionError /\ ~ no_adjacent_spaces tokens
     end.
Proof.
  split.
  - rewrite replace_column_vars_map. split; [apply length_map|].
    intros i t Ht. exists (rewrite_column_token t).
    rewrite list_lookup_fmap, Ht. split; [reflexivity|].
    unfold rewrite_column_token, is_string_literal.
    destruct (bool_decide_reflect (ttype t = STRING_LITERAL)) as [Hl|Hl].
    + repeat split; congruence.
    + destruct (replace_rbql_var (content t)) as [v|] eqn:Hv; cbn [ttype content].
      * repeat split; try congruence.
        apply replace_rbql_var_matches. rewrite Hv. eauto.
      * repeat split; congruence.
  - pose proof (replace_star_vars_loop_spec tokens [] [] (List.Forall2_nil _)) as H.
    unfold replace_star_vars. cbn [length app] in H.
    destruct (replace_star_vars_loop _ _) as [tokens'|e].
    + destruct H as (suf' & -> & Hrel & Hchg). cbn [app].
      split; [symmetry; apply (Forall2_length _ _ _ Hrel)|].
      intros i t Ht.
      destruct (Forall2_lookup_l _ _ _ _ _ Hrel Ht) as (t' & Ht' & Hr).
      exists t'. split; [assumption|].
      destruct Hr as [->|(Hlit & Hc & ->)].
      * repeat split; congruence.
      * split; [reflexivity|]. split; [intros; congruence|].
        intros Hne. split; [assumption|]. split; [assumption|]. split; [reflexivity|].
        apply (Hchg i t _ Ht Ht' Hne).
    + destruct H as (-> & k & Hk). split; [reflexivity|].
      intros Hno. exact (star_test_no_assert _ _ _ Hno Hk).
Qed.

(** A SELECT clause with an isolated star, a star that is the argument of a
    call and a string literal: only the isolated star is rewritten. *)
Example rewriters_on_select_clause :
  (let* tokens := replace_star_vars
                    (replace_column_vars
                       (lex_query [py "a1, *, f(*), 'a2'"])) in
   Ok (join_tokens tokens))
  = Ok (py "fields[0], star_line, f(*), 'a2'").
Proof. vm_compute. reflexivity. Qed.

(** ** Join expression parser *)

Lemma match_var_a_not_b (text g : pystr) :
  column_var_regex text = Some g -> bcolumn_var_regex text = None.
Proof.
  unfold column_var_regex, bcolumn_var_regex, match_var.
  destruct text as [|c [|d rest]]; try discriminate.
  destruct (Ascii.eqb c "a") eqn:E; [|discriminate].
  apply Ascii.eqb_eq in E. subst c. reflexivity.
Qed.

Lemma replace_rbql_var_a (text g : pystr) :
  column_var_regex text = Some g ->
  replace_rbql_var text = Some (py "fields[" ++ str_of_nat (int_of_digits g - 1) ++ py "]").
Proof. intros H. unfold replace_rbql_var. rewrite H. reflexivity. Qed.

Lemma replace_rbql_var_b (text g : pystr) :
  bcolumn_var_regex text = Some g ->
  replace_rbql_var text = Some (py "bfields[" ++ str_of_nat (int_of_digits g - 1) ++ py "]").
Proof.
  intros H. unfold replace_rbql_var.
  destruct (column_var_regex text) as [g'|] eqn:Ha.
  - apply match_var_a_not_b in Ha. congruence.
  - rewrite H. reflexivity.
Qed.

(** C5. [parse_join_expression] succeeds exactly when the joined body splits
    at spaces into five words [path ON lhs == rhs], the second being [ON] in
    any case, the fourth [==], and one of [lhs], [rhs] an A column and the
    other a B column, in either order; it then returns the path, the A-side
    field reference and the B-side field reference.  Every other body raises
    the parsing error with the join syntax message. *)
Theorem parse_join_expression_spec (tokens : list Token) :
  (forall path a b,
     parse_join_expression tokens = Ok (path, a, b)
     <-> join_shape (split_char ch_space (join_tokens tokens)) path a b)
  /\ (forall e, parse_join_expression tokens = Raise e -> e = RBParsingError syntax_err_msg)
  /\ ((forall path a b, ~ join_shape (split_char ch_space (join_tokens tokens)) path a b)
      -> parse_join_expression tokens = Raise (RBParsingError syntax_err_msg)).
Proof.
  assert (Hiff : forall path a b,
             parse_join_expression tokens = Ok (path, a, b)
             <-> join_shape (split_char ch_space (join_tokens tokens)) path a b).
  { intros path a b. unfold parse_join_expression, join_shape.
    destruct (split_char ch_space (join_tokens tokens))
      as [|t0 [|t1 [|t2 [|t3 [|t4 [|t5 rest]]]]]];
      try (split; [discriminate|intros (?&?&?&?&?&?&?&?); discriminate]).
    unfold str_eqb.
    destruct (bool_decide_reflect (upper t1 = py "ON")) as [Hon|Hon]; cbn [negb orb].
    2: { split; [discriminate|]. intros (?&?&?&?&?&?&[= -> -> -> -> ->]&?&?). tauto. }
    destruct (bool_decide_reflect (t3 = py "==")) as [Heq|Heq]; cbn [negb].
    2: { split; [discriminate|]. intros (?&?&?&?&?&?&[= -> -> -> -> ->]&?&?&?). tauto. }
    destruct (column_var_regex t4) as [g4|] eqn:H4.
    - (* the operands are swapped *)
      rewrite H4.
      destruct (bcolumn_var_regex t2) as [g2|] eqn:H2.
      + rewrite (replace_rbql_var_a _ _ H4), (replace_rbql_var_b _ _ H2).
        split.
        * intros [= <- <- <-]. exists t1, t2, t3, t4, g4, g2. repeat split; auto.
        * intros (on & lhs & eqeq & rhs & i & j & [= <- <- <- <- <-] & _ & _ & Hab & -> & ->).
          destruct Hab as [[Ha Hb]|[Hb Ha]].
          -- apply match_var_a_not_b in H4. congruence.
          -- congruence.
      + split; [discriminate|].
        intros (on & lhs & eqeq & rhs & i & j & [= <- <- <- <- <-] & _ & _ & Hab & _).
        destruct Hab as [[Ha Hb]|[Hb Ha]].
        * apply match_var_a_not_b in H4. congruence.
        * congruence.
    - destruct (column_var_regex t2) as [g2|] eqn:H2.
      + destruct (bcolumn_var_regex t4) as [g4|] eqn:H4b.
        * rewrite (replace_rbql_var_a _ _ H2), (replace_rbql_var_b _ _ H4b).
          split.
          -- intros [= <- <- <-]. exists t1, t2, t3, t4, g2, g4. repeat split; auto.
          -- intros (on & lhs & eqeq & rhs & i & j & [= <- <- <- <- <-] & _ & _ & Hab & -> & ->).
             destruct Hab as [[Ha Hb]|[Hb Ha]]; congruence.
        * split; [discriminate|].
          intros (on & lhs & eqeq & rhs & i & j & [= <- <- <- <- <-] & _ & _ & Hab & _).
          destruct Hab as [[Ha Hb]|[Hb Ha]]; congruence.
      + split; [discriminate|].
        intros (on & lhs & eqeq & rhs & i & j & [= <- <- <- <- <-] & _ & _ & Hab & _).
        destruct Hab as [[Ha Hb]|[Hb Ha]]; congruence. }
  assert (Herr : forall e, parse_join_expression tokens = Raise e
                           -> e = RBParsingError syntax_err_msg).
  { intros e. unfold parse_join_expression.
    destruct (split_char ch_space (join_tokens tokens))
      as [|t0 [|t1 [|t2 [|t3 [|t4 [|t5 rest]]]]]]; try congruence.
    destruct (negb _ || negb _); [congruence|].
    destruct (column_var_regex t4).
    - destruct (column_var_regex t4), (bcolumn_var_regex t2); congruence.
    - destruct (column_var_regex t2), (bcolumn_var_regex t4); congruence. }
  split; [exact Hiff|]. split; [exact Herr|].
  intros Hno.
  destruct (parse_join_expression tokens) as [[[path a] b]|e] eqn:Hres.
  - exfalso. apply (Hno path a b). apply Hiff. reflexivity.
  - f_equal. apply Herr. reflexivity.
Qed.

(** The join clause of test 6 of the source, and the same with the operands
    in the other order. *)
Example parse_join_expression_test6 :
  parse_join_expression (lex_query [py "/tmp/B.tsv on a2 == b1"])
  = Ok (py "/tmp/B.tsv", Some (py "fields[1]"), Some (py "bfields[0]"))
  /\ parse_join_expression (lex_query [py "/tmp/B.tsv ON b1 == a2"])
     = Ok (py "/tmp/B.tsv", Some (py "fields[1]"), Some (py "bfields[0]"))
  /\ parse_join_expression (lex_query [py "/tmp/B.tsv on a2==b1"])
     = Raise (RBParsingError syntax_err_msg).
Proof. vm_compute. auto. Qed.

(** ** Clause splitter: duplicates *)

Lemma consume_patterns_progress (patterns : list Pattern) (tokens : list Token) (idx : nat) :
  Forall (fun p => 1 <= psize p) patterns ->
  idx < snd (consume_patterns patterns tokens idx).
Proof.
  induction 1 as [|p patterns Hp _ IH]; simpl; [lia|].
  repeat match goal with
         | |- context [if ?b then _ else _] => destruct b
         end; simpl; try assumption; lia.
Qed.

Lemma consume_action_progress (patterns : list Pattern) (tokens : list Token) (idx : nat) :
  Forall (fun p => 1 <= psize p) patterns ->
  idx < snd (consume_action patterns tokens idx).
Proof.
  intros H. unfold consume_action.
  destruct (tokens !! idx) as [t|]; simpl; [|lia].
  destruct (is_string_literal t); simpl; [lia|].
  apply consume_patterns_progress, H.
Qed.

Lemma clause_patterns_sizes : Forall (fun p => 1 <= psize p) clause_patterns.
Proof. vm_compute. repeat constructor. Qed.

Lemma dom_store_prev (tokens : list Token) (prev : option pystr) (k i : nat)
    (result : gmap pystr (list Token)) :
  dom (store_prev tokens prev k i result) = seen_actions result prev.
Proof.
  unfold store_prev, seen_actions. destruct prev; [|reflexivity].
  apply dom_insert_L.
Qed.

Lemma separate_actions_loop_spec (patterns : list Pattern) (tokens : list Token)
    (Hsizes : Forall (fun p => 1 <= psize p) patterns) (fuel : nat) :
  forall (result : gmap pystr (list Token)) (prev : option pystr) (k i : nat),
    length tokens <= i + fuel ->
    match first_dup (seen_actions result prev)
            (map fst (scan_actions fuel patterns tokens i)) with
    | Some X =>
        separate_actions_loop fuel patterns tokens result prev k i
        = Some (Raise (RBParsingError (duplicate_msg X)))
    | None =>
        exists m,
          separate_actions_loop fuel patterns tokens result prev k i = Some (Ok m)
          /\ dom m = seen_actions result prev
                     ∪ list_to_set (map fst (scan_actions fuel patterns tokens i))
    end.
Proof.
  induction fuel as [|fuel IH]; intros result prev k i Hfuel.
  - cbn [scan_actions separate_actions_loop].
    destruct (length tokens <=? i)%nat eqn:E; [|apply Nat.leb_gt in E; lia].
    simpl. eexists. split; [reflexivity|]. rewrite dom_store_prev. set_solver.
  - cbn [scan_actions separate_actions_loop].
    destruct (length tokens <=? i)%nat eqn:E.
    { simpl. eexists. split; [reflexivity|]. rewrite dom_store_prev. set_solver. }
    apply Nat.leb_gt in E.
    pose proof (consume_action_progress patterns tokens i Hsizes) as Hprog.
    destruct (consume_action patterns tokens i) as [[action|] i_next]; simpl in Hprog.
    + cbn [map fst first_dup].
      rewrite <- (dom_store_prev tokens prev k i result).
      destruct (bool_decide_reflect (action ∈ dom (store_prev tokens prev k i result)))
        as [Hin|Hin].
      * rewrite bool_decide_eq_true_2; [reflexivity|]. apply elem_of_dom. exact Hin.
      * rewrite bool_decide_eq_false_2 by (rewrite <- elem_of_dom; exact Hin).
        specialize (IH (store_prev tokens prev k i result) (Some action) i_next i_next).
        cbn [seen_actions] in IH.
        destruct (first_dup _ _); [apply IH; lia|].
        destruct IH as (m & Hm & Hdom); [lia|].
        exists m. split; [exact Hm|]. rewrite Hdom. cbn [list_to_set]. set_solver.
    + apply IH. lia.
Qed.

Lemma first_dup_None (l : list pystr) :
  forall seen, first_dup seen l = None -> NoDup l.
Proof.
  induction l as [|a l IH]; intros seen H; [constructor|].
  cbn [first_dup] in H.
  destruct (bool_decide_reflect (a ∈ seen)); [discriminate|].
  assert (Hgen : forall l' seen', first_dup seen' l' = None -> forall x, x ∈ l' -> x ∉ seen').
  { clear. induction l' as [|b l' IH']; intros seen' H x Hx; [inversion Hx|].
    cbn [first_dup] in H. destruct (bool_decide_reflect (b ∈ seen')); [discriminate|].
    apply elem_of_cons in Hx as [->|Hx]; [assumption|].
    specialize (IH' _ H x Hx). set_solver. }
  apply NoDup_cons. split; [|eapply IH; eassumption].
  intros Ha. apply (Hgen _ _ H a Ha). set_solver.
Qed.

Lemma first_dup_Some (l : list pystr) :
  forall seen Y,
    first_dup seen l = Some Y ->
    exists j, l !! j = Some Y
      /\ NoDup (take j l)
      /\ (forall x, x ∈ take j l -> x ∉ seen)
      /\ (Y ∈ seen \/ Y ∈ take j l).
Proof.
  induction l as [|a l IH]; intros seen Y H; [discriminate|].
  cbn [first_dup] in H.
  destruct (bool_decide_reflect (a ∈ seen)) as [Ha|Ha].
  - injection H as <-. exists 0. simpl. repeat split; [constructor| |auto].
    intros x Hx. inversion Hx.
  - destruct (IH _ _ H) as (j & Hj & Hnd & Hfresh & HY).
    exists (S j). cbn [take]. split; [exact Hj|]. split; [|split].
    + apply NoDup_cons. split; [|assumption].
      intros Hin. apply (Hfresh a Hin). set_solver.
    + intros x Hx. apply elem_of_cons in Hx as [->|Hx]; [assumption|].
      specialize (Hfresh x Hx). set_solver.
    + destruct HY as [HY|HY]; [|right; apply elem_of_cons; auto].
      apply elem_of_union in HY as [HY|HY]; [|auto].
      right. apply elem_of_cons. left. set_solver.
Qed.

(** C7. [separate_actions] always finishes.  When some keyword phrase is
    recognized at two positions, it raises the duplicate-statement parsing
    error instead of returning a map, and the error names a phrase that is
    recognized twice: the one whose second occurrence comes first.  When it
    does return a map, no phrase was recognized twice and the keys of the map
    are exactly the recognized phrases, each with its one body. *)
Theorem separate_actions_duplicates (tokens : list Token) :
  let acts := map fst (recognized_actions tokens) in
  (exists r, separate_actions tokens = Some r)
  /\ (forall X i j,
        i < j -> acts !! i = Some X -> acts !! j = Some X ->
        exists Y i' j',
          i' < j' /\ j' <= j /\ acts !! i' = Some Y /\ acts !! j' = Some Y
          /\ separate_actions tokens = Some (Raise (RBParsingError (duplicate_msg Y))))
  /\ (forall m,
        separate_actions tokens = Some (Ok m) ->
        NoDup acts /\ dom m = list_to_set acts).
Proof.
  intros acts.
  pose proof (separate_actions_loop_spec clause_patterns tokens clause_patterns_sizes
                (length tokens) ∅ None 0 0 (Nat.le_refl _)) as H.
  cbn [seen_actions] in H. rewrite dom_empty_L in H.
  fold (recognized_actions tokens) in H. fold acts in H.
  fold (separate_actions tokens) in H.
  destruct (first_dup ∅ acts) as [Y|] eqn:Hdup.
  - destruct (first_dup_Some _ _ _ Hdup) as (j' & Hj' & Hnd & _ & HY).
    destruct HY as [HY|HY]; [set_solver|].
    apply elem_of_take in HY as (i' & Hi' & Hlt).
    split; [eauto|]. split.
    + intros X i j Hij Hi Hj. exists Y, i', j'. repeat split; try assumption.
      destruct (Nat.le_gt_cases j' j) as [|Hgt]; [assumption|exfalso].
      assert (i = j); [|lia].
      apply (NoDup_lookup (take j' acts) i j X Hnd); apply lookup_take_Some; split;
        try assumption; lia.
    + intros m Hm. congruence.
  - destruct H as (m & Hm & Hdom).
    pose proof (first_dup_None _ _ Hdup) as Hnd.
    split; [eauto|]. split.
    + intros X i j Hij Hi Hj. exfalso.
      assert (i = j) by (apply (NoDup_lookup acts i j X Hnd); assumption). lia.
    + intros m' Hm'. split; [assumption|]. rewrite Hm in Hm'. injection Hm' as <-.
      rewrite Hdom. set_solver.
Qed.

(** A repeated SELECT, and a query whose clauses are all different. *)
Example separate_actions_repeated_select :
  separate_actions (lex_query [py "select a1 where a2 select a3"])
  = Some (Raise (RBParsingError (duplicate_msg (py "SELECT"))))
  /\ map fst (recognized_actions (lex_query [py "select a1 where a2 order by a3"]))
     = [py "SELECT"; py "WHERE"; py "ORDER BY"].
Proof. vm_compute. auto. Qed.

(** ** Clause splitter: recognition of a phrase *)

Lemma consume_patterns_find (patterns : list Pattern) (tokens : list Token) (idx : nat) :
  consume_patterns patterns tokens idx
  = match List.find (pattern_matches tokens idx) patterns with
    | Some p => (Some (text p), idx + psize p)
    | None => (None, idx + 1)
    end.
Proof.
  induction patterns as [|p patterns IH]; [reflexivity|].
  cbn [consume_patterns List.find]. unfold pattern_matches at 1, phrase_at.
  destruct (length tokens <=? idx + psize p)%nat; cbn [negb andb]; [exact IH|].
  destruct (bool_decide _); cbn [negb andb]; [|exact IH].
  destruct (bool_decide _); cbn [negb]; [reflexivity|exact IH].
Qed.

(** What [consume_action] recognizes: the first pattern of the list, which
    is ordered by decreasing length, whose phrase is spelled at [idx] and
    ends strictly before the end of the token list. *)
Lemma consume_action_recognizes (tokens : list Token) (idx : nat) (action : pystr)
    (i_next : nat) :
  consume_action clause_patterns tokens idx = (Some action, i_next) ->
  exists p, p ∈ clause_patterns
    /\ action = text p /\ i_next = idx + psize p
    /\ idx + psize p < length tokens
    /\ phrase_at p tokens idx = true.
Proof.
  unfold consume_action.
  destruct (tokens !! idx) as [t|]; [|discriminate].
  destruct (is_string_literal t); [discriminate|].
  rewrite consume_patterns_find.
  destruct (List.find _ _) as [p|] eqn:Hfind; [|discriminate].
  intros [= <- <-]. apply find_some in Hfind as [Hin Hm].
  exists p. unfold pattern_matches in Hm.
  apply andb_true_iff in Hm as [Hfit Hm].
  apply negb_true_iff, Nat.leb_gt in Hfit.
  repeat split; try assumption. apply list_elem_of_In. exact Hin.
Qed.

(** C2 (behaviour of the code at the end of the token list).  For the query
    [select distinct] the tokens at position 0 spell SELECT DISTINCT up to the
    end of the list, yet [consume_action] answers SELECT, and
    [separate_actions] files [distinct] as the body of SELECT; for the query
    [select] nothing is recognized.  With one more token after the phrase the
    longest phrase is recognized. *)
Theorem consume_action_phrase_at_end :
  let tokens := lex_query [py "select distinct"] in
  tokens = [mkToken ALPHANUM_RAW (py "select"); mkToken WHITESPACE (py " ");
            mkToken ALPHANUM_RAW (py "distinct")]
  /\ phrase_at (new_Pattern (py "SELECT DISTINCT")) tokens 0 = true
  /\ consume_action clause_patterns tokens 0 = (Some (py "SELECT"), 1)
  /\ separate_actions tokens
     = Some (Ok {[ py "SELECT" := [mkToken ALPHANUM_RAW (py "distinct")] ]})
  /\ phrase_at (new_Pattern (py "SELECT")) (lex_query [py "select"]) 0 = true
  /\ consume_action clause_patterns (lex_query [py "select"]) 0 = (None, 1)
  /\ separate_actions (lex_query [py "select"]) = Some (Ok ∅)
  /\ consume_action clause_patterns (lex_query [py "select distinct a1"]) 0
     = (Some (py "SELECT DISTINCT"), 3).
Proof. vm_compute. repeat split; reflexivity. Qed.

(** ** Join loader and LEFT JOIN *)

Lemma read_join_table_loop_max (DLM : ascii) (rhs : Z) (lines : list pystr) :
  forall il result m0 data m,
    read_join_table_loop DLM rhs lines il result m0 = Ok (data, m) ->
    m = Nat.max m0 (max_field_count DLM lines).
Proof.
  induction lines as [|ln lines IH]; intros il result m0 data m H.
  - simpl in H. injection H as <- <-. unfold max_field_count. simpl. lia.
  - cbn [read_join_table_loop] in H.
    destruct (rbql_getitem _ rhs) as [key|e]; [|destruct e; discriminate].
    destruct (bool_decide _); [discriminate|].
    apply IH in H. rewrite H. unfold max_field_count. cbn [map foldr]. lia.
Qed.

Lemma new_joiner_inv (fs : pystr -> option pystr) (DLM : ascii) (rhs : Z)
    (jt : joiner_type) (path : pystr) (j : joiner) :
  new_joiner fs DLM rhs jt path = Some (Ok (Some j)) ->
  jtype j = jt
  /\ exists content,
       fs path = Some content
       /\ fields_max_len j = max_field_count DLM (records_of ch_lf content).
Proof.
  unfold new_joiner, read_join_table.
  assert (Hgen : match fs path with
                 | Some src_text =>
                     match rows src_text 1024 [ch_lf] with
                     | Some lines => Some (read_join_table_loop DLM rhs lines 1 ∅ 0)
                     | None => None
                     end
                 | None =>
                     Some (Raise (RbqlRuntimeError
                                    (py "Table B: " ++ path ++ py " is not accessible")))
                 end
                 = match fs path with
                   | Some src_text =>
                       Some (read_join_table_loop DLM rhs (records_of ch_lf src_text) 1 ∅ 0)
                   | None =>
                       Some (Raise (RbqlRuntimeError
                                      (py "Table B: " ++ path ++ py " is not accessible")))
                   end).
  { destruct (fs path); [|reflexivity]. rewrite rows_records_of by lia. reflexivity. }
  destruct jt; [discriminate| | |]; rewrite Hgen;
    (destruct (fs path) as [content|]; [|discriminate]);
    (destruct (read_join_table_loop _ _ _ _ _ _) as [[data m]|e] eqn:Hloop; [|discriminate]);
    intros [= <-]; (split; [reflexivity|]); exists content; (split; [reflexivity|]);
    apply read_join_table_loop_max in Hloop; simpl; lia.
Qed.

Lemma try_record_left_join {K : Type} (P : py_meta_params K) (j : joiner)
    (NR : nat) (ln : pystr) :
  jtype j = LeftJoiner ->
  (exists e, try_record P (Some j) NR ln = (false, Raise e))
  \/ (exists r, try_record P (Some j) NR ln = (true, r)).
Proof.
  intros Hj. unfold try_record, join_step.
  destruct (rbql_getitem _ (lhs_join_var P)) as [key|e]; cbn [bind]; [|eauto].
  unfold joiner_get. rewrite Hj. cbn [bind]. eauto.
Qed.

Lemma rb_transform_loop_left_join {K : Type} (P : py_meta_params K) (j : joiner)
    (Hj : jtype j = LeftJoiner) (records : list pystr) :
  forall NR st st',
    rb_transform_loop P (Some j) records NR st = (st', Ok tt) ->
    where_count st' = where_count st + length records.
Proof.
  induction records as [|ln records IH]; intros NR st st' H.
  - simpl in H. injection H as <-. simpl. lia.
  - cbn [rb_transform_loop] in H.
    destruct (process_record P (Some j) st NR ln) as [st1 [[]|e]] eqn:Hp; [|discriminate].
    apply IH in H. rewrite H. cbn [length].
    enough (where_count st1 = S (where_count st)) by lia.
    unfold process_record in Hp.
    destruct (try_record_left_join P j NR ln Hj) as [(e & Ht)|(r & Ht)]; rewrite Ht in Hp.
    + discriminate.
    + destruct r as [[| |k rec|rec]|e]; injection Hp as <-; reflexivity.
Qed.

(** C4. For a LEFT JOIN joiner built from the B table: [fields_max_len] is
    the largest field count of a B record; a key that is not in the B index
    gets a list of [fields_max_len] NULLs, each of which is [None] when
    projected as [bfields[i]] and is rendered [None] by [str6].  That list is
    what the join step hands on: for an A record whose key is not in the B
    index the WHERE and SELECT expressions are evaluated with [bfields] bound
    to it and [star_line] to the record followed by [fields_max_len] times
    [None].  So the join step never skips a record, and in a run that
    finishes the WHERE test is reached once per A record. *)
Theorem left_join_null_fill {K : Type} (P : py_meta_params K)
    (fs : pystr -> option pystr) (j : joiner) (records : list pystr)
    (st st' : exec_state K)
    (Hj : new_joiner fs (dlm P) (rhs_join_var P) LeftJoiner (rhs_table_path P)
          = Some (Ok (Some j)))
    (Hrun : rb_transform_loop P (Some j) records 1 st = (st', Ok tt)) :
  (exists content,
     fs (rhs_table_path P) = Some content
     /\ fields_max_len j = max_field_count (dlm P) (records_of ch_lf content))
  /\ (forall lhs_key,
        join_data j !! lhs_key = None ->
        exists bfields,
          joiner_get j lhs_key = Ok (Some bfields)
          /\ length (items bfields) = fields_max_len j
          /\ Forall (fun v => v = PNone /\ str6 v = py "None") (items bfields)
          /\ (forall i, i < fields_max_len j -> getitem bfields (Z.of_nat i) = Ok PNone)
          /\ map str6 (items bfields) = replicate (fields_max_len j) (py "None"))
  /\ (forall NR ln lhs_key,
        a_key P ln = Ok lhs_key ->
        join_data j !! lhs_key = None ->
        try_record P (Some j) NR ln
        = (true,
           where_select_step P
             (mkRowContext NR (length (a_fields P ln))
                (rbql_list (map PStr (a_fields P ln)))
                (Some (plain_list (replicate (fields_max_len j) PNone)))
                (join_str [dlm P]
                   (strip_eol ln :: replicate (fields_max_len j) (py "None")))
                (strip_eol ln))))
  /\ (forall NR ln, snd (try_record P (Some j) NR ln) <> Ok ContinueJoin)
  /\ (forall records0 NR0 st0 st0',
        rb_transform_loop P (Some j) records0 NR0 st0 = (st0', Ok tt) ->
        where_count st0' = where_count st0 + length records0)
  /\ where_count st' = where_count st + length records.
Proof.
  destruct (new_joiner_inv _ _ _ _ _ _ Hj) as (Hjt & content & Hfs & Hmax).
  split; [eauto|]. split; [|split; [|split; [|split]]].
  - intros lhs_key Hkey. unfold joiner_get. rewrite Hjt, Hkey.
    eexists. split; [reflexivity|]. cbn [items]. split; [apply length_replicate|].
    split; [apply Forall_replicate; split; reflexivity|]. split.
    + intros i Hi. cbn [getitem]. unfold list_getitem.
      destruct (Z.leb_spec 0 (Z.of_nat i)) as [_|Hneg]; [|lia].
      rewrite Nat2Z.id, lookup_replicate_2 by exact Hi. reflexivity.
    + exact (fmap_replicate str6 (fields_max_len j) PNone).
  - intros NR ln lhs_key Hkey Hnone. unfold a_key, a_fields in Hkey.
    unfold try_record, join_step. rewrite Hkey. cbn [bind].
    unfold joiner_get. rewrite Hjt, Hnone. cbn [bind items].
    unfold a_fields.
    rewrite (fmap_replicate str6 (fields_max_len j) PNone : map str6 _ = _). reflexivity.
  - intros NR ln.
    destruct (try_record_left_join P j NR ln Hjt) as [(e & ->)|(r & Ht)]; [discriminate|].
    rewrite Ht. simpl. intros ->.
    unfold try_record, join_step in Ht.
    destruct (rbql_getitem _ (lhs_join_var P)) as [key|e]; cbn [bind] in Ht; [|discriminate].
    unfold joiner_get in Ht. rewrite Hjt in Ht. cbn [bind] in Ht.
    injection Ht as Ht. unfold where_select_step in Ht.
    destruct (where_expression P _) as [w|e]; cbn [bind] in Ht; [|discriminate].
    destruct (negb (truthy w)); [discriminate|].
    destruct (select_expression P _) as [o|e]; cbn [bind] in Ht; [|discriminate].
    destruct (sort_flag P); [|discriminate].
    destruct (sort_key_expression P _); discriminate.
  - intros records0 NR0 st0 st0'. apply rb_transform_loop_left_join. exact Hjt.
  - exact (rb_transform_loop_left_join P j Hjt records 1 st st' Hrun).
Qed.

Lemma left_join_null_fill_witness :
  exists st',
    new_joiner fs_table_B (dlm (plan_join_a1_b2 LeftJoiner))
      (rhs_join_var (plan_join_a1_b2 LeftJoiner)) LeftJoiner
      (rhs_table_path (plan_join_a1_b2 LeftJoiner)) = Some (Ok (Some joiner_table_B))
    /\ rb_transform_loop (plan_join_a1_b2 LeftJoiner) (Some joiner_table_B)
         [py "x"; py "z"] 1 (mkState [] (new_writer SimpleWriter []) 0) = (st', Ok tt)
    /\ dst (out st')
       = py "x" ++ [ch_tab] ++ py "y" ++ [ch_lf] ++ py "z" ++ [ch_tab] ++ py "None" ++ [ch_lf]
    /\ where_count st' = 0 + 2.
Proof.
  exists (fst (rb_transform_loop (plan_join_a1_b2 LeftJoiner) (Some joiner_table_B)
                 [py "x"; py "z"] 1 (mkState [] (new_writer SimpleWriter []) 0))).
  assert (Hj : new_joiner fs_table_B (dlm (plan_join_a1_b2 LeftJoiner))
                 (rhs_join_var (plan_join_a1_b2 LeftJoiner)) LeftJoiner
                 (rhs_table_path (plan_join_a1_b2 LeftJoiner))
               = Some (Ok (Some joiner_table_B))) by (vm_compute; reflexivity).
  assert (Hrun : rb_transform_loop (plan_join_a1_b2 LeftJoiner) (Some joiner_table_B)
                   [py "x"; py "z"] 1 (mkState [] (new_writer SimpleWriter []) 0)
                 = (fst (rb_transform_loop (plan_join_a1_b2 LeftJoiner)
                           (Some joiner_table_B) [py "x"; py "z"] 1
                           (mkState [] (new_writer SimpleWriter []) 0)), Ok tt))
    by (vm_compute; reflexivity).
  split; [exact Hj|]. split; [exact Hrun|]. split; [vm_compute; reflexivity|].
  exact (proj2 (proj2 (proj2 (proj2 (proj2
           (left_join_null_fill (plan_join_a1_b2 LeftJoiner) fs_table_B joiner_table_B
              [py "x"; py "z"] (mkState [] (new_writer SimpleWriter []) 0) _ Hj Hrun)))))).
Defined.

(** The WHERE clause of test 7 of the source sees all seven A records; the
    two whose key is not in B get [None] in every B column. *)
Example left_join_unmatched_row :
  joiner_get joiner_table_B (py "magic carpet") = Ok (Some (plain_list [PNone; PNone]))
  /\ map str6 [PNone; PNone] = [py "None"; py "None"].
Proof. vm_compute. auto. Qed.

(** ** Bad field indices *)

Lemma rbql_getitem_out_of_range {A : Type} (l : list A) (idx : Z) :
  (Z.of_nat (length l) <= idx \/ idx < - Z.of_nat (length l))%Z ->
  rbql_getitem l idx = Raise (BadFieldError idx).
Proof.
  intros H. unfold rbql_getitem, list_getitem.
  destruct (0 <=? idx)%Z eqn:E0.
  - apply Z.leb_le in E0.
    rewrite (proj2 (lookup_ge_None l (Z.to_nat idx))); [reflexivity|lia].
  - apply Z.leb_gt in E0.
    destruct (- Z.of_nat (length l) <=? idx)%Z eqn:E1; [|reflexivity].
    apply Z.leb_le in E1. lia.
Qed.

(** Indexing [fields], or the [bfields] of a matched B row, out of range
    raises [BadFieldError] with the index used. *)
Lemma rbql_list_bad_field (ctx : RowContext) (row : list pyval) (idx : Z) :
  (Z.of_nat (length row) <= idx)%Z ->
  (fields ctx = rbql_list row -> get_field ctx idx = Raise (BadFieldError idx))
  /\ (bfields ctx = Some (rbql_list row) -> get_bfield ctx idx = Raise (BadFieldError idx)).
Proof.
  intros H. unfold get_field, get_bfield.
  split; intros ->; cbn [getitem]; apply rbql_getitem_out_of_range; auto.
Qed.

(** The executor reports every [BadFieldError] as a missing A column. *)
Lemma bad_field_reported_as_a_column {K : Type} (P : py_meta_params K)
    (joiner : option joiner) (st : exec_state K) (NR : nat) (ln : pystr)
    (reached : bool) (bad_idx : Z) :
  try_record P joiner NR ln = (reached, Raise (BadFieldError bad_idx)) ->
  snd (process_record P joiner st NR ln)
  = Raise (RbqlRuntimeError (bad_a_column_msg bad_idx NR)).
Proof. intros H. unfold process_record. rewrite H. reflexivity. Qed.

(** While the B table is loaded, a bad index is reported as a missing B
    column. *)
Lemma bad_b_index_while_loading (DLM : ascii) (rhs : Z) (ln : pystr) (rest : list pystr)
    (il : nat) (result : gmap pystr (list pystr)) (m : nat) :
  (Z.of_nat (length (split_char DLM (strip_eol ln))) <= rhs)%Z ->
  read_join_table_loop DLM rhs (ln :: rest) il result m
  = Raise (RbqlRuntimeError (bad_b_column_msg rhs il)).
Proof.
  intros H. cbn [read_join_table_loop].
  rewrite rbql_getitem_out_of_range by auto. reflexivity.
Qed.

(** C10 (behaviour of the code for an unmatched LEFT JOIN record).  With the
    B table [x<TAB>y] and the query [select b3 left join B on a1 == b1], the
    A record [x], which has a match, fails with the A-column message for
    index 2; the A record [k], which has none, gets the built-in list of
    NULLs, whose out-of-range access is a plain [IndexError] and is reported
    by the generic handler. *)
Theorem bfields_index_error_left_join :
  option_map snd (rb_transform plan_left_join_b3 fs_table_B (py "x" ++ [ch_lf]) [])
  = Some (Raise (RbqlRuntimeError
                   (py "No " ++ [ch_dquote] ++ py "a3" ++ [ch_dquote] ++ py " column at line: 1")))
  /\ option_map snd (rb_transform plan_left_join_b3 fs_table_B (py "k" ++ [ch_lf]) [])
     = Some (Raise (RbqlRuntimeError
                      (py "Error at line: 1, Details: list index out of range"))).
Proof. vm_compute. split; reflexivity. Qed.

(** ** ORDER BY *)

Section StrictTotalOrder.

Context {A : Type} (lt : A -> A -> bool).
Hypothesis eq_dec : forall a b : A, {a = b} + {a <> b}.
Hypothesis lt_irrefl : forall a, lt a a = false.
Hypothesis lt_trans : forall a b c, lt a b = true -> lt b c = true -> lt a c = true.
Hypothesis lt_total : forall a b, a <> b -> lt a b = true \/ lt b a = true.

Lemma lt_asym (a b : A) : lt a b = true -> lt b a = false.
Proof.
  intros Hab. destruct (lt b a) eqn:Hba; [|reflexivity].
  rewrite <- (lt_irrefl a). symmetry. eapply lt_trans; eassumption.
Qed.

Local Instance not_after_trans : Transitive (not_after lt).
Proof.
  unfold not_after. intros a b c Hab Hbc.
  destruct (lt c a) eqn:Hca; [|reflexivity].
  destruct (lt a b) eqn:Hab'.
  - rewrite <- Hbc. symmetry. eapply lt_trans; eassumption.
  - assert (a = b) as ->; [|congruence].
    destruct (eq_dec a b) as [|Hne]; [assumption|].
    destruct (lt_total a b Hne); congruence.
Qed.

Local Instance not_after_antisym : AntiSymm (=) (not_after lt).
Proof.
  unfold not_after. intros a b Hab Hba.
  destruct (eq_dec a b) as [|Hne]; [assumption|].
  destruct (lt_total a b Hne); congruence.
Qed.

Lemma insert_sorted_perm (x : A) (l : list A) : Permutation (insert_sorted lt x l) (x :: l).
Proof.
  induction l as [|y l IH]; simpl; [reflexivity|].
  destruct (lt y x); [|reflexivity].
  rewrite IH. apply perm_swap.
Qed.

Lemma insert_sorted_hd (x y : A) (l : list A) :
  not_after lt y x -> HdRel (not_after lt) y l -> HdRel (not_after lt) y (insert_sorted lt x l).
Proof.
  intros Hyx Hl. destruct l as [|z l]; simpl; [constructor; assumption|].
  destruct (lt z x); constructor; [|assumption].
  inversion Hl; assumption.
Qed.

Lemma insert_sorted_sorted (x : A) (l : list A) :
  Sorted (not_after lt) l -> Sorted (not_after lt) (insert_sorted lt x l).
Proof.
  induction 1 as [|y l Hl IH Hhd]; simpl; [repeat constructor|].
  destruct (lt y x) eqn:Hyx.
  - constructor; [assumption|]. apply insert_sorted_hd; [|assumption].
    unfold not_after. apply lt_asym. assumption.
  - constructor; [constructor; assumption|]. constructor. exact Hyx.
Qed.

Lemma stable_sort_perm (l : list A) : Permutation (stable_sort lt l) l.
Proof.
  induction l as [|x l IH]; simpl; [reflexivity|].
  rewrite insert_sorted_perm, IH. reflexivity.
Qed.

Lemma stable_sort_sorted (l : list A) : Sorted (not_after lt) (stable_sort lt l).
Proof.
  induction l as [|x l IH]; simpl; [constructor|].
  apply insert_sorted_sorted, IH.
Qed.

(** Sorting the reversed list gives the same list: with [reverse=True] the
    result is the ascending one read backwards. *)
Lemma py_sorted_reverse (l : list A) : py_sorted lt true l = rev (py_sorted lt false l).
Proof.
  unfold py_sorted. f_equal.
  apply (Sorted_unique (not_after lt)); try apply stable_sort_sorted.
  rewrite !stable_sort_perm. symmetry. apply Permutation_rev.
Qed.

Lemma sorted_lookup_not_after (l : list A) (i j : nat) (a b : A) :
  Sorted (not_after lt) l -> i < j -> l !! i = Some a -> l !! j = Some b ->
  not_after lt a b.
Proof.
  intros Hs. apply Sorted_StronglySorted in Hs; [|apply not_after_trans].
  revert i j. induction Hs as [|x l Hs IH Hall]; intros i j Hij Hi Hj.
  - rewrite lookup_nil in Hi. discriminate.
  - destruct j as [|j]; [lia|]. destruct i as [|i]; simpl in Hi, Hj.
    + injection Hi as <-. rewrite List.Forall_forall in Hall.
      apply Hall. apply list_elem_of_In. eapply list_elem_of_lookup_2. eassumption.
    + apply (IH i j); [lia|assumption|assumption].
Qed.

End StrictTotalOrder.

Lemma str_ltb_cons (x y : ascii) (a b : pystr) :
  str_ltb (x :: a) (y :: b) = true
  <-> nat_of_ascii x < nat_of_ascii y \/ (x = y /\ str_ltb a b = true).
Proof.
  cbn [str_ltb].
  destruct (Nat.ltb_spec (nat_of_ascii x) (nat_of_ascii y)) as [Hlt|Hge].
  - split; auto.
  - destruct (Ascii.eqb_spec x y) as [->|Hne].
    + split; [auto|]. intros [?|[_ ?]]; [lia|assumption].
    + split; [discriminate|]. intros [?|[? _]]; [lia|contradiction].
Qed.

Lemma str_ltb_irrefl (a : pystr) : str_ltb a a = false.
Proof.
  induction a as [|x a IH]; [reflexivity|].
  destruct (str_ltb (x :: a) (x :: a)) eqn:E; [|reflexivity].
  apply str_ltb_cons in E as [?|[_ ?]]; [lia|congruence].
Qed.

Lemma str_ltb_trans (a : pystr) :
  forall b c, str_ltb a b = true -> str_ltb b c = true -> str_ltb a c = true.
Proof.
  induction a as [|x a IH]; intros b c Hab Hbc.
  - destruct c; [destruct b; discriminate|reflexivity].
  - destruct b as [|y b]; [discriminate|]. destruct c as [|z c]; [discriminate|].
    apply str_ltb_cons in Hab, Hbc. apply str_ltb_cons.
    destruct Hab as [?|[-> Hab]], Hbc as [?|[-> Hbc]]; eauto with lia.
Qed.

Lemma str_ltb_total (a : pystr) :
  forall b, a <> b -> str_ltb a b = true \/ str_ltb b a = true.
Proof.
  induction a as [|x a IH]; intros b Hne.
  - destruct b; [congruence|]. left. reflexivity.
  - destruct b as [|y b]; [right; reflexivity|].
    rewrite !str_ltb_cons.
    destruct (Nat.lt_trichotomy (nat_of_ascii x) (nat_of_ascii y)) as [?|[Heq|?]]; auto.
    assert (x = y) as ->.
    { rewrite <- (ascii_nat_embedding x), <- (ascii_nat_embedding y), Heq. reflexivity. }
    destruct (IH b) as [?|?]; [congruence|auto|auto].
Qed.

Global Instance PyOrdLaws_Z : PyOrdLaws Z.
Proof.
  split; cbn [py_eq py_lt PyOrd_Z].
  - apply Z.eqb_eq.
  - apply Z.ltb_irrefl.
  - intros a b c. rewrite !Z.ltb_lt. lia.
  - intros a b. rewrite !Z.ltb_lt. lia.
Qed.

Global Instance PyOrdLaws_str : PyOrdLaws pystr.
Proof.
  split; cbn [py_eq py_lt PyOrd_str].
  - intros a b. unfold str_eqb. apply bool_decide_eq_true.
  - apply str_ltb_irrefl.
  - apply str_ltb_trans.
  - apply str_ltb_total.
Qed.

Section EntryOrder.

Context {K : Type} `{PyOrdLaws K}.

Lemma entry_eq_dec (a b : K * pystr) : {a = b} + {a <> b}.
Proof.
  destruct a as [k1 s1], b as [k2 s2].
  destruct (py_eq k1 k2) eqn:E.
  - apply py_eq_spec in E. subst k2.
    destruct (decide (s1 = s2)) as [->|Hne]; [left; reflexivity|right; congruence].
  - right. intros [= Hk _]. apply py_eq_spec in Hk. congruence.
Qed.

Lemma entry_lt_spec (a b : K * pystr) :
  entry_lt a b = true
  <-> (fst a = fst b /\ str_ltb (snd a) (snd b) = true)
      \/ (fst a <> fst b /\ py_lt (fst a) (fst b) = true).
Proof.
  unfold entry_lt. destruct (py_eq (fst a) (fst b)) eqn:E.
  - apply py_eq_spec in E. split; [auto|]. intros [[_ ?]|[? _]]; [assumption|contradiction].
  - assert (fst a <> fst b) by (intros Heq; apply py_eq_spec in Heq; congruence).
    split; [auto|]. intros [[? _]|[_ ?]]; [contradiction|assumption].
Qed.

Lemma entry_lt_irrefl (a : K * pystr) : entry_lt a a = false.
Proof.
  destruct (entry_lt a a) eqn:E; [|reflexivity].
  apply entry_lt_spec in E as [[_ E]|[E _]]; [|contradiction].
  rewrite str_ltb_irrefl in E. discriminate.
Qed.

Lemma entry_lt_trans (a b c : K * pystr) :
  entry_lt a b = true -> entry_lt b c = true -> entry_lt a c = true.
Proof.
  rewrite !entry_lt_spec.
  intros [[Hab Sab]|[Hab Lab]] [[Hbc Sbc]|[Hbc Lbc]].
  - left. split; [congruence|]. eapply str_ltb_trans; eassumption.
  - right. rewrite Hab. auto.
  - right. rewrite <- Hbc. auto.
  - right. assert (Lac : py_lt (fst a) (fst c) = true) by (eapply py_lt_trans; eassumption).
    split; [|assumption]. intros Heq. rewrite Heq, py_lt_irrefl in Lac. discriminate.
Qed.

Lemma entry_lt_total (a b : K * pystr) :
  a <> b -> entry_lt a b = true \/ entry_lt b a = true.
Proof.
  intros Hne. rewrite !entry_lt_spec.
  destruct (py_eq (fst a) (fst b)) eqn:E.
  - apply py_eq_spec in E.
    destruct (str_ltb_total (snd a) (snd b)) as [?|?]; auto.
    intros Hs. apply Hne. destruct a, b; simpl in *; congruence.
  - assert (Hk : fst a <> fst b) by (intros Heq; apply py_eq_spec in Heq; congruence).
    destruct (py_lt_total _ _ Hk) as [?|?]; auto.
Qed.

End EntryOrder.

(** [parse_to_py] sets [reverse_flag] exactly for an ORDER BY expression that
    ends, in any case, with [ DESC]. *)
Lemma parse_order_by_reverse_flag (tokens : list Token) :
  fst (parse_order_by tokens)
  = endswith (upper (join_tokens (replace_column_vars tokens))) (py " DESC").
Proof.
  unfold parse_order_by.
  destruct (endswith (upper (join_tokens (replace_column_vars tokens))) (py " DESC"));
    reflexivity.
Qed.

(** After the loop, [rb_transform] writes the buffered records in the order
    of [sorted_records]. *)
Lemma write_sorted_writes {K : Type} `{PyOrd K} (P : py_meta_params K) (st : exec_state K) :
  out (write_sorted P st)
  = fold_left writer_write (sorted_records (reverse_flag P) (unsorted_entries st)) (out st).
Proof.
  unfold write_sorted. destruct (unsorted_entries st) eqn:E.
  - destruct (reverse_flag P); reflexivity.
  - reflexivity.
Qed.

(** C1, as stated, fails: for [select a1 order by 1] over the records [b],
    [a] every sort key is 1, yet the code writes [a] before [b]; a stable
    sort by the key alone would keep the insertion order [b], [a]. *)
Lemma order_by_ties_not_in_insertion_order :
  sorted_records false [(1, py "b"); (1, py "a")]%Z = [py "a"; py "b"]
  /\ stable_by_key_records false [(1, py "b"); (1, py "a")]%Z = [py "b"; py "a"]
  /\ sorted_records false [(1, py "b"); (1, py "a")]%Z
     <> stable_by_key_records false [(1, py "b"); (1, py "a")]%Z
  /\ option_map (fun r => (unsorted_entries (fst r), dst (out (fst r)), snd r))
       (rb_transform plan_order_by_constant (fun _ => None)
          (py "b" ++ [ch_lf] ++ py "a" ++ [ch_lf]) [])
     = Some ([(1, py "b"); (1, py "a")]%Z, py "a" ++ [ch_lf] ++ py "b" ++ [ch_lf], Ok tt).
Proof.
  split; [vm_compute; reflexivity|]. split; [vm_compute; reflexivity|].
  split; [vm_compute; discriminate|]. vm_compute. reflexivity.
Qed.

(* ================================================================== *)
(** * Part III. Further properties *)
(* ================================================================== *)

(** ** Splitting, joining and the table helpers *)

Lemma split_join_str (c : ascii) (parts : list pystr) :
  parts <> [] -> Forall (fun p => c ∉ p) parts ->
  split_char c (join_str [c] parts) = parts.
Proof.
  intros Hne Hall. induction Hall as [|p parts Hp Hall IH]; [congruence|].
  destruct parts as [|q parts].
  - apply split_char_no_sep. exact Hp.
  - change (join_str [c] (p :: q :: parts)) with (p ++ c :: join_str [c] (q :: parts)).
    rewrite split_char_app_sep by exact Hp. rewrite IH by discriminate. reflexivity.
Qed.

Lemma records_of_lines (c : ascii) (ls : list pystr) :
  ls <> [] -> Forall (fun l => c ∉ l) ls ->
  records_of c (join_str [c] ls ++ [c]) = ls.
Proof.
  intros Hne Hall. induction Hall as [|l ls Hl Hall IH]; [congruence|].
  destruct ls as [|l' ls].
  - cbn [join_str]. rewrite (records_of_app_sep c l [] Hl). reflexivity.
  - change (join_str [c] (l :: l' :: ls) ++ [c])
      with ((l ++ c :: join_str [c] (l' :: ls)) ++ [c]).
    rewrite <- app_assoc. cbn [app].
    rewrite (records_of_app_sep c l _ Hl), IH by discriminate. reflexivity.
Qed.

Lemma join_str_no_char (c d : ascii) (row : list pystr) :
  c <> d -> Forall (fun f => c ∉ f) row -> c ∉ join_str [d] row.
Proof.
  intros Hcd Hall. induction Hall as [|f row Hf Hall IH]; [apply not_elem_of_nil|].
  destruct row as [|g row]; [exact Hf|].
  change (join_str [d] (f :: g :: row)) with (f ++ d :: join_str [d] (g :: row)).
  rewrite elem_of_app, elem_of_cons. intros [?|[?|?]]; [auto|congruence|auto].
Qed.

Lemma rstrip_by_no_match (p : ascii -> bool) (s : pystr) :
  Forall (fun x => p x = false) s -> rstrip_by p s = s.
Proof.
  induction 1 as [|x s Hx _ IH]; [reflexivity|].
  cbn [rstrip_by]. rewrite IH, Hx. destruct s; reflexivity.
Qed.

Lemma strip_eol_no_eol (l : pystr) : ch_cr ∉ l -> ch_lf ∉ l -> strip_eol l = l.
Proof.
  intros Hcr Hlf. apply rstrip_by_no_match.
  apply List.Forall_forall. intros x Hx. apply list_elem_of_In in Hx.
  unfold in_chars. cbn [existsb].
  destruct (Ascii.eqb_spec x ch_cr) as [->|_]; [contradiction|].
  destruct (Ascii.eqb_spec x ch_lf) as [->|_]; [contradiction|].
  reflexivity.
Qed.

(** X1. A table written by [table_to_string] and read back the way the
    executor reads its input ([rows], end-of-line stripping, split at the
    delimiter) is the table again, when no row is empty, no field holds the
    delimiter, a line feed or a carriage return, and the delimiter is neither
    of the two. *)
Theorem table_to_string_read_back (array2d : list (list pystr)) (delim : ascii)
    (chunksize : nat)
    (Hchunk : 0 < chunksize)
    (Hdelim : delim <> ch_lf /\ delim <> ch_cr)
    (Hrows : Forall (fun row => row <> []
                      /\ Forall (fun f => (delim ∉ f) /\ (ch_lf ∉ f) /\ (ch_cr ∉ f)) row)
               array2d) :
  rows (table_to_string array2d [delim]) chunksize [ch_lf]
  = Some (map (join_str [delim]) array2d)
  /\ map (fun l => split_char delim (strip_eol l)) (map (join_str [delim]) array2d)
     = array2d.
Proof.
  destruct Hdelim as [Hlf Hcr].
  assert (Hlines : Forall (fun l => (ch_lf ∉ l) /\ (ch_cr ∉ l)) (map (join_str [delim]) array2d)).
  { apply Forall_fmap. eapply Forall_impl; [exact Hrows|].
    intros row [_ Hrow]. cbn. split; apply join_str_no_char; try congruence;
      eapply Forall_impl; try exact Hrow; cbn; tauto. }
  split.
  - rewrite rows_records_of by assumption. f_equal.
    unfold table_to_string. destruct array2d as [|row array2d]; [reflexivity|].
    apply records_of_lines; [discriminate|].
    eapply Forall_impl; [exact Hlines|]. cbn. tauto.
  - rewrite map_map. rewrite <- (map_id array2d) at 2.
    apply map_ext_Forall. apply List.Forall_forall. intros row Hin.
    rewrite List.Forall_forall in Hrows. destruct (Hrows row Hin) as [Hne Hrow].
    rewrite strip_eol_no_eol.
    + apply split_join_str; [exact Hne|].
      eapply Forall_impl; [exact Hrow|]. cbn. tauto.
    + apply join_str_no_char; [congruence|].
      eapply Forall_impl; [exact Hrow|]. cbn. tauto.
    + apply join_str_no_char; [congruence|].
      eapply Forall_impl; [exact Hrow|]. cbn. tauto.
Qed.

Lemma table_to_string_read_back_witness :
  rows (table_to_string [[py "5"; py "haha"]; [py ""; py "x y"]] [ch_tab]) 3 [ch_lf]
  = Some (map (join_str [ch_tab]) [[py "5"; py "haha"]; [py ""; py "x y"]])
  /\ map (fun l => split_char ch_tab (strip_eol l))
       (map (join_str [ch_tab]) [[py "5"; py "haha"]; [py ""; py "x y"]])
     = [[py "5"; py "haha"]; [py ""; py "x y"]].
Proof.
  apply (table_to_string_read_back [[py "5"; py "haha"]; [py ""; py "x y"]] ch_tab 3).
  - lia.
  - split; discriminate.
  - repeat constructor; try discriminate;
      intros Hin; repeat (apply elem_of_cons in Hin as [Hin|Hin]; [discriminate|]);
      inversion Hin.
Defined.

(** ** Writers *)

Lemma first_occurrences_spec (l : list pystr) :
  forall seen,
    NoDup (first_occurrences seen l)
    /\ (forall r, r ∈ first_occurrences seen l <-> r ∈ l /\ r ∉ seen)
    /\ sublist (first_occurrences seen l) l.
Proof.
  induction l as [|x l IH]; intros seen; cbn [first_occurrences].
  - split; [constructor|]. split; [|constructor].
    intros r. rewrite elem_of_nil. tauto.
  - destruct (bool_decide_reflect (x ∈ seen)) as [Hx|Hx].
    + destruct (IH seen) as (Hnd & Hin & Hsub).
      split; [exact Hnd|]. split; [|apply sublist_cons; exact Hsub].
      intros r. rewrite Hin, elem_of_cons. split; [tauto|].
      intros [[->|?] ?]; [contradiction|tauto].
    + destruct (IH ({[x]} ∪ seen)) as (Hnd & Hin & Hsub).
      split; [|split; [|apply sublist_skip; exact Hsub]].
      * apply NoDup_cons. split; [|exact Hnd]. rewrite Hin. set_solver.
      * intros r. rewrite !elem_of_cons, Hin.
        destruct (decide (r = x)) as [->|Hne]; [tauto|set_solver].
Qed.

Lemma uniq_writer_fold (rs : list pystr) :
  forall w, wtype w = UniqWriter ->
    dst (fold_left writer_write rs w) = dst w ++ lines_text (first_occurrences (seen w) rs)
    /\ seen (fold_left writer_write rs w) = seen w ∪ list_to_set rs.
Proof.
  induction rs as [|r rs IH]; intros w Hw.
  - simpl. rewrite app_nil_r. split; [reflexivity|set_solver].
  - cbn [fold_left first_occurrences]. unfold writer_write at 2 4. rewrite Hw.
    destruct (bool_decide_reflect (r ∈ seen w)) as [Hr|Hr].
    + destruct (IH w Hw) as [-> ->]. split; [reflexivity|]. cbn [list_to_set]. set_solver.
    + destruct (IH (mkWriter UniqWriter (dst w ++ r ++ [ch_lf]) ({[r]} ∪ seen w)) eq_refl)
        as [-> ->].
      cbn [dst seen]. split.
      * unfold lines_text. cbn [map concat]. rewrite <- !app_assoc. reflexivity.
      * cbn [list_to_set]. set_solver.
Qed.

Lemma simple_writer_fold (rs : list pystr) :
  forall w, wtype w = SimpleWriter ->
    dst (fold_left writer_write rs w) = dst w ++ lines_text rs.
Proof.
  induction rs as [|r rs IH]; intros w Hw.
  - simpl. rewrite app_nil_r. reflexivity.
  - cbn [fold_left]. unfold writer_write at 2. rewrite Hw.
    rewrite IH by reflexivity. cbn [dst].
    unfold lines_text. cbn [map concat]. rewrite <- !app_assoc. reflexivity.
Qed.

(** X2. A [SimpleWriter] appends every record it is given, each followed by
    a line feed.  A fresh [UniqWriter] appends each distinct record once, at
    its first occurrence and in that order: what it writes has no duplicate,
    holds exactly the records given, and is a subsequence of them. *)
Theorem writers_output (destination : pystr) (records : list pystr) :
  dst (fold_left writer_write records (new_writer SimpleWriter destination))
  = destination ++ lines_text records
  /\ dst (fold_left writer_write records (new_writer UniqWriter destination))
     = destination ++ lines_text (first_occurrences ∅ records)
  /\ NoDup (first_occurrences ∅ records)
  /\ (forall r, r ∈ first_occurrences ∅ records <-> r ∈ records)
  /\ sublist (first_occurrences ∅ records) records.
Proof.
  split; [apply simple_writer_fold; reflexivity|].
  split; [apply (uniq_writer_fold records (new_writer UniqWriter destination)); reflexivity|].
  destruct (first_occurrences_spec records ∅) as (Hnd & Hin & Hsub).
  split; [exact Hnd|]. split; [|exact Hsub].
  intros r. rewrite Hin. set_solver.
Qed.

(** ** Comment stripping: what the result looks like *)

Lemma rstrip_by_split (p : ascii -> bool) (s : pystr) :
  exists suf, s = rstrip_by p s ++ suf /\ Forall (fun x => p x = true) suf.
Proof.
  induction s as [|x s (suf & Hs & Hsuf)]; [exists []; split; [reflexivity|constructor]|].
  cbn [rstrip_by]. destruct (rstrip_by p s) as [|y r] eqn:Hr.
  - destruct (p x) eqn:Hx.
    + exists (x :: s). split; [reflexivity|]. simpl in Hs. subst suf.
      constructor; assumption.
    + exists s. split; [reflexivity|]. simpl in Hs. subst suf. assumption.
  - exists suf. split; [|assumption]. cbn [app] in *. congruence.
Qed.

Lemma rstrip_by_last (p : ascii -> bool) (s : pystr) (x : ascii) :
  last (rstrip_by p s) = Some x -> p x = false.
Proof.
  induction s as [|y s IH]; [discriminate|].
  cbn [rstrip_by]. destruct (rstrip_by p s) as [|z r] eqn:Hr.
  - destruct (p y) eqn:Hy; [discriminate|]. intros [= <-]. exact Hy.
  - intros H. apply IH. exact H.
Qed.

Lemma rstrip_by_fixed (p : ascii -> bool) (s : pystr) :
  (forall x, last s = Some x -> p x = false) -> rstrip_by p s = s.
Proof.
  induction s as [|y s IH]; [reflexivity|]. intros H.
  cbn [rstrip_by]. destruct s as [|z s].
  - cbn [rstrip_by]. rewrite (H y eq_refl). reflexivity.
  - rewrite IH; [reflexivity|]. intros x Hx. apply H. exact Hx.
Qed.

Lemma replace_char_fixed (a b : ascii) (s : pystr) : a ∉ s -> replace_char a b s = s.
Proof.
  induction s as [|x s IH]; [reflexivity|]. intros H.
  apply not_elem_of_cons in H as [Hx Hs]. cbn [replace_char map].
  destruct (Ascii.eqb_spec x a) as [->|_]; [congruence|].
  f_equal. apply IH. exact Hs.
Qed.

Lemma replace_char_gone (a b : ascii) (s : pystr) : a <> b -> a ∉ replace_char a b s.
Proof.
  intros Hab. induction s as [|x s IH]; [apply not_elem_of_nil|].
  cbn [replace_char map]. apply not_elem_of_cons. split; [|exact IH].
  destruct (Ascii.eqb_spec x a); congruence.
Qed.

Lemma find_seq_Some (f : nat -> bool) (n : nat) :
  forall a k, List.find f (seq a n) = Some k ->
    a <= k < a + n /\ f k = true /\ forall j, a <= j < k -> f j = false.
Proof.
  induction n as [|n IH]; intros a k H; [discriminate|].
  cbn [seq List.find] in H. destruct (f a) eqn:Ha.
  - injection H as <-. repeat split; [lia|lia|assumption|]. intros j Hj. lia.
  - destruct (IH _ _ H) as (Hk & Hf & Hbefore).
    repeat split; [lia|lia|assumption|].
    intros j Hj. destruct (decide (j = a)) as [->|Hne]; [assumption|].
    apply Hbefore. lia.
Qed.

Lemma find_seq_None (f : nat -> bool) (n : nat) :
  forall a, List.find f (seq a n) = None <-> forall j, a <= j < a + n -> f j = false.
Proof.
  induction n as [|n IH]; intros a; cbn [seq List.find].
  - split; [|reflexivity]. intros _ j Hj. lia.
  - destruct (f a) eqn:Ha.
    + split; [discriminate|]. intros H. rewrite H in Ha by lia. discriminate.
    + rewrite IH. split; intros H j Hj.
      * destruct (decide (j = a)) as [->|Hne]; [assumption|]. apply H. lia.
      * apply H. lia.
Qed.

Lemma quote_before_ext (a b : pystr) (i : nat) :
  (forall j, j < i -> getc a j = getc b j) -> quote_before a i = quote_before b i.
Proof.
  induction i as [|i IH]; intros H; [reflexivity|].
  cbn [quote_before]. rewrite IH by (intros j Hj; apply H; lia).
  unfold escaped_at. rewrite !(H i), !(H (i - 1)), !(H (i - 2)) by lia. reflexivity.
Qed.

Lemma comment_start_prefix (r cline : pystr) (i : nat) :
  r `prefix_of` cline -> i < length r -> comment_start r i = comment_start cline i.
Proof.
  intros [suf ->] Hi. unfold comment_start.
  assert (Hget : forall j, j < length r -> getc r j = getc (r ++ suf) j).
  { intros j Hj. unfold getc. symmetry. apply app_nth1. exact Hj. }
  rewrite (quote_before_ext r (r ++ suf) i) by (intros j Hj; apply Hget; lia).
  rewrite (Hget i Hi). reflexivity.
Qed.

Lemma last_map_inv {A B : Type} (f : A -> B) (l : list A) (x : B) :
  last (map f l) = Some x -> exists y, last l = Some y /\ x = f y.
Proof.
  induction l as [|a [|b l] IH]; [discriminate| |exact IH].
  intros [= <-]. eauto.
Qed.

Lemma strip_comments_shape (line : pystr) :
  let cline := replace_char ch_tab ch_space (rstrip line) in
  strip_comments line `prefix_of` cline
  /\ (forall x, last (strip_comments line) = Some x -> py_isspace x = false)
  /\ forall i, i < length (strip_comments line) -> comment_start (strip_comments line) i = false.
Proof.
  intros cline. unfold strip_comments. fold cline.
  pose proof (strip_comments_loop_spec cline (length cline) 0) as Hloop.
  cbn [quote_before] in Hloop. rewrite Hloop. clear Hloop.
  destruct (List.find (comment_start cline) (seq 0 (length cline))) as [k|] eqn:Hfind.
  - apply find_seq_Some in Hfind as (Hk & _ & Hbefore).
    assert (Hpre : rstrip (take k cline) `prefix_of` cline).
    { destruct (rstrip_by_split py_isspace (take k cline)) as (suf & Hs & _).
      exists (suf ++ drop k cline). unfold rstrip. rewrite app_assoc, <- Hs.
      symmetry. apply take_drop. }
    split; [exact Hpre|]. split; [apply rstrip_by_last|].
    intros i Hi. rewrite (comment_start_prefix _ cline i Hpre Hi).
    apply Hbefore. split; [lia|].
    destruct (rstrip_by_split py_isspace (take k cline)) as (suf & Hs & _).
    assert (Hlen : length (take k cline) = length (rstrip (take k cline)) + length suf).
    { rewrite Hs at 1. apply length_app. }
    rewrite length_take in Hlen. lia.
  - split; [reflexivity|]. split.
    + intros x Hx. unfold cline, replace_char in Hx.
      apply last_map_inv in Hx as (y & Hy & ->).
      apply rstrip_by_last in Hy.
      destruct (Ascii.eqb_spec y ch_tab) as [->|_]; [discriminate|exact Hy].
    + intros i Hi. apply (proj1 (find_seq_None _ _ 0) Hfind). lia.
Qed.

(** X3. The line [strip_comments] returns is a prefix of the input line once
    right-stripped and with tabs turned into spaces; it holds no tab, does not
    end with white space and has no [#] outside a string literal.  Stripping
    it again changes nothing. *)
Theorem strip_comments_idempotent (line : pystr) :
  strip_comments line `prefix_of` replace_char ch_tab ch_space (rstrip line)
  /\ (ch_tab ∉ strip_comments line)
  /\ (forall x, last (strip_comments line) = Some x -> py_isspace x = false)
  /\ first_comment_start (strip_comments line) = None
  /\ strip_comments (strip_comments line) = strip_comments line.
Proof.
  destruct (strip_comments_shape line) as (Hpre & Hlast & Hnone).
  assert (Htab : ch_tab ∉ strip_comments line).
  { destruct Hpre as [suf Hsuf]. intros Hin.
    apply (replace_char_gone ch_tab ch_space (rstrip line)); [discriminate|].
    rewrite Hsuf. apply elem_of_app. auto. }
  assert (Hfind : first_comment_start (strip_comments line) = None).
  { apply find_seq_None. intros j Hj. apply Hnone. lia. }
  repeat split; try assumption.
  unfold strip_comments at 1.
  unfold rstrip. rewrite (rstrip_by_fixed py_isspace _ Hlast).
  rewrite (replace_char_fixed _ _ _ Htab).
  pose proof (strip_comments_loop_spec (strip_comments line)
                (length (strip_comments line)) 0) as Hloop.
  cbn [quote_before] in Hloop. rewrite Hloop.
  unfold first_comment_start in Hfind. rewrite Hfind. reflexivity.
Qed.

(** ** Lexer: the text is kept *)

Lemma slice_app {A : Type} (s : list A) (k i m : nat) :
  k <= i -> i <= m -> slice s k i ++ slice s i m = slice s k m.
Proof.
  intros Hki Him. unfold slice.
  replace (drop i s) with (drop (i - k) (drop k s))
    by (rewrite drop_drop; f_equal; lia).
  rewrite take_take_drop. f_equal. lia.
Qed.

Lemma slice_nil {A : Type} (s : list A) (k : nat) : slice s k k = [].
Proof. unfold slice. rewrite Nat.sub_diag. reflexivity. Qed.

Lemma getc_lookup (s : pystr) (i : nat) : i < length s -> s !! i = Some (getc s i).
Proof.
  intros Hi. destruct (lookup_lt_is_Some_2 s i Hi) as [x Hx].
  rewrite Hx. f_equal. symmetry. apply nth_lookup_Some with (d := "000") in Hx. exact Hx.
Qed.

Lemma slice_single (s : pystr) (i : nat) : i < length s -> slice s i (S i) = [getc s i].
Proof.
  intros Hi. unfold slice. replace (S i - i) with 1 by lia.
  rewrite (drop_S s (getc s i) i (getc_lookup s i Hi)). reflexivity.
Qed.

Lemma slice_snoc (s : pystr) (k i : nat) :
  k <= i -> i < length s -> slice s k (S i) = slice s k i ++ [getc s i].
Proof.
  intros Hki Hi. rewrite <- (slice_app s k i (S i)) by lia.
  rewrite slice_single by assumption. reflexivity.
Qed.

Lemma slice_cons (s : pystr) (k i : nat) :
  k < i -> k < length s -> slice s k i = getc s k :: slice s (S k) i.
Proof.
  intros Hki Hk. rewrite <- (slice_app s k (S k) i) by lia.
  rewrite slice_single by assumption. reflexivity.
Qed.

Lemma slice_all {A : Type} (s : list A) : slice s 0 (length s) = s.
Proof. unfold slice. rewrite Nat.sub_0_r, drop_0. apply take_ge. lia. Qed.

Lemma concat_contents_snoc (result : list Token) (t : Token) :
  concat (map content (result ++ [t])) = concat (map content result) ++ content t.
Proof. rewrite map_app, concat_app. simpl. rewrite app_nil_r. reflexivity. Qed.

Lemma tokenize_line_loop_spec (cline : pystr) (n : nat) :
  forall i q k result,
    i + n = length cline -> k <= i ->
    match q with
    | Some m => k < i /\ is_quote_char m = true /\ getc cline k = m
    | None => True
    end ->
    Forall literal_pass_token result ->
    let '(k', result') := tokenize_line_loop cline (seq i n) q k result in
    k' <= length cline
    /\ concat (map content result') ++ slice cline k' (length cline)
       = concat (map content result) ++ slice cline k (length cline)
    /\ Forall literal_pass_token result'.
Proof.
  induction n as [|n IH]; intros i q k result Hlen Hki Hq Hres.
  - cbn [seq tokenize_line_loop]. split; [lia|]. split; [reflexivity|assumption].
  - cbn [seq tokenize_line_loop].
    destruct q as [m|].
    + destruct Hq as (Hk & Hm & Hget).
      destruct (Ascii.eqb (getc cline i) m && negb (is_escaped_quote cline i)) eqn:E.
      * apply andb_true_iff in E as [E _]. apply Ascii.eqb_eq in E.
        specialize (IH (S i) None (i + 1)
                      (result ++ [mkToken STRING_LITERAL (slice cline k (i + 1))])).
        destruct (tokenize_line_loop cline (seq (S i) n) None (i + 1) _) as [k' result'].
        destruct IH as (Hk' & Htext & Hall); [lia|lia|exact I| |].
        { apply Forall_app. split; [assumption|]. constructor; [|constructor].
          unfold literal_pass_token. cbn [ttype content].
          exists m, (slice cline (S k) i). split; [assumption|].
          rewrite Nat.add_1_r, slice_snoc by lia.
          rewrite slice_cons by lia. rewrite Hget, E. reflexivity. }
        split; [assumption|]. split; [|assumption].
        rewrite Htext, concat_contents_snoc. cbn [content].
        rewrite <- app_assoc, slice_app by lia. reflexivity.
      * specialize (IH (S i) (Some m) k result).
        destruct (tokenize_line_loop cline (seq (S i) n) (Some m) k result) as [k' result'].
        apply IH; [lia|lia|auto with lia|assumption].
    + destruct (is_quote_char (getc cline i)) eqn:E.
      * specialize (IH (S i) (Some (getc cline i)) i
                      (result ++ [mkToken RAW (slice cline k i)])).
        destruct (tokenize_line_loop cline (seq (S i) n) _ i _) as [k' result'].
        destruct IH as (Hk' & Htext & Hall); [lia|lia|auto with lia| |].
        { apply Forall_app. split; [assumption|]. constructor; [exact I|constructor]. }
        split; [assumption|]. split; [|assumption].
        rewrite Htext, concat_contents_snoc. cbn [content].
        rewrite <- app_assoc, slice_app by lia. reflexivity.
      * specialize (IH (S i) None k result).
        destruct (tokenize_line_loop cline (seq (S i) n) None k result) as [k' result'].
        apply IH; [lia|lia|exact I|assumption].
Qed.

Lemma tokenize_line_spec (acc : list Token) (cline : pystr) :
  Forall literal_pass_token acc ->
  concat (map content (tokenize_line acc cline))
  = concat (map content acc) ++ cline ++ [ch_space]
  /\ Forall literal_pass_token (tokenize_line acc cline).
Proof.
  intros Hacc. unfold tokenize_line.
  pose proof (tokenize_line_loop_spec cline (length cline) 0 None 0 acc
                eq_refl (Nat.le_refl 0) I Hacc) as Hloop.
  destruct (tokenize_line_loop cline (seq 0 (length cline)) None 0 acc) as [k result].
  destruct Hloop as (Hk & Htext & Hall).
  rewrite slice_all in Htext. cbv zeta.
  destruct (Nat.ltb_spec k (length cline)) as [Hlt|Hge].
  - rewrite !concat_contents_snoc. cbn [content]. rewrite Htext.
    split; [rewrite <- app_assoc; reflexivity|].
    repeat (apply Forall_app; split); try assumption;
      (constructor; [|constructor]); [exact I|reflexivity].
  - assert (k = length cline) as -> by lia.
    rewrite slice_nil, app_nil_r in Htext.
    rewrite concat_contents_snoc, Htext. cbn [content].
    split; [rewrite <- app_assoc; reflexivity|].
    apply Forall_app. split; [assumption|]. constructor; [reflexivity|constructor].
Qed.

Lemma tokenize_string_literals_fold (lines : list pystr) :
  forall acc,
    Forall literal_pass_token acc ->
    concat (map content (fold_left tokenize_line lines acc))
    = concat (map content acc) ++ concat (map (fun l => l ++ [ch_space]) lines)
    /\ Forall literal_pass_token (fold_left tokenize_line lines acc).
Proof.
  induction lines as [|cline lines IH]; intros acc Hacc.
  - simpl. rewrite app_nil_r. split; [reflexivity|assumption].
  - cbn [fold_left]. destruct (tokenize_line_spec acc cline Hacc) as [Ht Hf].
    destruct (IH _ Hf) as [Hc Hf']. split; [|exact Hf'].
    rewrite Hc, Ht. cbn [map concat]. rewrite <- !app_assoc. reflexivity.
Qed.

(** X4. The string-literal pass loses no character: the contents of its
    tokens, put end to end, are the lines, each followed by one space.  Its
    tokens are [RAW] runs, single-space [WHITESPACE] tokens, and string
    literals that keep their quotes: each begins and ends with the same quote
    character. *)
Theorem tokenize_string_literals_text (lines : list pystr) :
  concat (map content (tokenize_string_literals lines))
  = concat (map (fun l => l ++ [ch_space]) lines)
  /\ Forall literal_pass_token (tokenize_string_literals lines).
Proof.
  change (tokenize_string_literals lines) with (fold_left tokenize_line lines []).
  exact (tokenize_string_literals_fold lines [] (List.Forall_nil _)).
Qed.

Lemma slice_length (s : pystr) (k i : nat) :
  i <= length s -> length (slice s k i) = i - k.
Proof. intros Hi. unfold slice. rewrite length_take, length_drop. lia. Qed.

Section TermPass.

(** The tokens the term pass makes all satisfy [Q]. *)
Variable Q : Token -> Prop.
Hypothesis Q_word :
  forall w, w <> [] -> Forall (fun c => is_boundary c = false) w -> Q (mkToken ALPHANUM_RAW w).
Hypothesis Q_space : Q (mkToken WHITESPACE [ch_space]).
Hypothesis Q_symbol :
  forall c, is_boundary c = true -> c <> ch_space -> Q (mkToken SYMBOL_RAW [c]).

Lemma tokenize_terms_loop_spec (term : pystr) (n : nat) :
  forall i k in_alphanumeric result,
    i + n = length term ->
    (in_alphanumeric = false /\ k = i)
    \/ (in_alphanumeric = true /\ k < i
        /\ Forall (fun c => is_boundary c = false) (slice term k i)) ->
    Forall Q result ->
    let '(k', result') :=
      tokenize_terms_loop term (seq i n) k in_alphanumeric result in
    (k' = length term
     \/ (k' < length term
         /\ Forall (fun c => is_boundary c = false) (slice term k' (length term))))
    /\ concat (map content result') ++ slice term k' (length term)
       = concat (map content result) ++ slice term k (length term)
    /\ Forall Q result'.
Proof.
  induction n as [|n IH]; intros i k in_alnum result Hlen Hinv Hres.
  - cbn [seq tokenize_terms_loop]. rewrite Nat.add_0_r in Hlen. subst i.
    split; [|split; [reflexivity|assumption]].
    destruct Hinv as [[_ ->]|(_ & Hk & Hw)]; auto.
  - cbn [seq tokenize_terms_loop].
    set (c := getc term i).
    assert (Hc : slice term i (S i) = [c]) by (apply slice_single; lia).
    destruct (Ascii.eqb c ch_space || is_boundary c) eqn:Hcond.
    + (* a space or another boundary character *)
      set (result1 := if (k <? i)%nat
                      then result ++ [mkToken ALPHANUM_RAW (slice term k i)]
                      else result).
      assert (H1 : concat (map content result1)
                   = concat (map content result) ++ slice term k i
                   /\ Forall Q result1 /\ k <= i).
      { unfold result1. destruct (Nat.ltb_spec k i) as [Hlt|Hge].
        - destruct Hinv as [[_ ->]|(_ & _ & Hw)]; [lia|].
          rewrite concat_contents_snoc. split; [reflexivity|]. split; [|lia].
          apply Forall_app. split; [assumption|]. constructor; [|constructor].
          apply Q_word; [|assumption].
          intros Hnil. apply (f_equal length) in Hnil.
          rewrite slice_length in Hnil by lia. simpl in Hnil. lia.
        - destruct Hinv as [[_ ->]|(_ & Hk & _)]; [|lia].
          rewrite slice_nil, app_nil_r. auto. }
      destruct H1 as (Htext1 & Hall1 & Hki).
      set (result2 := if Ascii.eqb c ch_space
                      then result1 ++ [mkToken WHITESPACE [ch_space]]
                      else result1 ++ [mkToken SYMBOL_RAW [c]]).
      assert (H2 : concat (map content result2)
                   = concat (map content result1) ++ [c]
                   /\ Forall Q result2).
      { unfold result2. destruct (Ascii.eqb_spec c ch_space) as [Hsp|Hsp].
        - rewrite concat_contents_snoc, Hsp. split; [reflexivity|].
          apply Forall_app. split; [assumption|]. constructor; [exact Q_space|constructor].
        - rewrite concat_contents_snoc. split; [reflexivity|].
          apply Forall_app. split; [assumption|]. constructor; [|constructor].
          apply Q_symbol; [|assumption].
          destruct (Ascii.eqb c ch_space) eqn:E; [apply Ascii.eqb_eq in E; contradiction|].
          exact Hcond. }
      destruct H2 as (Htext2 & Hall2).
      specialize (IH (S i) (i + 1) false result2).
      destruct (tokenize_terms_loop term (seq (S i) n) (i + 1) false result2)
        as [k' result'].
      destruct IH as (Hk' & Htext & Hall); [lia|left; split; [reflexivity|lia]|assumption|].
      split; [assumption|]. split; [|assumption].
      rewrite Htext, Htext2, Htext1, <- !app_assoc. f_equal.
      rewrite Nat.add_1_r, <- Hc, !slice_app by lia. reflexivity.
    + apply orb_false_iff in Hcond as [_ Hnb].
      destruct in_alnum.
      * cbn [negb].
        specialize (IH (S i) k true result).
        destruct (tokenize_terms_loop term (seq (S i) n) k true result) as [k' result'].
        apply IH; [lia| |assumption].
        right. destruct Hinv as [[? _]|(_ & Hk & Hw)]; [discriminate|].
        split; [reflexivity|]. split; [lia|].
        rewrite slice_snoc by lia. apply Forall_app. split; [assumption|].
        constructor; [exact Hnb|constructor].
      * cbn [negb].
        specialize (IH (S i) i true result).
        destruct (tokenize_terms_loop term (seq (S i) n) i true result) as [k' result'].
        destruct Hinv as [[_ ->]|(? & _)]; [|discriminate].
        apply IH; [lia| |assumption].
        right. split; [reflexivity|]. split; [lia|].
        rewrite Hc. constructor; [exact Hnb|constructor].
Qed.

Lemma tokenize_term_spec (acc : list Token) (token : Token) :
  Forall Q acc -> (ttype token <> RAW -> Q token) ->
  concat (map content (tokenize_term acc token))
  = concat (map content acc) ++ content token
  /\ Forall Q (tokenize_term acc token).
Proof.
  intros Hacc Htok. unfold tokenize_term.
  destruct (bool_decide_reflect (ttype token = RAW)) as [Hraw|Hraw]; cbn [negb].
  - pose proof (tokenize_terms_loop_spec (content token) (length (content token))
                  0 0 false acc eq_refl (or_introl (conj eq_refl eq_refl)) Hacc) as Hloop.
    destruct (tokenize_terms_loop (content token) _ 0 false acc) as [k result].
    destruct Hloop as (Hk & Htext & Hall).
    rewrite slice_all in Htext.
    destruct (Nat.ltb_spec k (length (content token))) as [Hlt|Hge].
    + rewrite concat_contents_snoc. cbn [content]. split; [exact Htext|].
      apply Forall_app. split; [assumption|]. constructor; [|constructor].
      destruct Hk as [->|[_ Hw]]; [lia|].
      apply Q_word; [|assumption].
      intros Hnil. apply (f_equal length) in Hnil.
      rewrite slice_length in Hnil by lia. simpl in Hnil. lia.
    + destruct Hk as [->|[? _]]; [|lia].
      rewrite slice_nil, app_nil_r in Htext. auto.
  - rewrite concat_contents_snoc. split; [reflexivity|].
    apply Forall_app. split; [assumption|]. constructor; [auto|constructor].
Qed.

Lemma tokenize_terms_fold (tokens : list Token) :
  forall acc,
    Forall Q acc -> Forall (fun t => ttype t <> RAW -> Q t) tokens ->
    concat (map content (fold_left tokenize_term tokens acc))
    = concat (map content acc) ++ concat (map content tokens)
    /\ Forall Q (fold_left tokenize_term tokens acc).
Proof.
  induction tokens as [|t tokens IH]; intros acc Hacc Htoks.
  - simpl. rewrite app_nil_r. auto.
  - cbn [fold_left]. inversion Htoks as [|? ? Ht Htoks']; subst.
    destruct (tokenize_term_spec acc t Hacc Ht) as [Htext Hall].
    destruct (IH _ Hall Htoks') as [Hc Hf]. split; [|exact Hf].
    rewrite Hc, Htext. cbn [map concat]. rewrite <- app_assoc. reflexivity.
Qed.

End TermPass.

Lemma term_pass_tokens (lines : list pystr) :
  Forall term_token (tokenize_terms (tokenize_string_literals lines)).
Proof.
  change (tokenize_terms (tokenize_string_literals lines))
    with (fold_left tokenize_term (fold_left tokenize_line lines []) []).
  apply (tokenize_terms_fold term_token).
  - intros w Hne Hw. split; assumption.
  - reflexivity.
  - intros c Hb Hsp. exists c. auto.
  - constructor.
  - eapply Forall_impl;
      [exact (proj2 (tokenize_string_literals_fold lines [] (List.Forall_nil _)))|].
    intros t Ht Hraw. unfold term_token. pose proof Ht as Ht'.
    unfold literal_pass_token in Ht'.
    destruct (ttype t); try contradiction; try exact Ht.
Qed.

Lemma tokenize_terms_loop_acc (term : pystr) (idxs : list nat) :
  forall k in_alphanumeric acc result,
    tokenize_terms_loop term idxs k in_alphanumeric (acc ++ result)
    = (fst (tokenize_terms_loop term idxs k in_alphanumeric result),
       acc ++ snd (tokenize_terms_loop term idxs k in_alphanumeric result)).
Proof.
  induction idxs as [|i rest IH]; intros k b acc result; [reflexivity|].
  cbn [tokenize_terms_loop].
  destruct (Ascii.eqb (getc term i) ch_space || is_boundary (getc term i)).
  - destruct (k <? i)%nat, (Ascii.eqb (getc term i) ch_space);
      rewrite <- ?app_assoc; apply IH.
  - destruct (negb b); apply IH.
Qed.

Lemma tokenize_term_acc (acc : list Token) (token : Token) :
  tokenize_term acc token = acc ++ tokenize_term [] token.
Proof.
  unfold tokenize_term. destruct (negb (bool_decide (ttype token = RAW))); [reflexivity|].
  pose proof (tokenize_terms_loop_acc (content token) (seq 0 (length (content token)))
                0 false acc []) as Hacc.
  rewrite app_nil_r in Hacc. rewrite Hacc.
  destruct (tokenize_terms_loop (content token) _ 0 false []) as [k result].
  cbn [fst snd]. destruct (k <? length (content token))%nat.
  - rewrite app_assoc. reflexivity.
  - reflexivity.
Qed.

Lemma tokenize_terms_pieces (tokens : list Token) :
  forall acc,
    fold_left tokenize_term tokens acc
    = acc ++ concat (map (fun t => fold_left tokenize_term [t] []) tokens).
Proof.
  induction tokens as [|t rest IH]; intros acc.
  - cbn. rewrite app_nil_r. reflexivity.
  - cbn [fold_left map concat]. rewrite IH, tokenize_term_acc, app_assoc. reflexivity.
Qed.

Lemma tokenize_term_raw (t : Token) :
  ttype t = RAW ->
  Forall (fun t' => term_token t' /\ ttype t' <> STRING_LITERAL /\ ttype t' <> RAW)
    (fold_left tokenize_term [t] [])
  /\ concat (map content (fold_left tokenize_term [t] [])) = content t.
Proof.
  intros Hraw.
  destruct (tokenize_terms_fold
              (fun t' => term_token t' /\ ttype t' <> STRING_LITERAL /\ ttype t' <> RAW))
    with (tokens := [t]) (acc := @nil Token) as [Hc Hq].
  - intros w Hne Hw. split; [split; assumption|split; discriminate].
  - split; [reflexivity|split; discriminate].
  - intros c Hb Hsp. split; [exists c; auto|split; discriminate].
  - constructor.
  - constructor; [|constructor]. intros Hne. contradiction.
  - split; [exact Hq|]. rewrite Hc. cbn. apply app_nil_r.
Qed.

(** X5. The term pass loses no character either: the contents of its tokens,
    put end to end, are those of the tokens it was given.  No [RAW] token is
    left.  On the tokens of the string-literal pass, every word it makes is
    a non-empty run without boundary characters, every symbol is a single
    boundary character other than the space, and string literals and spaces
    pass through as they are.  The pass works token by token: its result is,
    in order, what it makes of each token; a token that is not [RAW] (a
    string literal, a space) is forwarded as it is, and a [RAW] token is
    replaced by words, symbols and spaces that spell its text, never by a
    string literal.  So the string literals of the result are exactly those
    of the input, in the same order. *)
Theorem tokenize_terms_text (tokens : list Token) :
  concat (map content (tokenize_terms tokens)) = concat (map content tokens)
  /\ Forall (fun t => ttype t <> RAW) (tokenize_terms tokens)
  /\ (Forall literal_pass_token tokens -> Forall term_token (tokenize_terms tokens))
  /\ tokenize_terms tokens = concat (map (fun t => tokenize_terms [t]) tokens)
  /\ (forall t, ttype t <> RAW -> tokenize_terms [t] = [t])
  /\ (forall t, ttype t = RAW ->
        Forall (fun t' => term_token t' /\ ttype t' <> STRING_LITERAL /\ ttype t' <> RAW)
          (tokenize_terms [t])
        /\ concat (map content (tokenize_terms [t])) = content t)
  /\ List.filter is_string_literal (tokenize_terms tokens)
     = List.filter is_string_literal tokens.
Proof.
  change (tokenize_terms tokens) with (fold_left tokenize_term tokens []).
  assert (Hone : forall t, tokenize_terms [t] = fold_left tokenize_term [t] [])
    by reflexivity.
  assert (Hfwd : forall t, ttype t <> RAW -> fold_left tokenize_term [t] [] = [t]).
  { intros t Ht. cbn [fold_left]. unfold tokenize_term.
    rewrite bool_decide_eq_false_2 by exact Ht. reflexivity. }
  assert (Hpieces : fold_left tokenize_term tokens []
                    = concat (map (fun t => fold_left tokenize_term [t] []) tokens)).
  { exact (tokenize_terms_pieces tokens []). }
  split; [|split; [|split; [|split; [|split; [|split]]]]].
  - apply (tokenize_terms_fold (fun _ => True)); auto.
    apply List.Forall_forall. auto.
  - apply (tokenize_terms_fold (fun t => ttype t <> RAW)); try discriminate.
    + constructor.
    + apply List.Forall_forall. auto.
  - intros Hlit. apply (tokenize_terms_fold term_token).
    + intros w Hne Hw. split; assumption.
    + reflexivity.
    + intros c Hb Hsp. exists c. auto.
    + constructor.
    + eapply Forall_impl; [exact Hlit|].
      intros t Ht Hraw. unfold term_token. pose proof Ht as Ht'.
      unfold literal_pass_token in Ht'.
      destruct (ttype t); try contradiction; try exact Ht.
  - exact Hpieces.
  - intros t Ht. rewrite Hone. apply Hfwd, Ht.
  - intros t Ht. rewrite Hone. apply tokenize_term_raw, Ht.
  - rewrite Hpieces. clear Hpieces.
    induction tokens as [|t rest IH]; [reflexivity|].
    cbn [map concat]. rewrite List.filter_app, IH. cbn [List.filter].
    destruct (decide (ttype t = RAW)) as [Hraw|Hraw].
    + destruct (tokenize_term_raw t Hraw) as [Hall _].
      assert (Hnone : List.filter is_string_literal (fold_left tokenize_term [t] []) = []).
      { induction Hall as [|t' l (_ & Hns & _) _ IHl]; [reflexivity|].
        cbn [List.filter]. unfold is_string_literal at 1.
        rewrite bool_decide_eq_false_2 by exact Hns. exact IHl. }
      rewrite Hnone. unfold is_string_literal at 2.
      rewrite bool_decide_eq_false_2 by (rewrite Hraw; discriminate). reflexivity.
    + rewrite (Hfwd t Hraw). cbn [List.filter app].
      destruct (is_string_literal t); reflexivity.
Qed.

(** ** Lexer: whitespace runs *)

Lemma keep_unrepeated_fold (tokens : list Token) (suf : list Token) :
  forall pre acc,
    tokens = pre ++ suf ->
    fold_left (keep_unrepeated tokens) (seq (length pre) (length suf)) acc
    = acc ++ collapse_ws (prev_ws_of pre) suf.
Proof.
  induction suf as [|t suf IH]; intros pre acc Htok.
  - simpl. rewrite app_nil_r. reflexivity.
  - cbn [length seq fold_left collapse_ws].
    assert (Hstep : keep_unrepeated tokens acc (length pre)
                    = if is_whitespace t && prev_ws_of pre then acc else acc ++ [t]).
    { unfold keep_unrepeated. subst tokens.
      rewrite list_lookup_middle by reflexivity.
      destruct (is_whitespace t); cbn [negb orb andb]; [|reflexivity].
      unfold prev_ws_of. destruct pre as [|p pre _] using rev_ind; [reflexivity|].
      rewrite last_snoc, length_app. cbn [length].
      replace (length pre + 1 =? 0)%nat with false by (symmetry; apply Nat.eqb_neq; lia).
      cbn [orb]. rewrite <- app_assoc. cbn [app].
      rewrite list_lookup_middle by lia.
      destruct (is_whitespace p); reflexivity. }
    rewrite Hstep.
    assert (Hnext : S (length pre) = length (pre ++ [t])) by (rewrite length_app; simpl; lia).
    rewrite Hnext.
    assert (Hlast : prev_ws_of (pre ++ [t]) = is_whitespace t).
    { unfold prev_ws_of. rewrite last_snoc. reflexivity. }
    destruct (is_whitespace t && prev_ws_of pre) eqn:E.
    + rewrite IH by (rewrite <- app_assoc; exact Htok).
      rewrite Hlast. apply andb_true_iff in E as [-> _]. reflexivity.
    + rewrite IH by (rewrite <- app_assoc; exact Htok).
      rewrite Hlast, <- app_assoc. reflexivity.
Qed.

Lemma collapse_ws_filter (l : list Token) :
  forall b,
    List.filter (fun t => negb (is_whitespace t)) (collapse_ws b l)
    = List.filter (fun t => negb (is_whitespace t)) l.
Proof.
  induction l as [|t l IH]; intros b; [reflexivity|].
  cbn [collapse_ws]. destruct (is_whitespace t) eqn:Ht; cbn [andb].
  - destruct b; cbn [List.filter]; rewrite Ht; cbn [negb]; apply IH.
  - cbn [List.filter]. rewrite Ht. cbn [negb]. f_equal. apply IH.
Qed.

Lemma collapse_ws_sublist (l : list Token) : forall b, sublist (collapse_ws b l) l.
Proof.
  induction l as [|t l IH]; intros b; [constructor|].
  cbn [collapse_ws]. destruct (is_whitespace t && b).
  - apply sublist_cons, IH.
  - apply sublist_skip, IH.
Qed.

Lemma collapse_ws_separated (l : list Token) :
  forall b,
    (b = true -> forall t, head (collapse_ws b l) = Some t -> is_whitespace t = false)
    /\ ws_separated (collapse_ws b l).
Proof.
  induction l as [|t l IH]; intros b.
  - cbn [collapse_ws]. split; [discriminate|].
    intros j t1 t2 H. rewrite lookup_nil in H. discriminate.
  - cbn [collapse_ws]. destruct (is_whitespace t && b) eqn:E.
    + destruct (IH true) as [Hhd Hsep]. split; [auto|exact Hsep].
    + destruct (IH (is_whitespace t)) as [Hhd Hsep]. split.
      * intros -> t' [= <-]. rewrite andb_true_r in E. exact E.
      * intros [|j] t1 t2 H1 H2 [Hw1 Hw2].
        -- simpl in H1. injection H1 as <-.
           assert (head (collapse_ws (is_whitespace t) l) = Some t2) as Hh.
           { destruct (collapse_ws (is_whitespace t) l); [discriminate|exact H2]. }
           rewrite (Hhd Hw1 t2 Hh) in Hw2. discriminate.
        -- apply (Hsep j t1 t2 H1 H2). auto.
Qed.

Lemma remove_consecutive_whitespaces_collapse (tokens : list Token) :
  remove_consecutive_whitespaces tokens
  = let result := collapse_ws false tokens in
    let result :=
      match result with
      | t :: rest => if is_whitespace t then rest else result
      | [] => result
      end in
    match last result with
    | Some t => if is_whitespace t then removelast result else result
    | None => result
    end.
Proof.
  unfold remove_consecutive_whitespaces.
  change (fold_left _ (seq 0 (length tokens)) [])
    with (fold_left (keep_unrepeated tokens) (seq (length (@nil Token)) (length tokens)) []).
  rewrite (keep_unrepeated_fold tokens tokens [] [] eq_refl). reflexivity.
Qed.

Lemma remove_consecutive_whitespaces_facts (tokens : list Token) :
  List.filter (fun t => negb (is_whitespace t)) (remove_consecutive_whitespaces tokens)
  = List.filter (fun t => negb (is_whitespace t)) tokens
  /\ sublist (remove_consecutive_whitespaces tokens) tokens
  /\ ws_separated (remove_consecutive_whitespaces tokens)
  /\ (forall t, head (remove_consecutive_whitespaces tokens) = Some t ->
        is_whitespace t = false)
  /\ (forall t, last (remove_consecutive_whitespaces tokens) = Some t ->
        is_whitespace t = false).
Proof.
  rewrite remove_consecutive_whitespaces_collapse. cbv zeta.
  pose proof (collapse_ws_filter tokens false) as Hfilter.
  pose proof (collapse_ws_sublist tokens false) as Hsub.
  destruct (collapse_ws_separated tokens false) as [_ Hsep].
  set (r1 := collapse_ws false tokens) in *.
  set (r2 := match r1 with
             | t :: rest => if is_whitespace t then rest else r1
             | [] => r1
             end).
  assert (H2 : List.filter (fun t => negb (is_whitespace t)) r2
               = List.filter (fun t => negb (is_whitespace t)) tokens
               /\ sublist r2 tokens /\ ws_separated r2
               /\ forall t, head r2 = Some t -> is_whitespace t = false).
  { unfold r2. destruct r1 as [|t rest]; [repeat split; auto; discriminate|].
    destruct (is_whitespace t) eqn:Ht.
    - split; [|split; [|split]].
      + rewrite <- Hfilter. cbn [List.filter]. rewrite Ht. reflexivity.
      + etransitivity; [apply sublist_cons; reflexivity|exact Hsub].
      + intros j t1 t2 H1 H2. apply (Hsep (S j) t1 t2); assumption.
      + intros t2 Hh. destruct rest as [|t' rest]; [discriminate|].
        injection Hh as ->.
        destruct (is_whitespace t2) eqn:E; [|reflexivity].
        exfalso. apply (Hsep 0 t t2 eq_refl eq_refl). auto.
    - repeat split; auto. intros t' [= <-]. exact Ht. }
  clearbody r2. clear Hfilter Hsub Hsep r1.
  destruct H2 as (Hfilter & Hsub & Hsep & Hhead).
  destruct (last r2) as [t|] eqn:Hlast.
  - destruct (is_whitespace t) eqn:Ht.
    + apply last_Some in Hlast as [init ->]. rewrite removelast_last.
      split; [|split; [|split; [|split]]].
      * rewrite <- Hfilter, List.filter_app. cbn [List.filter]. rewrite Ht.
        cbn [negb]. rewrite app_nil_r. reflexivity.
      * etransitivity; [apply sublist_inserts_r; reflexivity|exact Hsub].
      * intros j t1 t2 H1 H2. apply (Hsep j t1 t2); apply lookup_app_l_Some; assumption.
      * intros t' Hh. apply Hhead. destruct init; [discriminate|exact Hh].
      * intros x Hx. apply last_Some in Hx as [init' ->].
        destruct (is_whitespace x) eqn:Ex; [|reflexivity].
        exfalso. apply (Hsep (length init') x t).
        -- rewrite <- !app_assoc. apply list_lookup_middle. reflexivity.
        -- rewrite <- !app_assoc. cbn [app].
           replace (init' ++ x :: [t]) with ((init' ++ [x]) ++ [t])
             by (rewrite <- app_assoc; reflexivity).
           apply list_lookup_middle. rewrite length_app. simpl. lia.
        -- auto.
    + repeat split; auto. intros x Hx. congruence.
  - repeat split; auto. intros x Hx. congruence.
Qed.

(** X6. [remove_consecutive_whitespaces] only drops whitespace tokens: the
    other tokens are all kept, in their order, and what is returned is a
    subsequence of the input.  In the result no two neighbours are both
    whitespace tokens, and neither the first nor the last token is one. *)
Theorem remove_consecutive_whitespaces_spec (tokens : list Token) :
  List.filter (fun t => negb (is_whitespace t)) (remove_consecutive_whitespaces tokens)
  = List.filter (fun t => negb (is_whitespace t)) tokens
  /\ sublist (remove_consecutive_whitespaces tokens) tokens
  /\ ws_separated (remove_consecutive_whitespaces tokens)
  /\ (forall t, head (remove_consecutive_whitespaces tokens) = Some t ->
        is_whitespace t = false)
  /\ (forall t, last (remove_consecutive_whitespaces tokens) = Some t ->
        is_whitespace t = false).
Proof. exact (remove_consecutive_whitespaces_facts tokens). Qed.


(** ** Lexer: the assertions of the star rewriter *)

Lemma Forall_sublist {A : Type} (P : A -> Prop) (k l : list A) :
  sublist k l -> Forall P l -> Forall P k.
Proof.
  induction 1 as [|x k l _ IH|x k l _ IH]; intros H; [constructor| |].
  - inversion H; subst. constructor; auto.
  - inversion H; subst. auto.
Qed.

Lemma term_token_space (t : Token) :
  term_token t -> content t = py " " -> is_whitespace t = true.
Proof.
  unfold term_token, literal_pass_token, is_whitespace. intros Ht Hc.
  destruct (ttype t); try contradiction; try reflexivity; exfalso.
  - destruct Ht as (q & body & _ & Hq). rewrite Hq in Hc.
    destruct body; discriminate.
  - destruct Ht as [_ Hw]. rewrite Hc in Hw. inversion Hw as [|? ? Hsp _]; subst.
    vm_compute in Hsp. discriminate.
  - destruct Ht as (c & Hq & _ & Hsp). rewrite Hq in Hc. injection Hc as ->.
    apply Hsp. reflexivity.
Qed.

Lemma no_adjacent_spaces_of_separated (l : list Token) :
  Forall term_token l -> ws_separated l -> no_adjacent_spaces l.
Proof.
  intros Hall Hsep j t1 t2 H1 H2 [Hc1 Hc2].
  apply (Hsep j t1 t2 H1 H2). rewrite List.Forall_forall in Hall.
  split; apply term_token_space; try assumption; apply Hall, list_elem_of_In;
    eapply list_elem_of_lookup_2; eassumption.
Qed.

Lemma no_adjacent_spaces_part (l1 body l2 : list Token) :
  no_adjacent_spaces (l1 ++ body ++ l2) -> no_adjacent_spaces body.
Proof.
  intros H j t1 t2 H1 H2. apply (H (length l1 + j) t1 t2).
  - rewrite lookup_app_r by lia. replace (length l1 + j - length l1) with j by lia.
    apply lookup_app_l_Some. exact H1.
  - rewrite lookup_app_r by lia. replace (S (length l1 + j) - length l1) with (S j) by lia.
    apply lookup_app_l_Some. exact H2.
Qed.

Lemma rewrite_column_token_space (t : Token) :
  content (rewrite_column_token t) = py " " -> content t = py " ".
Proof.
  unfold rewrite_column_token, replace_rbql_var.
  destruct (is_string_literal t); [auto|].
  destruct (column_var_regex (content t)); [discriminate|].
  destruct (bcolumn_var_regex (content t)); [discriminate|auto].
Qed.

Lemma no_adjacent_spaces_column_vars (body : list Token) :
  no_adjacent_spaces body -> no_adjacent_spaces (replace_column_vars body).
Proof.
  rewrite replace_column_vars_map. intros H j t1 t2 H1 H2 [Hc1 Hc2].
  rewrite list_lookup_fmap in H1, H2.
  destruct (body !! j) as [u1|] eqn:E1; [|discriminate].
  destruct (body !! S j) as [u2|] eqn:E2; [|discriminate].
  injection H1 as <-. injection H2 as <-.
  apply (H j u1 u2 E1 E2). split; apply rewrite_column_token_space; assumption.
Qed.

Lemma replace_star_vars_no_assert (tokens : list Token) :
  no_adjacent_spaces tokens -> exists tokens', replace_star_vars tokens = Ok tokens'.
Proof.
  intros Hno.
  pose proof (replace_star_vars_loop_spec tokens [] [] (List.Forall2_nil _)) as H.
  unfold replace_star_vars. cbn [length app] in H.
  destruct (replace_star_vars_loop _ _) as [tokens'|e]; [eauto|].
  destruct H as (_ & k & Hk). exfalso. exact (star_test_no_assert _ _ _ Hno Hk).
Qed.

(** X7. The tokens [lex_query] hands to the clause splitter are words,
    single symbols, string literals and single spaces, and no two
    neighbouring tokens are both spaces.  So on any run of consecutive tokens
    of a lexed query, such as a clause body, neither assertion of the star
    rewriter can fail, also after the column rewriter went over it. *)
Theorem lex_query_tokens (rbql_lines : list pystr) :
  Forall term_token (lex_query rbql_lines)
  /\ ws_separated (lex_query rbql_lines)
  /\ no_adjacent_spaces (lex_query rbql_lines)
  /\ forall l1 body l2,
       lex_query rbql_lines = l1 ++ body ++ l2 ->
       exists tokens', replace_star_vars (replace_column_vars body) = Ok tokens'.
Proof.
  assert (Hterm : Forall term_token (lex_query rbql_lines)).
  { unfold lex_query.
    eapply Forall_sublist; [apply remove_consecutive_whitespaces_facts|].
    apply term_pass_tokens. }
  assert (Hsep : ws_separated (lex_query rbql_lines)).
  { unfold lex_query. apply remove_consecutive_whitespaces_facts. }
  pose proof (no_adjacent_spaces_of_separated _ Hterm Hsep) as Hno.
  repeat split; try assumption.
  intros l1 body l2 Heq. apply replace_star_vars_no_assert, no_adjacent_spaces_column_vars.
  apply (no_adjacent_spaces_part l1 body l2). rewrite <- Heq. exact Hno.
Qed.

(** ** Join loader *)

Lemma read_join_table_loop_index (DLM : ascii) (j : Z) (lines : list pystr) :
  forall il result m0 data m,
    read_join_table_loop DLM j lines il result m0 = Ok (data, m) ->
    size data = size result + length lines
    /\ (forall key row, result !! key = Some row -> data !! key = Some row)
    /\ (forall ln, ln ∈ lines ->
          exists key, b_key DLM j ln = Ok key /\ data !! key = Some (b_fields DLM ln))
    /\ (forall key row, data !! key = Some row ->
          result !! key = Some row
          \/ exists ln, ln ∈ lines /\ b_key DLM j ln = Ok key /\ row = b_fields DLM ln).
Proof.
  induction lines as [|ln lines IH]; intros il result m0 data m H.
  - simpl in H. injection H as <- <-. simpl.
    repeat split; [lia|auto| |auto].
    intros ln Hin. inversion Hin.
  - cbn [read_join_table_loop] in H.
    fold (b_fields DLM ln) in H. fold (b_key DLM j ln) in H.
    destruct (b_key DLM j ln) as [key|e] eqn:Hkey; [|destruct e; discriminate].
    destruct (bool_decide_reflect (is_Some (result !! key))) as [Hin|Hfresh];
      [discriminate|].
    assert (Hnone : result !! key = None).
    { destruct (result !! key) eqn:E; [exfalso; apply Hfresh; eauto|reflexivity]. }
    destruct (IH _ _ _ _ _ H) as (Hsize & Hinh & Hall & Horig).
    split; [|split; [|split]].
    + rewrite Hsize, map_size_insert_None by exact Hnone. cbn [length]. lia.
    + intros key' row Hr. apply Hinh. rewrite lookup_insert_ne; [exact Hr|].
      intros <-. congruence.
    + intros ln' Hin. apply elem_of_cons in Hin as [->|Hin]; [|auto].
      exists key. split; [exact Hkey|]. apply Hinh. apply lookup_insert_eq.
    + intros key' row Hr. destruct (Horig key' row Hr) as [Hres|(ln' & Hin & Hk & ->)].
      * rewrite lookup_insert in Hres. case_decide as Hd.
        -- subst key'. injection Hres as <-. right. exists ln.
           split; [apply elem_of_cons; auto|auto].
        -- auto.
      * right. exists ln'. split; [apply elem_of_cons; auto|auto].
Qed.

Lemma read_join_table_loop_outcome (DLM : ascii) (j : Z) (lines : list pystr) :
  forall keys il result m0,
    map (b_key DLM j) lines = map Ok keys ->
    match first_dup (dom result) keys with
    | Some _ =>
        read_join_table_loop DLM j lines il result m0
        = Raise (RbqlRuntimeError join_unique_msg)
    | None => exists data m, read_join_table_loop DLM j lines il result m0 = Ok (data, m)
    end.
Proof.
  induction lines as [|ln lines IH]; intros keys il result m0 Hkeys.
  - destruct keys; [|discriminate]. simpl. eauto.
  - destruct keys as [|key keys]; [discriminate|].
    cbn [map] in Hkeys. injection Hkeys as Hkey Hkeys.
    cbn [read_join_table_loop first_dup].
    fold (b_fields DLM ln). fold (b_key DLM j ln). rewrite Hkey.
    destruct (bool_decide_reflect (key ∈ dom result)) as [Hin|Hin].
    + rewrite bool_decide_eq_true_2; [reflexivity|]. apply elem_of_dom. exact Hin.
    + rewrite bool_decide_eq_false_2 by (rewrite <- elem_of_dom; exact Hin).
      specialize (IH keys (S il) (<[key := b_fields DLM ln]> result)
                    (Nat.max m0 (length (b_fields DLM ln))) Hkeys).
      rewrite dom_insert_L in IH. exact IH.
Qed.

Lemma first_dup_empty_NoDup (l : list pystr) : first_dup ∅ l = None <-> NoDup l.
Proof.
  split; [apply first_dup_None|].
  intros Hnd. destruct (first_dup ∅ l) as [Y|] eqn:E; [|reflexivity].
  exfalso. destruct (first_dup_Some _ _ _ E) as (i & Hi & Hnd' & _ & [HY|HY]).
  - set_solver.
  - apply elem_of_take in HY as (i' & Hi' & Hlt).
    assert (i' = i) by (exact (NoDup_lookup l i' i Y Hnd Hi' Hi)). lia.
Qed.

(** X8. Loading the B table: a path that is no file raises the not
    accessible error.  When the load succeeds, the index has one entry per B
    record, every B record is stored under its key, and every stored row has
    its own key in the join column.  When every B record has the join
    column, the load succeeds if the keys are all different and raises the
    unique-column error otherwise. *)
Theorem read_join_table_index (fs : pystr -> option pystr) (DLM : ascii) (j : Z)
    (path : pystr) :
  match fs path with
  | None =>
      read_join_table fs DLM j path
      = Some (Raise (RbqlRuntimeError (py "Table B: " ++ path ++ py " is not accessible")))
  | Some content =>
      let lines := records_of ch_lf content in
      (forall data m,
         read_join_table fs DLM j path = Some (Ok (data, m)) ->
         size data = length lines
         /\ (forall ln, ln ∈ lines ->
               exists key, b_key DLM j ln = Ok key /\ data !! key = Some (b_fields DLM ln))
         /\ (forall key row, data !! key = Some row ->
               rbql_getitem row j = Ok key
               /\ exists ln, ln ∈ lines /\ row = b_fields DLM ln))
      /\ (forall keys,
            map (b_key DLM j) lines = map Ok keys ->
            (NoDup keys -> exists data m, read_join_table fs DLM j path = Some (Ok (data, m)))
            /\ (~ NoDup keys ->
                read_join_table fs DLM j path
                = Some (Raise (RbqlRuntimeError join_unique_msg))))
  end.
Proof.
  unfold read_join_table. destruct (fs path) as [content|]; [|reflexivity].
  rewrite rows_records_of by lia. cbv zeta. split.
  - intros data m [= H].
    destruct (read_join_table_loop_index _ _ _ _ _ _ _ _ H) as (Hsize & _ & Hall & Horig).
    rewrite map_size_empty in Hsize. split; [exact Hsize|]. split; [exact Hall|].
    intros key row Hr. destruct (Horig key row Hr) as [He|(ln & Hin & Hk & ->)].
    + rewrite lookup_empty in He. discriminate.
    + split; [exact Hk|eauto].
  - intros keys Hkeys.
    pose proof (read_join_table_loop_outcome DLM j _ keys 1 ∅ 0 Hkeys) as H.
    rewrite dom_empty_L in H.
    split; intros Hnd.
    + rewrite (proj2 (first_dup_empty_NoDup keys) Hnd) in H.
      destruct H as (data & m & ->). eauto.
    + destruct (first_dup ∅ keys) eqn:E.
      * rewrite H. reflexivity.
      * exfalso. apply Hnd, first_dup_empty_NoDup, E.
Qed.

(** ** The record loop of [rb_transform] *)

Lemma process_record_spec {K : Type} (P : py_meta_params K) (joiner : option joiner)
    (st : exec_state K) (NR : nat) (line : pystr) :
  let st' := fst (process_record P joiner st NR line) in
  unsorted_entries st' = unsorted_entries st ++ option_list (record_entry P joiner NR line)
  /\ out st' = fold_left writer_write (option_list (record_written P joiner NR line)) (out st)
  /\ where_count st'
     = where_count st + (if fst (try_record P joiner NR line) then 1 else 0)
  /\ snd (process_record P joiner st NR line)
     = match record_fails P joiner NR line with
       | Some e => Raise (handle_record_error NR e)
       | None => Ok tt
       end.
Proof.
  unfold process_record, record_entry, record_written, record_fails.
  destruct (try_record P joiner NR line) as [reached [[| |k r|r]|e]];
    cbn; rewrite ?app_nil_r; repeat split; destruct reached; lia.
Qed.

Lemma rb_transform_loop_spec {K : Type} (P : py_meta_params K) (joiner : option joiner)
    (records : list pystr) :
  forall NR st,
    match rb_transform_loop P joiner records NR st with
    | (st', Ok _) =>
        none_fails P joiner NR records
        /\ unsorted_entries st' = unsorted_entries st ++ entries_from P joiner NR records
        /\ out st' = fold_left writer_write (written_from P joiner NR records) (out st)
    | (st', Raise e) =>
        exists pre line post e0,
          records = pre ++ line :: post
          /\ none_fails P joiner NR pre
          /\ record_fails P joiner (NR + length pre) line = Some e0
          /\ e = handle_record_error (NR + length pre) e0
          /\ unsorted_entries st' = unsorted_entries st ++ entries_from P joiner NR pre
          /\ out st' = fold_left writer_write (written_from P joiner NR pre) (out st)
    end.
Proof.
  induction records as [|line rest IH]; intros NR st.
  - cbn. rewrite app_nil_r. split; [|auto]. intros i l Hl. discriminate.
  - cbn [rb_transform_loop written_from entries_from].
    pose proof (process_record_spec P joiner st NR line) as (He & Ho & _ & Hr).
    destruct (process_record P joiner st NR line) as [st1 r]. cbn [fst snd] in *.
    destruct (record_fails P joiner NR line) as [e0|] eqn:Hf; subst r.
    + exists [], line, rest, e0. cbn [app length written_from entries_from fold_left].
      rewrite Nat.add_0_r, app_nil_r.
      assert (Hst : unsorted_entries st1 = unsorted_entries st /\ out st1 = out st).
      { unfold record_fails in Hf. unfold record_entry in He. unfold record_written in Ho.
        destruct (snd (try_record P joiner NR line)); [discriminate|].
        cbn in He, Ho. rewrite app_nil_r in He. auto. }
      destruct Hst as [-> ->]. repeat split; auto.
      intros i l Hl. discriminate.
    + specialize (IH (S NR) st1).
      destruct (rb_transform_loop P joiner rest (S NR) st1) as [st' [[]|e]].
      * destruct IH as (Hn & He' & Ho'). split; [|split].
        -- intros [|i] l Hl.
           ++ injection Hl as <-. rewrite Nat.add_0_r. exact Hf.
           ++ replace (NR + S i) with (S NR + i) by lia. apply Hn, Hl.
        -- rewrite He', He, <- app_assoc. reflexivity.
        -- rewrite Ho', Ho, fold_left_app. reflexivity.
      * destruct IH as (pre & l & post & e0 & -> & Hn & Hfl & -> & He' & Ho').
        exists (line :: pre), l, post, e0. cbn [app length written_from entries_from].
        replace (NR + S (length pre)) with (S NR + length pre) by lia.
        split; [reflexivity|]. split; [|split; [exact Hfl|split; [reflexivity|split]]].
        -- intros [|i] l' Hl.
           ++ injection Hl as <-. rewrite Nat.add_0_r. exact Hf.
           ++ replace (NR + S i) with (S NR + i) by lia. apply Hn, Hl.
        -- rewrite He', He, <- app_assoc. reflexivity.
        -- rewrite Ho', Ho, fold_left_app. reflexivity.
Qed.

Lemma where_select_step_flag {K : Type} (P : py_meta_params K) (ctx : RowContext) :
  match where_select_step P ctx with
  | Ok (WriteRecord _) => sort_flag P = false
  | Ok (AppendEntry _ _) => sort_flag P = true
  | _ => True
  end.
Proof.
  unfold where_select_step.
  destruct (where_expression P ctx) as [w|e]; cbn; [|exact I].
  destruct (negb (truthy w)); [exact I|].
  destruct (select_expression P ctx) as [o|e]; cbn; [|exact I].
  destruct (sort_flag P) eqn:Hs; [|reflexivity].
  destruct (sort_key_expression P ctx); cbn; auto.
Qed.

Lemma try_record_flag {K : Type} (P : py_meta_params K) (joiner : option joiner)
    (NR : nat) (line : pystr) :
  match snd (try_record P joiner NR line) with
  | Ok (WriteRecord _) => sort_flag P = false
  | Ok (AppendEntry _ _) => sort_flag P = true
  | _ => True
  end.
Proof.
  unfold try_record.
  destruct (join_step _ _ _ _) as [[[b s]|]|e]; cbn [snd]; try exact I.
  apply where_select_step_flag.
Qed.

Lemma written_from_sorted {K : Type} (P : py_meta_params K) (joiner : option joiner)
    (records : list pystr) :
  sort_flag P = true -> forall NR, written_from P joiner NR records = [].
Proof.
  intros Hs. induction records as [|line rest IH]; intros NR; [reflexivity|].
  cbn [written_from]. rewrite IH, app_nil_r. unfold record_written.
  pose proof (try_record_flag P joiner NR line) as H.
  destruct (snd (try_record P joiner NR line)) as [[| |k r|r]|e]; try reflexivity.
  congruence.
Qed.

Lemma entries_from_unsorted {K : Type} (P : py_meta_params K) (joiner : option joiner)
    (records : list pystr) :
  sort_flag P = false -> forall NR, entries_from P joiner NR records = [].
Proof.
  intros Hs. induction records as [|line rest IH]; intros NR; [reflexivity|].
  cbn [entries_from]. rewrite IH, app_nil_r. unfold record_entry.
  pose proof (try_record_flag P joiner NR line) as H.
  destruct (snd (try_record P joiner NR line)) as [[| |k r|r]|e]; try reflexivity.
  congruence.
Qed.

Lemma new_writer_fold (wt : writer_type) (d : pystr) (rs : list pystr) :
  dst (fold_left writer_write rs (new_writer wt d)) = d ++ written_text wt rs.
Proof.
  unfold written_text. destruct wt.
  - apply (simple_writer_fold rs (new_writer SimpleWriter d)). reflexivity.
  - apply (uniq_writer_fold rs (new_writer UniqWriter d)). reflexivity.
Qed.



(** X10. A run of [rb_transform] that fails stopped at the first record whose
    [try] block raises: the exception is the one made from that record's
    1-based number, and the writer holds exactly what the records before it
    wrote.  With ORDER BY nothing at all has been written. *)
Theorem failed_run_first_error {K : Type} `{PyOrd K} (P : py_meta_params K)
    (joiner : option joiner) (records : list pystr) (destination : pystr)
    (st : exec_state K) (e : exn) :
  rb_transform_records P joiner records destination = (st, Raise e) ->
  exists pre line post e0,
    records = pre ++ line :: post
    /\ none_fails P joiner 1 pre
    /\ record_fails P joiner (S (length pre)) line = Some e0
    /\ e = handle_record_error (S (length pre)) e0
    /\ (exists msg, e = RbqlRuntimeError msg)
    /\ out st = fold_left writer_write (written_from P joiner 1 pre)
                  (new_writer (writer_name P) destination)
    /\ dst (out st) = destination ++ written_text (writer_name P) (written_from P joiner 1 pre)
    /\ (sort_flag P = true -> out st = new_writer (writer_name P) destination).
Proof.
  unfold rb_transform_records. intros Hrun.
  pose proof (rb_transform_loop_spec P joiner records 1
                (mkState [] (new_writer (writer_name P) destination) 0)) as Hloop.
  destruct (rb_transform_loop P joiner records 1 _) as [st1 [[]|e1]]; [discriminate|].
  injection Hrun as <- <-.
  destruct Hloop as (pre & line & post & e0 & Hrec & Hn & Hf & He & _ & Ho).
  cbn in Ho. exists pre, line, post, e0.
  split; [exact Hrec|]. split; [exact Hn|]. split; [exact Hf|]. split; [exact He|].
  split; [subst e1; destruct e0; cbn; eauto|].
  split; [exact Ho|]. split; [rewrite Ho; apply new_writer_fold|].
  intros Hs. rewrite Ho, (written_from_sorted P joiner pre Hs). reflexivity.
Qed.

Lemma failed_run_first_error_witness :
  exists st pre line post,
    rb_transform_records plan_select_a2 None [py "p" ++ [ch_tab] ++ py "q"; py "r"; py "s"] []
    = (st, Raise (RbqlRuntimeError (bad_a_column_msg 1 2)))
    /\ [py "p" ++ [ch_tab] ++ py "q"; py "r"; py "s"] = pre ++ line :: post
    /\ record_fails plan_select_a2 None (S (length pre)) line = Some (BadFieldError 1)
    /\ dst (out st) = py "q" ++ [ch_lf].
Proof.
  exists (fst (rb_transform_records plan_select_a2 None
                 [py "p" ++ [ch_tab] ++ py "q"; py "r"; py "s"] [])).
  assert (Hrun : rb_transform_records plan_select_a2 None
                   [py "p" ++ [ch_tab] ++ py "q"; py "r"; py "s"] []
                 = (fst (rb_transform_records plan_select_a2 None
                           [py "p" ++ [ch_tab] ++ py "q"; py "r"; py "s"] []),
                    Raise (RbqlRuntimeError (bad_a_column_msg 1 2))))
    by (vm_compute; reflexivity).
  destruct (failed_run_first_error _ _ _ _ _ _ Hrun)
    as (pre & line & post & e0 & Hrec & Hn & Hf & He & _ & _ & Hd & _).
  exists pre, line, post. split; [exact Hrun|]. split; [exact Hrec|].
  destruct pre as [|r1 [|r2 [|r3 pre]]]; injection Hrec as Hr1 Hr2; subst.
  - exfalso. vm_compute in Hf. discriminate.
  - split; [vm_compute; reflexivity|]. rewrite Hd. vm_compute. reflexivity.
  - exfalso. specialize (Hn 1 _ eq_refl). vm_compute in Hn. discriminate.
  - destruct pre; discriminate.
Defined.

(** ** INNER JOIN and STRICT LEFT JOIN *)

Lemma try_record_inner_join {K : Type} (P : py_meta_params K)
    (data : gmap pystr (list pystr)) (m NR : nat) (ln : pystr) :
  match a_key P ln with
  | Raise e => try_record P (Some (mkJoiner InnerJoiner data m)) NR ln = (false, Raise e)
  | Ok key =>
      match data !! key with
      | None =>
          try_record P (Some (mkJoiner InnerJoiner data m)) NR ln = (false, Ok ContinueJoin)
      | Some _ => fst (try_record P (Some (mkJoiner InnerJoiner data m)) NR ln) = true
      end
  end.
Proof.
  unfold try_record, join_step, a_key, a_fields.
  destruct (rbql_getitem _ _) as [key|e]; cbn; [|reflexivity].
  destruct (data !! key); cbn; reflexivity.
Qed.

Lemma try_record_strict_left_join {K : Type} (P : py_meta_params K)
    (data : gmap pystr (list pystr)) (m NR : nat) (ln : pystr) :
  match a_key P ln with
  | Raise e => try_record P (Some (mkJoiner StrictLeftJoiner data m)) NR ln = (false, Raise e)
  | Ok key =>
      match data !! key with
      | None =>
          try_record P (Some (mkJoiner StrictLeftJoiner data m)) NR ln
          = (false, Raise (RbqlRuntimeError (strict_left_msg key)))
      | Some _ => fst (try_record P (Some (mkJoiner StrictLeftJoiner data m)) NR ln) = true
      end
  end.
Proof.
  unfold try_record, join_step, a_key, a_fields.
  destruct (rbql_getitem _ _) as [key|e]; cbn; [|reflexivity].
  destruct (data !! key); cbn; reflexivity.
Qed.

Lemma a_matched_true {K : Type} (P : py_meta_params K) (data : gmap pystr (list pystr))
    (ln : pystr) :
  a_matched P data ln = true <-> exists key, a_key P ln = Ok key /\ is_Some (data !! key).
Proof.
  unfold a_matched. destruct (a_key P ln) as [key|e].
  - rewrite bool_decide_eq_true. split; [eauto|]. intros (k & [= <-] & Hk). exact Hk.
  - split; [discriminate|]. intros (k & Hk & _). discriminate.
Qed.

Lemma inner_join_reached {K : Type} (P : py_meta_params K)
    (data : gmap pystr (list pystr)) (m NR : nat) (ln : pystr) :
  record_fails P (Some (mkJoiner InnerJoiner data m)) NR ln = None ->
  fst (try_record P (Some (mkJoiner InnerJoiner data m)) NR ln) = a_matched P data ln
  /\ (a_matched P data ln = false ->
      try_record P (Some (mkJoiner InnerJoiner data m)) NR ln = (false, Ok ContinueJoin)).
Proof.
  intros Hf. pose proof (try_record_inner_join P data m NR ln) as H.
  unfold record_fails in Hf. unfold a_matched.
  destruct (a_key P ln) as [key|e].
  - destruct (data !! key) as [row|] eqn:Hk.
    + rewrite H. rewrite bool_decide_eq_true_2 by eauto. split; [reflexivity|discriminate].
    + rewrite H. rewrite bool_decide_eq_false_2 by (intros [? ?]; discriminate). auto.
  - rewrite H in Hf. discriminate.
Qed.

Lemma strict_left_join_reached {K : Type} (P : py_meta_params K)
    (data : gmap pystr (list pystr)) (m NR : nat) (ln : pystr) :
  record_fails P (Some (mkJoiner StrictLeftJoiner data m)) NR ln = None ->
  fst (try_record P (Some (mkJoiner StrictLeftJoiner data m)) NR ln) = true
  /\ a_matched P data ln = true.
Proof.
  intros Hf. pose proof (try_record_strict_left_join P data m NR ln) as H.
  unfold record_fails in Hf. unfold a_matched.
  destruct (a_key P ln) as [key|e].
  - destruct (data !! key) as [row|] eqn:Hk.
    + rewrite H. rewrite bool_decide_eq_true_2 by eauto. auto.
    + rewrite H in Hf. discriminate.
  - rewrite H in Hf. discriminate.
Qed.

Lemma process_record_ok {K : Type} (P : py_meta_params K) (joiner : option joiner)
    (st st1 : exec_state K) (NR : nat) (line : pystr) :
  process_record P joiner st NR line = (st1, Ok tt) ->
  record_fails P joiner NR line = None
  /\ where_count st1
     = where_count st + (if fst (try_record P joiner NR line) then 1 else 0).
Proof.
  intros Hp. pose proof (process_record_spec P joiner st NR line) as (_ & _ & Hw & Hr).
  rewrite Hp in Hw, Hr. cbn [fst snd] in Hw, Hr. split; [|exact Hw].
  destruct (record_fails P joiner NR line); [discriminate|reflexivity].
Qed.

(** X11. In a run with INNER JOIN that finishes, every A record has a join
    key; a record whose key is not in the B table is skipped before the WHERE
    test (nothing is evaluated, written or buffered for it), and the WHERE
    test is evaluated for exactly the records whose key is in the B table. *)
Theorem inner_join_skips_unmatched {K : Type} (P : py_meta_params K)
    (data : gmap pystr (list pystr)) (m : nat) (records : list pystr) :
  forall (NR : nat) (st st' : exec_state K),
    rb_transform_loop P (Some (mkJoiner InnerJoiner data m)) records NR st = (st', Ok tt) ->
    where_count st' = where_count st + length (List.filter (a_matched P data) records)
    /\ forall i ln, records !! i = Some ln ->
         (exists key, a_key P ln = Ok key)
         /\ (a_matched P data ln = false ->
             try_record P (Some (mkJoiner InnerJoiner data m)) (NR + i) ln
             = (false, Ok ContinueJoin)).
Proof.
  induction records as [|line rest IH]; intros NR st st' Hrun.
  - cbn in Hrun. injection Hrun as <-. cbn. split; [lia|]. intros i ln Hl. discriminate.
  - cbn [rb_transform_loop] in Hrun.
    destruct (process_record _ _ st NR line) as [st1 [[]|e]] eqn:Hp; [|discriminate].
    apply process_record_ok in Hp as [Hf Hw].
    destruct (inner_join_reached P data m NR line Hf) as [Hreach Hskip].
    destruct (IH _ _ _ Hrun) as [Hcount Hrest]. split.
    + rewrite Hcount, Hw, Hreach. cbn [List.filter].
      destruct (a_matched P data line); cbn [length]; lia.
    + intros [|i] ln Hl.
      * injection Hl as <-. rewrite Nat.add_0_r. split; [|exact Hskip].
        pose proof (try_record_inner_join P data m NR line) as H.
        unfold record_fails in Hf.
        destruct (a_key P line) as [key|e]; [eauto|]. rewrite H in Hf. discriminate.
      * replace (NR + S i) with (S NR + i) by lia. apply Hrest, Hl.
Qed.

Lemma inner_join_skips_unmatched_witness :
  exists st',
    rb_transform_loop (plan_join_a1_b2 InnerJoiner)
      (Some (mkJoiner InnerJoiner (join_data joiner_table_B) 2))
      [py "x"; py "z"; py "x"] 1 (mkState [] (new_writer SimpleWriter []) 0) = (st', Ok tt)
    /\ where_count st' = 2.
Proof.
  exists (fst (rb_transform_loop (plan_join_a1_b2 InnerJoiner)
                 (Some (mkJoiner InnerJoiner (join_data joiner_table_B) 2))
                 [py "x"; py "z"; py "x"] 1 (mkState [] (new_writer SimpleWriter []) 0))).
  assert (Hrun : rb_transform_loop (plan_join_a1_b2 InnerJoiner)
                   (Some (mkJoiner InnerJoiner (join_data joiner_table_B) 2))
                   [py "x"; py "z"; py "x"] 1 (mkState [] (new_writer SimpleWriter []) 0)
                 = (fst (rb_transform_loop (plan_join_a1_b2 InnerJoiner)
                           (Some (mkJoiner InnerJoiner (join_data joiner_table_B) 2))
                           [py "x"; py "z"; py "x"] 1
                           (mkState [] (new_writer SimpleWriter []) 0)), Ok tt))
    by (vm_compute; reflexivity).
  split; [exact Hrun|].
  destruct (inner_join_skips_unmatched _ _ _ _ _ _ _ Hrun) as [Hc _].
  rewrite Hc. vm_compute. reflexivity.
Defined.

(** X12. With STRICT LEFT JOIN an A record whose key is not in the B table
    stops the run with the error "Error at line: NR, Details: In "STRICT LEFT
    JOIN" mode all A table keys must be present in table B. Key "key" was not
    found", leaving the state as it was.  So in a run that finishes every A
    record has its key in the B table, and the WHERE test is evaluated for
    every record. *)
Theorem strict_left_join_requires_match {K : Type} (P : py_meta_params K)
    (data : gmap pystr (list pystr)) (m : nat) :
  (forall (st : exec_state K) NR ln key,
      a_key P ln = Ok key -> data !! key = None ->
      process_record P (Some (mkJoiner StrictLeftJoiner data m)) st NR ln
      = (st, Raise (RbqlRuntimeError
                      (py "Error at line: " ++ str_of_nat NR ++ py ", Details: "
                       ++ strict_left_msg key))))
  /\ (forall records NR (st st' : exec_state K),
        rb_transform_loop P (Some (mkJoiner StrictLeftJoiner data m)) records NR st
        = (st', Ok tt) ->
        Forall (fun ln => a_matched P data ln = true) records
        /\ where_count st' = where_count st + length records).
Proof.
  split.
  - intros st NR ln key Hkey Hnone.
    pose proof (try_record_strict_left_join P data m NR ln) as H.
    rewrite Hkey, Hnone in H. unfold process_record. rewrite H.
    destruct st; reflexivity.
  - induction records as [|line rest IH]; intros NR st st' Hrun.
    + cbn in Hrun. injection Hrun as <-. cbn. split; [constructor|lia].
    + cbn [rb_transform_loop] in Hrun.
      destruct (process_record _ _ st NR line) as [st1 [[]|e]] eqn:Hp; [|discriminate].
      apply process_record_ok in Hp as [Hf Hw].
      destruct (strict_left_join_reached P data m NR line Hf) as [Hreach Hm].
      destruct (IH _ _ _ Hrun) as [Hall Hcount]. split.
      * constructor; assumption.
      * rewrite Hcount, Hw, Hreach. cbn [length]. lia.
Qed.

Lemma strict_left_join_requires_match_witness :
  process_record (plan_join_a1_b2 StrictLeftJoiner)
    (Some (mkJoiner StrictLeftJoiner (join_data joiner_table_B) 2))
    (mkState [] (new_writer SimpleWriter []) 0) 7 (py "z")
  = (mkState [] (new_writer SimpleWriter []) 0,
     Raise (RbqlRuntimeError
              (py "Error at line: " ++ str_of_nat 7 ++ py ", Details: "
               ++ strict_left_msg (py "z")))).
Proof.
  apply (proj1 (strict_left_join_requires_match (plan_join_a1_b2 StrictLeftJoiner)
                  (join_data joiner_table_B) 2)
           (mkState [] (new_writer SimpleWriter []) 0) 7 (py "z") (py "z"));
    vm_compute; reflexivity.
Defined.

(** ** Keyword recognition *)

Lemma pattern_tokens_spec (fields : list pystr) :
  concat (map content (pattern_tokens fields)) = join_str [ch_space] fields
  /\ Forall (fun t => ttype t = ALPHANUM_RAW \/ ttype t = WHITESPACE) (pattern_tokens fields).
Proof.
  induction fields as [|f [|g rest] IH].
  - split; [reflexivity|constructor].
  - cbn. rewrite app_nil_r. split; [reflexivity|]. repeat constructor.
  - destruct IH as [IHc IHt].
    change (pattern_tokens (f :: g :: rest))
      with (mkToken ALPHANUM_RAW f :: mkToken WHITESPACE [ch_space]
              :: pattern_tokens (g :: rest)).
    change (join_str [ch_space] (f :: g :: rest))
      with (f ++ [ch_space] ++ join_str [ch_space] (g :: rest)).
    split.
    + cbn [map concat content]. rewrite IHc. reflexivity.
    + constructor; [left; reflexivity|]. constructor; [right; reflexivity|exact IHt].
Qed.

Lemma new_Pattern_spec (keyword : pystr) :
  text (new_Pattern keyword) = keyword
  /\ psize (new_Pattern keyword) = length (ptokens (new_Pattern keyword))
  /\ concat (map content (ptokens (new_Pattern keyword))) = keyword
  /\ Forall (fun t => ttype t = ALPHANUM_RAW \/ ttype t = WHITESPACE)
       (ptokens (new_Pattern keyword)).
Proof.
  unfold new_Pattern. cbn [text psize ptokens].
  destruct (pattern_tokens_spec (split_char ch_space keyword)) as [Hc Ht].
  rewrite Hc, join_split_char. auto.
Qed.

Lemma find_first {A : Type} (f : A -> bool) (l : list A) (p : A) :
  List.find f l = Some p ->
  exists l1 l2, l = l1 ++ p :: l2 /\ Forall (fun q => f q = false) l1 /\ f p = true.
Proof.
  induction l as [|a l IH]; [discriminate|]. cbn [List.find].
  destruct (f a) eqn:Ha.
  - intros [= <-]. exists [], l. auto.
  - intros Hf. destruct (IH Hf) as (l1 & l2 & -> & Hl1 & Hp).
    exists (a :: l1), l2. split; [reflexivity|]. split; [constructor; assumption|exact Hp].
Qed.

Lemma StronglySorted_middle {A : Type} (R : A -> A -> Prop) (l1 l2 : list A) (p : A) :
  StronglySorted R (l1 ++ p :: l2) -> Forall (R p) l2.
Proof.
  induction l1 as [|a l1 IH]; cbn; intros Hs.
  - apply StronglySorted_inv in Hs. tauto.
  - apply StronglySorted_inv in Hs. tauto.
Qed.

Lemma clause_patterns_by_length :
  StronglySorted (fun p q => length (text q) < length (text p)) clause_patterns.
Proof. vm_compute. repeat constructor. Qed.

Lemma clause_patterns_keywords :
  forall p, p ∈ clause_patterns -> p = new_Pattern (text p) /\ text p ∈ clause_keywords.
Proof.
  assert (H : forallb (fun k => bool_decide (k ∈ clause_keywords))
                (py_sorted (fun a b : pystr => (length a <? length b)%nat) true
                   clause_keywords) = true) by (vm_compute; reflexivity).
  rewrite forallb_forall in H. intros p Hp.
  unfold clause_patterns in Hp. apply list_elem_of_fmap in Hp as (k & -> & Hk).
  destruct (new_Pattern_spec k) as (-> & _). split; [reflexivity|].
  apply list_elem_of_In, H, bool_decide_eq_true in Hk. exact Hk.
Qed.

(** X13. When [consume_action] recognizes a clause keyword at [idx], the
    tokens it consumes are words and spaces only (never a string literal),
    their contents, upper-cased, spell the keyword, and at least one token
    follows them.  Every other clause keyword whose phrase also stands at
    [idx] and is followed by at least one token is shorter: among the
    keywords that do not reach the end of the token list, the longest
    wins. *)
Theorem consume_action_longest_keyword (tokens : list Token) (idx : nat)
    (action : pystr) (i_next : nat) :
  consume_action clause_patterns tokens idx = (Some action, i_next) ->
  action ∈ clause_keywords
  /\ i_next = idx + psize (new_Pattern action)
  /\ idx < i_next < length tokens
  /\ concat (map (fun t => upper (content t)) (slice tokens idx i_next)) = action
  /\ Forall (fun t => ttype t = ALPHANUM_RAW \/ ttype t = WHITESPACE)
       (slice tokens idx i_next)
  /\ (forall p, p ∈ clause_patterns ->
        phrase_at p tokens idx = true -> idx + psize p < length tokens ->
        text p <> action -> length (text p) < length action).
Proof.
  unfold consume_action. intros Hc.
  destruct (tokens !! idx) as [t|]; [|discriminate].
  destruct (is_string_literal t); [discriminate|].
  rewrite consume_patterns_find in Hc.
  destruct (List.find (pattern_matches tokens idx) clause_patterns) as [p|] eqn:Hfind;
    [|discriminate].
  injection Hc as <- <-.
  destruct (find_first _ _ _ Hfind) as (l1 & l2 & Hsplit & Hl1 & Hp).
  assert (Hin : p ∈ clause_patterns) by (rewrite Hsplit; set_solver).
  destruct (clause_patterns_keywords p Hin) as [Hnew Hkw].
  destruct (new_Pattern_spec (text p)) as (_ & Hsize & Hconcat & Htypes).
  rewrite <- Hnew in Hsize, Hconcat, Htypes.
  unfold pattern_matches, phrase_at in Hp.
  apply andb_prop in Hp as [Hlen Hphrase]. apply andb_prop in Hphrase as [Hcont Hty].
  apply negb_true_iff, Nat.leb_gt in Hlen.
  apply bool_decide_eq_true in Hcont, Hty.
  split; [exact Hkw|]. split; [rewrite <- Hnew; reflexivity|].
  split.
  { split; [|exact Hlen].
    pose proof clause_patterns_sizes as Hs. rewrite Forall_forall in Hs.
    specialize (Hs p Hin). lia. }
  split.
  { rewrite <- Hconcat, <- Hcont. reflexivity. }
  split.
  { apply (proj1 (List.Forall_map ttype (fun ty => ty = ALPHANUM_RAW \/ ty = WHITESPACE) _)).
    rewrite Hty. apply List.Forall_map. exact Htypes. }
  intros q Hq Hphrase Hbound Hne.
  assert (Hmatch : pattern_matches tokens idx q = true).
  { unfold pattern_matches. rewrite Hphrase, andb_true_r.
    apply negb_true_iff, Nat.leb_gt. exact Hbound. }
  pose proof clause_patterns_by_length as Hsorted. rewrite Hsplit in Hsorted.
  rewrite Hsplit in Hq. apply elem_of_app in Hq as [Hq|Hq].
  - rewrite Forall_forall in Hl1. rewrite (Hl1 q Hq) in Hmatch. discriminate.
  - apply elem_of_cons in Hq as [->|Hq]; [congruence|].
    apply StronglySorted_middle in Hsorted. rewrite Forall_forall in Hsorted.
    apply Hsorted, Hq.
Qed.

Lemma consume_action_longest_keyword_witness :
  py "SELECT DISTINCT" ∈ clause_keywords
  /\ 3 = 0 + psize (new_Pattern (py "SELECT DISTINCT"))
  /\ 0 < 3 < length (lex_query [py "select distinct a1"]).
Proof.
  pose proof (consume_action_longest_keyword (lex_query [py "select distinct a1"]) 0
                (py "SELECT DISTINCT") 3 ltac:(vm_compute; reflexivity))
    as (H1 & H2 & H3 & _).
  split; [exact H1|]. split; [exact H2|exact H3].
Defined.

(** ** [strip_tokens] and [join_tokens] *)

Lemma head_rev {A : Type} (l : list A) : head (rev l) = last l.
Proof.
  induction l as [|x l _] using rev_ind; [reflexivity|].
  rewrite rev_app_distr, last_snoc. reflexivity.
Qed.

Lemma last_rev {A : Type} (l : list A) : last (rev l) = head l.
Proof. rewrite <- (rev_involutive l) at 2. symmetry. apply head_rev. Qed.

Lemma lstrip_tokens_split (tokens : list Token) :
  exists a, tokens = a ++ lstrip_tokens tokens
    /\ Forall (fun t => is_space_token t = true) a
    /\ forall t, head (lstrip_tokens tokens) = Some t -> is_space_token t = false.
Proof.
  induction tokens as [|t rest IH].
  - exists []. repeat split; [constructor|discriminate].
  - cbn [lstrip_tokens]. destruct (is_space_token t) eqn:Ht.
    + destruct IH as (a & Hsplit & Ha & Hhead). exists (t :: a).
      split; [cbn; congruence|]. split; [constructor; assumption|exact Hhead].
    + exists []. split; [reflexivity|]. split; [constructor|].
      intros t' [= <-]. exact Ht.
Qed.

Lemma lstrip_tokens_fixed (tokens : list Token) :
  (forall t, head tokens = Some t -> is_space_token t = false) ->
  lstrip_tokens tokens = tokens.
Proof.
  destruct tokens as [|t rest]; [reflexivity|]. intros H. cbn [lstrip_tokens].
  rewrite (H t eq_refl). reflexivity.
Qed.

Lemma strip_tokens_split (tokens : list Token) :
  (exists a b, tokens = a ++ strip_tokens tokens ++ b
     /\ Forall (fun t => is_space_token t = true) a
     /\ Forall (fun t => is_space_token t = true) b)
  /\ (forall t, head (strip_tokens tokens) = Some t -> is_space_token t = false)
  /\ (forall t, last (strip_tokens tokens) = Some t -> is_space_token t = false).
Proof.
  unfold strip_tokens.
  destruct (lstrip_tokens_split tokens) as (a & Ha & Hsa & Hheada).
  set (l1 := lstrip_tokens tokens) in *.
  destruct (lstrip_tokens_split (rev l1)) as (b & Hb & Hsb & Hheadb).
  set (l2 := lstrip_tokens (rev l1)) in *.
  assert (Hl1 : l1 = rev l2 ++ rev b).
  { rewrite <- rev_app_distr, <- Hb, rev_involutive. reflexivity. }
  split; [|split].
  - exists a, (rev b). split; [rewrite <- Hl1; exact Ha|]. split; [exact Hsa|].
    apply Forall_forall. intros t Ht. rewrite Forall_forall in Hsb.
    apply Hsb. apply list_elem_of_In. apply list_elem_of_In in Ht.
    apply in_rev. exact Ht.
  - intros t Ht. apply Hheada. rewrite Hl1.
    destruct (rev l2); [discriminate|]. exact Ht.
  - intros t Ht. rewrite last_rev in Ht. apply Hheadb, Ht.
Qed.

Lemma lstrip_by_all (p : ascii -> bool) (sp s : pystr) :
  Forall (fun c => p c = true) sp -> lstrip_by p (sp ++ s) = lstrip_by p s.
Proof.
  induction 1 as [|c sp Hc _ IH]; [reflexivity|]. cbn. rewrite Hc. exact IH.
Qed.

Lemma rstrip_by_all (p : ascii -> bool) (s sp : pystr) :
  Forall (fun c => p c = true) sp -> rstrip_by p (s ++ sp) = rstrip_by p s.
Proof.
  intros Hsp. induction s as [|c s IH].
  - cbn. induction Hsp as [|d sp Hd _ IH]; [reflexivity|].
    cbn. rewrite IH, Hd. reflexivity.
  - cbn. rewrite IH. reflexivity.
Qed.

Lemma lstrip_by_app_all (p : ascii -> bool) (s sp : pystr) :
  Forall (fun c => p c = true) sp ->
  exists sp', lstrip_by p (s ++ sp) = lstrip_by p s ++ sp'
    /\ Forall (fun c => p c = true) sp'.
Proof.
  intros Hsp. induction s as [|c s IH].
  - exists []. split; [|constructor].
    pose proof (lstrip_by_all p sp [] Hsp) as H. rewrite app_nil_r in H.
    cbn. exact H.
  - cbn. destruct (p c); [exact IH|]. exists sp. auto.
Qed.

Lemma strip_spaces_around (sp s sp' : pystr) :
  Forall (fun c => py_isspace c = true) sp ->
  Forall (fun c => py_isspace c = true) sp' ->
  strip (sp ++ s ++ sp') = strip s.
Proof.
  intros Hsp Hsp'. unfold strip, rstrip. rewrite lstrip_by_all by assumption.
  destruct (lstrip_by_app_all py_isspace s sp' Hsp') as (sp2 & -> & Hsp2).
  apply rstrip_by_all, Hsp2.
Qed.

Lemma space_tokens_text (a : list Token) :
  Forall (fun t => is_space_token t = true) a ->
  Forall (fun c => py_isspace c = true) (concat (map content a)).
Proof.
  induction 1 as [|t a Ht _ IH]; [constructor|].
  cbn [map concat]. unfold is_space_token, str_eqb in Ht.
  apply bool_decide_eq_true in Ht. rewrite Ht. constructor; [reflexivity|exact IH].
Qed.

(** X14. [strip_tokens] removes exactly the single-space tokens at both ends:
    what it returns is the input between a run of space tokens and another,
    and neither begins nor ends with a space token.  Stripping again changes
    nothing, and [join_tokens] gives the same text before and after. *)
Theorem strip_tokens_spec (tokens : list Token) :
  (exists a b, tokens = a ++ strip_tokens tokens ++ b
     /\ Forall (fun t => content t = py " ") a
     /\ Forall (fun t => content t = py " ") b)
  /\ (forall t, head (strip_tokens tokens) = Some t -> content t <> py " ")
  /\ (forall t, last (strip_tokens tokens) = Some t -> content t <> py " ")
  /\ strip_tokens (strip_tokens tokens) = strip_tokens tokens
  /\ join_tokens (strip_tokens tokens) = join_tokens tokens.
Proof.
  destruct (strip_tokens_split tokens) as ((a & b & Hsplit & Ha & Hb) & Hhead & Hlast).
  assert (Hsp : forall t, is_space_token t = true <-> content t = py " ").
  { intros t. unfold is_space_token, str_eqb. apply bool_decide_eq_true. }
  assert (Hnsp : forall t, is_space_token t = false -> content t <> py " ").
  { intros t Ht Hc. apply Hsp in Hc. congruence. }
  split; [|split; [|split; [|split]]].
  - exists a, b. split; [exact Hsplit|].
    split; eapply Forall_impl; try eassumption; intros t Ht; apply Hsp, Ht.
  - intros t Ht. apply Hnsp, Hhead, Ht.
  - intros t Ht. apply Hnsp, Hlast, Ht.
  - unfold strip_tokens at 1.
    rewrite (lstrip_tokens_fixed (strip_tokens tokens) Hhead).
    rewrite lstrip_tokens_fixed; [apply rev_involutive|].
    intros t Ht. rewrite head_rev in Ht. apply Hlast, Ht.
  - unfold join_tokens. rewrite Hsplit at 2. rewrite !map_app, !concat_app.
    symmetry. apply strip_spaces_around; apply space_tokens_text; assumption.
Qed.

(** ** The clause bodies of [separate_actions] *)

Lemma slice_clamp {A : Type} (l : list A) (k i : nat) :
  length l <= i -> slice l k i = slice l k (length l).
Proof.
  intros Hi. unfold slice.
  rewrite !take_ge; [reflexivity| |]; rewrite length_drop; lia.
Qed.

Lemma first_dup_None_fresh (l : list pystr) :
  forall seen, first_dup seen l = None -> forall x, x ∈ l -> x ∉ seen.
Proof.
  induction l as [|b l IH]; intros seen H x Hx; [inversion Hx|].
  cbn [first_dup] in H. destruct (bool_decide_reflect (b ∈ seen)); [discriminate|].
  apply elem_of_cons in Hx as [->|Hx]; [assumption|].
  specialize (IH _ H x Hx). set_solver.
Qed.

Lemma store_prev_lookup (tokens : list Token) (prev : option pystr) (k i : nat)
    (result : gmap pystr (list Token)) :
  (forall p, prev = Some p ->
     store_prev tokens prev k i result !! p = Some (strip_tokens (slice tokens k i)))
  /\ (forall A, prev <> Some A -> store_prev tokens prev k i result !! A = result !! A).
Proof.
  split.
  - intros p ->. cbn. apply lookup_insert_eq.
  - intros A HA. destruct prev as [p|]; [|reflexivity].
    cbn. apply lookup_insert_ne. congruence.
Qed.

Lemma separate_actions_loop_bodies (patterns : list Pattern) (tokens : list Token)
    (Hsizes : Forall (fun p => 1 <= psize p) patterns) (fuel : nat) :
  forall (result : gmap pystr (list Token)) (prev : option pystr) (k i : nat)
         (m : gmap pystr (list Token)),
    length tokens <= i + fuel ->
    separate_actions_loop fuel patterns tokens result prev k i = Some (Ok m) ->
    (forall p, prev = Some p ->
       m !! p = Some (strip_tokens
                        (slice tokens k
                           (body_end tokens (scan_actions fuel patterns tokens i) 0))))
    /\ (forall n A pos,
          scan_actions fuel patterns tokens i !! n = Some (A, pos) ->
          exists i_next,
            consume_action patterns tokens pos = (Some A, i_next)
            /\ m !! A = Some (strip_tokens
                                (slice tokens i_next
                                   (body_end tokens (scan_actions fuel patterns tokens i)
                                      (S n)))))
    /\ (forall A, prev <> Some A ->
          A ∉ map fst (scan_actions fuel patterns tokens i) -> m !! A = result !! A).
Proof.
  assert (Hstop : forall result prev k i m,
             length tokens <= i ->
             Some (Ok (store_prev tokens prev k i result)) = Some (Ok m) ->
             (forall p, prev = Some p ->
                m !! p = Some (strip_tokens (slice tokens k (body_end tokens [] 0))))
             /\ (forall n A pos,
                   @nil (pystr * nat) !! n = Some (A, pos) ->
                   exists i_next,
                     consume_action patterns tokens pos = (Some A, i_next)
                     /\ m !! A = Some (strip_tokens
                                         (slice tokens i_next (body_end tokens [] (S n)))))
             /\ (forall A, prev <> Some A -> A ∉ map fst (@nil (pystr * nat)) ->
                   m !! A = result !! A)).
  { intros result prev k i m Hi [= <-].
    destruct (store_prev_lookup tokens prev k i result) as [Hp Hframe].
    split; [|split].
    - intros p Hprev. rewrite (Hp p Hprev). unfold body_end. cbn.
      rewrite (slice_clamp tokens k i Hi). reflexivity.
    - intros n A pos Hn. destruct n; discriminate.
    - intros A HA _. apply Hframe, HA. }
  induction fuel as [|fuel IH]; intros result prev k i m Hfuel Hrun.
  - cbn [scan_actions separate_actions_loop] in *.
    destruct (length tokens <=? i)%nat eqn:E; [|discriminate].
    apply Nat.leb_le in E. exact (Hstop result prev k i m E Hrun).
  - cbn [scan_actions separate_actions_loop] in *.
    destruct (length tokens <=? i)%nat eqn:E.
    { apply Nat.leb_le in E. exact (Hstop result prev k i m E Hrun). }
    apply Nat.leb_gt in E.
    pose proof (consume_action_progress patterns tokens i Hsizes) as Hprog.
    destruct (consume_action patterns tokens i) as [[action|] i_next] eqn:Hcons;
      simpl in Hprog.
    + destruct (store_prev_lookup tokens prev k i result) as [Hp Hframe].
      set (result' := store_prev tokens prev k i result) in *.
      destruct (bool_decide_reflect (is_Some (result' !! action))) as [Hdup|Hdup];
        [discriminate|].
      assert (Hfuel' : length tokens <= i_next + fuel) by lia.
      destruct (IH result' (Some action) i_next i_next m Hfuel' Hrun)
        as (Hprev' & Hacts' & Hframe').
      pose proof (separate_actions_loop_spec patterns tokens Hsizes fuel result'
                    (Some action) i_next i_next Hfuel') as Hspec.
      destruct (first_dup _ _) eqn:Hfd; [rewrite Hspec in Hrun; discriminate|].
      pose proof (first_dup_None_fresh _ _ Hfd) as Hfresh. clear Hspec.
      split; [|split].
      * intros p Hprev. unfold body_end. cbn [lookup list_lookup].
        rewrite Hframe'.
        -- apply Hp, Hprev.
        -- intros [= ->]. apply Hdup. rewrite (Hp p Hprev). eauto.
        -- intros Hin. apply (Hfresh p Hin). cbn [seen_actions].
           apply elem_of_union_r, elem_of_dom. rewrite (Hp p Hprev). eauto.
      * intros [|n] A pos Hn.
        -- injection Hn as <- <-. exists i_next. split; [exact Hcons|].
           apply Hprev'. reflexivity.
        -- apply (Hacts' n A pos Hn).
      * intros A HA Hnot. cbn [map fst] in Hnot.
        rewrite Hframe'.
        -- apply Hframe, HA.
        -- intros [= ->]. apply Hnot. left.
        -- intros Hin. apply Hnot. right. exact Hin.
    + apply (IH result prev k i_next m); [lia|exact Hrun].
Qed.

(** X15. When [separate_actions] returns a dictionary, its keys are exactly
    the clause keywords recognized, and the value stored for a keyword is
    [strip_tokens] of the tokens between the end of that keyword and the next
    recognized keyword, or the end of the token list for the last one.  With
    no keyword recognized the dictionary is empty. *)
Theorem separate_actions_bodies (tokens : list Token) (m : gmap pystr (list Token)) :
  separate_actions tokens = Some (Ok m) ->
  (forall A, is_Some (m !! A) <-> A ∈ map fst (recognized_actions tokens))
  /\ (forall n A pos,
        recognized_actions tokens !! n = Some (A, pos) ->
        A ∈ clause_keywords
        /\ m !! A = Some (strip_tokens
                            (slice tokens (pos + psize (new_Pattern A))
                               (body_end tokens (recognized_actions tokens) (S n)))))
  /\ (recognized_actions tokens = [] -> m = ∅).
Proof.
  unfold separate_actions, recognized_actions. intros Hrun.
  destruct (separate_actions_loop_bodies clause_patterns tokens clause_patterns_sizes
              (length tokens) ∅ None 0 0 m ltac:(lia) Hrun) as (_ & Hacts & Hframe).
  assert (Hkeys : forall A, is_Some (m !! A)
                            <-> A ∈ map fst (scan_actions (length tokens) clause_patterns
                                               tokens 0)).
  { intros A. split.
    - intros [body Hbody].
      destruct (decide (A ∈ map fst (scan_actions (length tokens) clause_patterns tokens 0)))
        as [Hin|Hnot]; [exact Hin|].
      rewrite (Hframe A) in Hbody; [|discriminate|exact Hnot].
      rewrite lookup_empty in Hbody. discriminate.
    - intros Hin. apply list_elem_of_fmap in Hin as ([A' pos] & -> & Hin).
      apply list_elem_of_lookup in Hin as [n Hn].
      destruct (Hacts n A' pos Hn) as (i_next & _ & Hm). cbn [fst]. eauto. }
  split; [exact Hkeys|]. split.
  - intros n A pos Hn. destruct (Hacts n A pos Hn) as (i_next & Hcons & Hm).
    destruct (consume_action_recognizes tokens pos A i_next Hcons)
      as (p & Hp & -> & -> & _ & _).
    destruct (clause_patterns_keywords p Hp) as [Hnew Hkw].
    split; [exact Hkw|]. rewrite <- Hnew. exact Hm.
  - intros Hnil. apply map_eq. intros A. rewrite lookup_empty.
    apply eq_None_not_Some. rewrite Hkeys, Hnil. cbn. apply not_elem_of_nil.
Qed.

Lemma separate_actions_bodies_witness :
  let tokens := lex_query [py "select a1 where a2"] in
  let m : gmap pystr (list Token) :=
    {[ py "SELECT" := [mkToken ALPHANUM_RAW (py "a1")];
       py "WHERE" := [mkToken ALPHANUM_RAW (py "a2")] ]} in
  separate_actions tokens = Some (Ok m)
  /\ forall A, is_Some (m !! A) <-> A ∈ map fst (recognized_actions tokens).
Proof.
  intros tokens m.
  assert (Hrun : separate_actions tokens = Some (Ok m)) by (vm_compute; reflexivity).
  split; [exact Hrun|exact (proj1 (separate_actions_bodies tokens m Hrun))].
Defined.

(** ** Column variables and decimal numbers *)

Lemma pretty_N_char_digit (r : N) :
  (r < 10)%N ->
  is_digit (pretty_N_char r) = true
  /\ nat_of_ascii (pretty_N_char r) - 48 = N.to_nat r
  /\ ((0 < r)%N -> is_nonzero_digit (pretty_N_char r) = true).
Proof.
  intros Hr.
  assert (H : (r = 0 \/ r = 1 \/ r = 2 \/ r = 3 \/ r = 4 \/ r = 5 \/ r = 6 \/ r = 7
               \/ r = 8 \/ r = 9)%N) by lia.
  repeat (destruct H as [->|H]); try subst r;
    (split; [reflexivity|split; [reflexivity|intros H0; first [reflexivity|lia]]]).
Qed.

Lemma int_of_digits_snoc (ds : pystr) (c : ascii) :
  int_of_digits (ds ++ [c]) = 10 * int_of_digits ds + (nat_of_ascii c - 48).
Proof. unfold int_of_digits. rewrite fold_left_app. reflexivity. Qed.

Lemma pretty_N_go_digits (x : N) :
  forall s, exists ds,
    py (pretty_N_go x s) = ds ++ py s
    /\ Forall (fun c => is_digit c = true) ds
    /\ int_of_digits ds = N.to_nat x
    /\ ((0 < x)%N -> exists d rest, ds = d :: rest /\ is_nonzero_digit d = true).
Proof.
  induction (N.lt_wf_0 x) as [x _ IH]. intros s.
  destruct (N.eq_dec x 0%N) as [->|Hx].
  - exists []. rewrite pretty_N_go_0. repeat split; [constructor|lia].
  - assert (Hpos : (0 < x)%N) by lia.
    rewrite (pretty_N_go_step x s Hpos).
    assert (Hdiv : (x / 10 < x)%N) by (apply N.div_lt; lia).
    destruct (IH _ Hdiv (String (pretty_N_char (x mod 10)) s))
      as (ds & Hds & Hdig & Hval & Hhead).
    assert (Hmod : (x mod 10 < 10)%N) by (apply N.mod_lt; lia).
    destruct (pretty_N_char_digit _ Hmod) as (Hc1 & Hc2 & Hc3).
    exists (ds ++ [pretty_N_char (x mod 10)]). split; [|split; [|split]].
    + rewrite Hds, <- app_assoc. reflexivity.
    + apply Forall_app. split; [exact Hdig|]. constructor; [exact Hc1|constructor].
    + rewrite int_of_digits_snoc, Hval, Hc2.
      pose proof (N.div_mod x 10%N ltac:(lia)) as Hdm. lia.
    + intros _. destruct (N.eq_dec (x / 10)%N 0%N) as [H0|H0].
      * assert (Hds0 : ds = []).
        { rewrite H0 in Hval. destruct ds as [|d ds']; [reflexivity|exfalso].
          rewrite H0, pretty_N_go_0 in Hds.
          apply (f_equal (@length ascii)) in Hds. cbn in Hds.
          rewrite length_app in Hds. cbn in Hds. lia. }
        subst ds. exists (pretty_N_char (x mod 10)), []. split; [reflexivity|].
        apply Hc3. apply N.div_small_iff in H0; [|lia].
        rewrite N.mod_small by exact H0. exact Hpos.
      * destruct Hhead as (d & rest & -> & Hd); [lia|].
        exists d, (rest ++ [pretty_N_char (x mod 10)]). auto.
Qed.

Lemma str_of_nat_digits (n : nat) :
  1 <= n ->
  exists d rest,
    str_of_nat n = d :: rest
    /\ is_nonzero_digit d = true
    /\ Forall (fun c => is_digit c = true) rest
    /\ int_of_digits (d :: rest) = n.
Proof.
  intros Hn. unfold str_of_nat, pretty, pretty_nat, pretty, pretty_N.
  destruct (decide (N.of_nat n = 0%N)) as [H0|H0]; [lia|].
  destruct (pretty_N_go_digits (N.of_nat n) EmptyString) as (ds & Hds & Hdig & Hval & Hhead).
  destruct Hhead as (d & rest & -> & Hd); [lia|].
  change (py EmptyString) with (@nil ascii) in Hds. rewrite app_nil_r in Hds.
  exists d, rest. split; [exact Hds|]. split; [exact Hd|].
  split; [apply Forall_inv_tail in Hdig; exact Hdig|]. rewrite Hval. lia.
Qed.

Lemma digits_take_drop (rest : pystr) :
  Forall (fun c => is_digit c = true) rest ->
  take_digits rest = rest /\ drop_digits rest = [].
Proof.
  induction 1 as [|c rest Hc _ [IHt IHd]]; [auto|].
  cbn. rewrite Hc, IHt, IHd. auto.
Qed.

Lemma match_var_number (letter other : ascii) (n : nat) :
  1 <= n ->
  exists g, match_var letter (letter :: str_of_nat n) = Some g
    /\ int_of_digits g = n
    /\ (other <> letter -> match_var other (letter :: str_of_nat n) = None).
Proof.
  intros Hn. destruct (str_of_nat_digits n Hn) as (d & rest & -> & Hd & Hrest & Hval).
  destruct (digits_take_drop rest Hrest) as [Ht Hdr].
  exists (d :: rest). unfold match_var. rewrite Ascii.eqb_refl, Hd, Ht, Hdr. cbn.
  split; [reflexivity|]. split; [exact Hval|].
  intros Hne. apply Ascii.eqb_neq in Hne. rewrite Ascii.eqb_sym, Hne. reflexivity.
Qed.

(** X16. For every column number [N >= 1] (written in decimal as Python
    writes it) [replace_rbql_var] turns the variable [aN] into [fields[N-1]]
    and [bN] into [bfields[N-1]]; [a0] and [b0] are no variables. *)
Theorem replace_rbql_var_number (n : nat) :
  1 <= n ->
  replace_rbql_var (py "a" ++ str_of_nat n)
  = Some (py "fields[" ++ str_of_nat (n - 1) ++ py "]")
  /\ replace_rbql_var (py "b" ++ str_of_nat n)
     = Some (py "bfields[" ++ str_of_nat (n - 1) ++ py "]")
  /\ replace_rbql_var (py "a" ++ str_of_nat 0) = None
  /\ replace_rbql_var (py "b" ++ str_of_nat 0) = None.
Proof.
  intros Hn. unfold replace_rbql_var, column_var_regex, bcolumn_var_regex.
  change (py "a" ++ str_of_nat n) with ("a" :: str_of_nat n).
  change (py "b" ++ str_of_nat n) with ("b" :: str_of_nat n).
  destruct (match_var_number "a" "b" n Hn) as (ga & Ha & Hva & _).
  destruct (match_var_number "b" "a" n Hn) as (gb & Hb & Hvb & Hnb).
  rewrite Ha, Hva, (Hnb ltac:(discriminate)), Hb, Hvb.
  repeat split; reflexivity.
Qed.

Lemma replace_rbql_var_number_witness :
  replace_rbql_var (py "a10") = Some (py "fields[9]")
  /\ replace_rbql_var (py "b10") = Some (py "bfields[9]").
Proof.
  destruct (replace_rbql_var_number 10 ltac:(lia)) as (Ha & Hb & _).
  split; [exact Ha|exact Hb].
Defined.

(** ** [select *] from end to end *)

Lemma try_record_select_star (wt : writer_type) (DLM : ascii) (NR : nat) (line : pystr) :
  try_record (plan_select_star wt DLM) None NR line
  = (true, Ok (WriteRecord (strip_eol line))).
Proof. reflexivity. Qed.

Lemma written_from_select_star (wt : writer_type) (DLM : ascii) (records : list pystr) :
  forall NR, written_from (plan_select_star wt DLM) None NR records = map strip_eol records.
Proof.
  induction records as [|line rest IH]; intros NR; [reflexivity|].
  cbn [written_from map]. rewrite IH. reflexivity.
Qed.

(** X17. The query [select *] parses to the SELECT body [*], which becomes the
    expression [star_line]; run on any input, the executor finishes and
    copies the input record by record: each record without its trailing
    carriage returns and line feeds, followed by one line feed.  With
    [select distinct *] only the first occurrence of each record is
    written. *)
Theorem select_star_copies_input (wt : writer_type) (DLM : ascii)
    (fs : pystr -> option pystr) (source destination : pystr) :
  separate_actions (lex_query [py "select *"])
  = Some (Ok {[ py "SELECT" := [mkToken SYMBOL_RAW (py "*")] ]})
  /\ parse_select [mkToken SYMBOL_RAW (py "*")] = Ok (py "star_line")
  /\ exists st,
       rb_transform (plan_select_star wt DLM) fs source destination = Some (st, Ok tt)
       /\ dst (out st)
          = destination ++ written_text wt (map strip_eol (records_of ch_lf source)).
Proof.
  split; [vm_compute; reflexivity|]. split; [vm_compute; reflexivity|].
  unfold rb_transform. cbn [plan_select_star joiner_name new_joiner].
  rewrite (rows_records_of ch_lf source 1024) by lia.
  unfold rb_transform_records.
  pose proof (rb_transform_loop_spec (plan_select_star wt DLM) None
                (records_of ch_lf source) 1
                (mkState [] (new_writer (writer_name (plan_select_star wt DLM))
                               destination) 0)) as Hloop.
  destruct (rb_transform_loop _ _ _ _ _) as [st1 [[]|e]].
  - destruct Hloop as (_ & He & Ho). cbn [unsorted_entries out] in He, Ho.
    rewrite (entries_from_unsorted (plan_select_star wt DLM) None
               (records_of ch_lf source) eq_refl) in He.
    rewrite written_from_select_star in Ho.
    eexists. split; [reflexivity|].
    cbn [app] in He. unfold write_sorted. rewrite He, Ho. apply new_writer_fold.
  - destruct Hloop as (pre & line & post & e0 & _ & _ & Hf & _). discriminate.
Qed.

(* ================================================================== *)
(** * Part IV. ORDER BY from the clause to the output *)
(* ================================================================== *)

(** C1, as the code has it, for queries in 8-bit characters whose sort-key
    values the host compares by a strict total order.  Let [order_by] be the
    tokens of the ORDER BY clause, from which [parse_to_py] takes
    [reverse_flag].  In a run of [rb_transform] that finishes, the buffer
    holds one entry per selected record, in the order the records were
    processed, nothing has been written during the loop, and what is
    written after it is the buffer sorted by the pairs (sort key, record):
    a permutation of the buffer whose sort keys never decrease and in which
    entries with equal sort keys come in the order of their record texts,
    whatever their insertion order; it is written in that order, and in
    exactly the reversed order when the clause ends, in any case, with
    [ DESC]. *)
Theorem order_by_sorts_pairs {K : Type} `{PyOrd K} {HL : PyOrdLaws K}
    (P : py_meta_params K) (joiner : option joiner) (order_by : list Token)
    (records : list pystr) (destination : pystr) (st : exec_state K) :
  sort_flag P = true ->
  reverse_flag P = fst (parse_order_by order_by) ->
  rb_transform_records P joiner records destination = (st, Ok tt) ->
  let entries := entries_from P joiner 1 records in
  let ascending := py_sorted entry_lt false entries in
  let desc := endswith (upper (join_tokens (replace_column_vars order_by))) (py " DESC") in
  (exists st1,
     rb_transform_loop P joiner records 1
       (mkState [] (new_writer (writer_name P) destination) 0) = (st1, Ok tt)
     /\ unsorted_entries st1 = entries
     /\ out st1 = new_writer (writer_name P) destination)
  /\ out st
     = fold_left writer_write (map snd (if desc then rev ascending else ascending))
         (new_writer (writer_name P) destination)
  /\ dst (out st)
     = destination
       ++ written_text (writer_name P) (map snd (if desc then rev ascending else ascending))
  /\ Permutation ascending entries
  /\ Sorted (not_after entry_lt) ascending
  /\ (forall i j a b,
        i < j -> ascending !! i = Some a -> ascending !! j = Some b ->
        py_lt (fst b) (fst a) = false
        /\ (fst a = fst b -> str_ltb (snd b) (snd a) = false)).
Proof.
  intros Hsort Hrev Hrun entries ascending desc.
  unfold rb_transform_records in Hrun.
  pose proof (rb_transform_loop_spec P joiner records 1
                (mkState [] (new_writer (writer_name P) destination) 0)) as Hloop.
  destruct (rb_transform_loop P joiner records 1 _) as [st1 [[]|e]] eqn:Hl; [|discriminate].
  injection Hrun as <-. destruct Hloop as (_ & He & Ho).
  cbn [unsorted_entries out app] in He, Ho.
  rewrite (written_from_sorted P joiner records Hsort) in Ho. cbn [fold_left] in Ho.
  fold entries in He.
  assert (Hflag : reverse_flag P = desc).
  { rewrite Hrev. apply parse_order_by_reverse_flag. }
  assert (Hrevsort : py_sorted entry_lt true entries = rev ascending).
  { exact (py_sorted_reverse entry_lt entry_eq_dec entry_lt_irrefl entry_lt_trans
             entry_lt_total entries). }
  assert (Hsorted : Sorted (not_after entry_lt) ascending).
  { exact (stable_sort_sorted entry_lt entry_lt_irrefl entry_lt_trans entries). }
  assert (Hout : out (write_sorted P st1)
                 = fold_left writer_write
                     (map snd (if desc then rev ascending else ascending))
                     (new_writer (writer_name P) destination)).
  { rewrite write_sorted_writes, He, Ho, Hflag. unfold sorted_records.
    destruct desc; [rewrite Hrevsort|]; reflexivity. }
  split; [exists st1; auto|].
  split; [exact Hout|]. split; [rewrite Hout; apply new_writer_fold|].
  split; [apply stable_sort_perm|]. split; [exact Hsorted|].
  intros i j a b Hij Ha Hb.
  assert (Hna : not_after entry_lt a b).
  { exact (sorted_lookup_not_after entry_lt entry_eq_dec entry_lt_trans entry_lt_total
             _ i j a b Hsorted Hij Ha Hb). }
  unfold not_after, entry_lt in Hna.
  destruct (py_eq (fst b) (fst a)) eqn:E.
  - apply py_eq_spec in E. split; [rewrite E; apply py_lt_irrefl|]. intros _. exact Hna.
  - split; [exact Hna|]. intros Heq. symmetry in Heq.
    apply py_eq_spec in Heq. congruence.
Qed.

Lemma order_by_sorts_pairs_witness :
  exists st,
    parse_order_by [mkToken ALPHANUM_RAW (py "a1"); mkToken WHITESPACE (py " ");
                    mkToken ALPHANUM_RAW (py "desc")]
    = (true, py "fields[0]")
    /\ rb_transform_records plan_order_by_a1_desc None
         [py "k" ++ [ch_tab] ++ py "w"; py "j" ++ [ch_tab] ++ py "y";
          py "k" ++ [ch_tab] ++ py "x"] [] = (st, Ok tt)
    /\ entries_from plan_order_by_a1_desc None 1
         [py "k" ++ [ch_tab] ++ py "w"; py "j" ++ [ch_tab] ++ py "y";
          py "k" ++ [ch_tab] ++ py "x"]
       = [(py "k", py "w"); (py "j", py "y"); (py "k", py "x")]
    /\ dst (out st) = py "x" ++ [ch_lf] ++ py "w" ++ [ch_lf] ++ py "y" ++ [ch_lf].
Proof.
  exists (fst (rb_transform_records plan_order_by_a1_desc None
                 [py "k" ++ [ch_tab] ++ py "w"; py "j" ++ [ch_tab] ++ py "y";
                  py "k" ++ [ch_tab] ++ py "x"] [])).
  assert (Hrun : rb_transform_records plan_order_by_a1_desc None
                   [py "k" ++ [ch_tab] ++ py "w"; py "j" ++ [ch_tab] ++ py "y";
                    py "k" ++ [ch_tab] ++ py "x"] []
                 = (fst (rb_transform_records plan_order_by_a1_desc None
                           [py "k" ++ [ch_tab] ++ py "w"; py "j" ++ [ch_tab] ++ py "y";
                            py "k" ++ [ch_tab] ++ py "x"] []), Ok tt))
    by (vm_compute; reflexivity).
  destruct (order_by_sorts_pairs (HL := PyOrdLaws_str) plan_order_by_a1_desc None
              [mkToken ALPHANUM_RAW (py "a1"); mkToken WHITESPACE (py " ");
               mkToken ALPHANUM_RAW (py "desc")]
              [py "k" ++ [ch_tab] ++ py "w"; py "j" ++ [ch_tab] ++ py "y";
               py "k" ++ [ch_tab] ++ py "x"] [] _
              eq_refl ltac:(vm_compute; reflexivity) Hrun)
    as (_ & _ & Hdst & _).
  split; [vm_compute; reflexivity|]. split; [exact Hrun|].
  split; [vm_compute; reflexivity|].
  rewrite Hdst. vm_compute. reflexivity.
Defined.
